(** * gofumpt [format] package: the rule engine over a mutable line table

    A shallow embedding of [src/format/format.go].  The formatter never
    prints text itself: every rule reads and rewrites the line table of a
    [token.File] and a few fields of the syntax tree, and the printer later
    re-serialises the tree against the rewritten table.  The embedding
    therefore centres on the line table (a list of line-start offsets),
    the position-sorted comment list, and the handful of node kinds whose
    fields the rules inspect.

    Conventions.
    - Go [int] and [token.Pos] are [Z]; no rule here relies on overflow.
    - A Go [panic] is the [Panic] result; an early [return] is [Ok] of the
      unchanged state.
    - Go strings are [string]s of bytes ([ascii]).
    - [f.minSplitFactor] is a binary64 float, kept as a primitive float so
      that [int(f.minSplitFactor * longLineLimit)] rounds as in Go. *)

From Stdlib Require Import ZArith List String Ascii Bool Lia Sorted Floats.
Import ListNotations.
Set Warnings "-inexact-float,-register-all".
Open Scope Z_scope.

(** ** Panics *)

Inductive result (A : Type) : Type :=
| Ok (a : A)
| Panic (msg : string).
Arguments Ok {A} a.
Arguments Panic {A} msg.

Definition bind {A B : Type} (r : result A) (k : A -> result B) : result B :=
  match r with
  | Ok a => k a
  | Panic msg => Panic msg
  end.

Notation "x <- r ;; k" := (bind r (fun x => k))
  (at level 61, r at next level, right associativity).

(** ** [go/token]: positions and the line table

    [token.File] is part of the Go standard library; the model keeps the
    fields the formatter depends on.  [lines] holds the offset of the
    first byte of every line; [go/token] keeps it strictly increasing
    ([SetLines] refuses anything else) and starts it with offset 0.
    [infos] holds the alternative positions the scanner records at
    [//line] and [/*line*/] directives, in the order of their offsets.
    [f.Line(p)] and [f.Position(p)] are [f.PositionFor(p, true)]: the line
    and column of the table, moved by the last directive at or before
    [p].  They are given for positions inside the file,
    [base <= p <= base + size]; the theorems below only use them there. *)

Module token.

Definition Pos := Z.
Definition NoPos : Pos := 0.
Definition IsValid (p : Pos) : bool := negb (p =? NoPos).

(** [lineInfo]: the alternative line and column a directive gives to an
    offset.  The file name it gives is read by no rule and left out. *)
Record lineInfo : Type := mkLineInfo {
  InfoOffset : Z;
  InfoLine : Z;
  InfoColumn : Z
}.

Record File : Type := mkFile {
  base : Z;
  size : Z;
  lines : list Z;
  infos : list lineInfo
}.

(** [searchInts a x]: the largest [i] with [a[i] <= x], or -1.  The
    library runs a binary search over the sorted table; the scan below
    returns the same index on a sorted table. *)
Fixpoint searchInts (a : list Z) (x : Z) : Z :=
  match a with
  | [] => -1
  | c :: a' => if c <=? x then 1 + searchInts a' x else -1
  end.

(** [f.Offset(p)] panics outside the file. *)
Definition Offset (f : File) (p : Pos) : result Z :=
  if (p <? base f) || (base f + size f <? p)
  then Panic "invalid Pos value"
  else Ok (p - base f).

(** Line and column as the table alone gives them, which is what
    [f.PositionFor(p, false)] returns: the line is one plus the index of
    the line start at or before [p], the column one plus the distance to
    that line start. *)
Definition tableLine (f : File) (p : Pos) : Z :=
  if p =? NoPos then 0 else searchInts (lines f) (p - base f) + 1.

Definition tableColumn (f : File) (p : Pos) : Z :=
  if p =? NoPos then 0
  else let off := p - base f in
       let i := searchInts (lines f) off in
       if 0 <=? i then off - nth (Z.to_nat i) (lines f) 0 + 1 else 0.

(** [searchLineInfos a x]: the largest [i] with [a[i].Offset <= x], or -1;
    a scan of the table sorted by offset, as in [searchInts]. *)
Fixpoint searchLineInfos (a : list lineInfo) (x : Z) : Z :=
  match a with
  | [] => -1
  | c :: a' => if InfoOffset c <=? x then 1 + searchLineInfos a' x else -1
  end.

(** [f.PositionFor(p, adjusted)], line and column: [f.unpack] looks the
    offset up in the table and, if [adjusted] is set and the file has
    directives, counts the line from the last directive at or before the
    offset.  A directive without a column makes the column 0; one with a
    column moves the columns of its own line. *)
Definition PositionFor (f : File) (p : Pos) (adjusted : bool) : Z * Z :=
  if p =? NoPos then (0, 0)
  else
    let offset := p - base f in
    let line := tableLine f p in
    let column := tableColumn f p in
    if adjusted && (0 <? Z.of_nat (List.length (infos f))) then
      let i := searchLineInfos (infos f) offset in
      if 0 <=? i then
        let alt := nth (Z.to_nat i) (infos f) (mkLineInfo 0 0 0) in
        let j := searchInts (lines f) (InfoOffset alt) in
        if 0 <=? j then
          let d := line - (j + 1) in
          (InfoLine alt + d,
           if InfoColumn alt =? 0 then 0
           else if d =? 0 then InfoColumn alt + (offset - InfoOffset alt)
           else column)
        else (line, column)
      else (line, column)
    else (line, column).

(** [f.Line(p)] is [f.Position(p).Line], and [f.Position(p)] is
    [f.PositionFor(p, true)]. *)
Definition Line (f : File) (p : Pos) : Z := fst (PositionFor f p true).
Definition Column (f : File) (p : Pos) : Z := snd (PositionFor f p true).

Definition LineCount (f : File) : Z := Z.of_nat (List.length (lines f)).

(** [f.LineStart(line)]: position of the first byte of [line]. *)
Definition LineStart (f : File) (line : Z) : result Pos :=
  if line <? 1 then Panic "invalid line number (should be >= 1)"
  else if LineCount f <? line then Panic "invalid line number (should be < LineCount)"
  else Ok (base f + nth (Z.to_nat (line - 1)) (lines f) 0).

(** [f.MergeLine(line)] joins [line] with the next one by dropping the
    table entry at index [line]. *)
Definition MergeLine (f : File) (line : Z) : result File :=
  if line <? 1 then Panic "invalid line number (should be >= 1)"
  else if LineCount f <=? line then Panic "invalid line number (should be < LineCount)"
  else Ok (mkFile (base f) (size f)
             (firstn (Z.to_nat line) (lines f) ++ skipn (S (Z.to_nat line)) (lines f))
             (infos f)).

(** The validity test of [f.SetLines]: every offset exceeds its
    predecessor and lies below the file size. *)
Fixpoint validLines (size : Z) (prev : option Z) (l : list Z) : bool :=
  match l with
  | [] => true
  | offset :: l' =>
      let bad := match prev with
                 | Some p => offset <=? p
                 | None => false
                 end || (size <=? offset) in
      if bad then false else validLines size (Some offset) l'
  end.

Definition SetLines (f : File) (l : list Z) : option File :=
  if validLines (size f) None l then Some (mkFile (base f) (size f) l (infos f)) else None.

End token.

(** ** [sort.Search]

    The library's binary search, run for at most [fuel] halvings: the
    smallest index in [[i, j)] at which [p] holds, or [j], provided [p] is
    monotone on the range. *)

Module sort.

Fixpoint Search_loop (fuel : nat) (p : Z -> bool) (i j : Z) : Z :=
  match fuel with
  | O => i
  | S fuel' =>
      if i <? j then
        let h := Z.shiftr (i + j) 1 in
        if negb (p h) then Search_loop fuel' p (h + 1) j
        else Search_loop fuel' p i h
      else i
  end.

Definition Search (n : Z) (p : Z -> bool) : Z :=
  Search_loop (S (Z.to_nat n)) p 0 n.

End sort.

(** ** [go/ast]: comments and the node kinds the rules read

    Comments live in a flat, position-sorted list beside the tree.  Of the
    tree only the node kinds whose fields a modelled rule inspects are
    spelled out; every other expression or statement is an [OtherExpr] or
    [OtherStmt], of which the rules read [Pos()] and [End()] alone. *)

Module ast.

Definition Pos := token.Pos.

Inductive Token : Type :=
| INT | FLOAT | IMAG | CHAR | STRING
| ADD | SUB | MUL | QUO | REM | AND | OR | XOR
| LAND | LOR | EQL | LSS | GTR | NOT | NEQ | LEQ | GEQ
| ASSIGN | DEFINE | ADD_ASSIGN | SUB_ASSIGN
| CONST | IMPORT | TYPE | VAR.

Definition Token_eq_dec (a b : Token) : {a = b} + {a <> b}.
Proof. decide equality. Defined.

Definition Token_eqb (a b : Token) : bool :=
  if Token_eq_dec a b then true else false.

Record Comment : Type := mkComment {
  Slash : Pos;
  Text : string
}.

(** [List] is never empty ([len(List) > 0] in [go/ast]). *)
Record CommentGroup : Type := mkCommentGroup {
  List : list Comment
}.

Definition Comment_Pos (c : Comment) : Pos := Slash c.
Definition Comment_End (c : Comment) : Pos :=
  Slash c + Z.of_nat (String.length (Text c)).

Definition dummyComment : Comment := mkComment token.NoPos "".

Definition CommentGroup_Pos (g : CommentGroup) : Pos :=
  Comment_Pos (hd dummyComment (List g)).

Inductive Expr : Type :=
| Ident (NamePos : Pos) (Name : string)
| BasicLit (ValuePos : Pos) (Kind : Token) (Value : string)
| CompositeLit (Type_ : option Expr) (Lbrace : Pos) (Elts : list Expr) (Rbrace : Pos)
| UnaryExpr (OpPos : Pos) (Op : Token) (X : Expr)
| BinaryExpr (X : Expr) (OpPos : Pos) (Op : Token) (Y : Expr)
| CallExpr (Fun : Expr) (Lparen : Pos) (Args : list Expr) (Rparen : Pos)
| OtherExpr (pos end_ : Pos).

Fixpoint Expr_Pos (e : Expr) : Pos :=
  match e with
  | Ident p _ => p
  | BasicLit p _ _ => p
  | CompositeLit (Some t) _ _ _ => Expr_Pos t
  | CompositeLit None lb _ _ => lb
  | UnaryExpr p _ _ => p
  | BinaryExpr x _ _ _ => Expr_Pos x
  | CallExpr f _ _ _ => Expr_Pos f
  | OtherExpr p _ => p
  end.

Fixpoint Expr_End (e : Expr) : Pos :=
  match e with
  | Ident p n => p + Z.of_nat (String.length n)
  | BasicLit p _ v => p + Z.of_nat (String.length v)
  | CompositeLit _ _ _ rb => rb + 1
  | UnaryExpr _ _ x => Expr_End x
  | BinaryExpr _ _ _ y => Expr_End y
  | CallExpr _ _ _ rp => rp + 1
  | OtherExpr _ e' => e'
  end.

(** Parameter and result lists. *)
Record Field : Type := mkField {
  Names : list Expr;
  FieldType : option Expr
}.

Definition Field_Pos (f : Field) : Pos :=
  match Names f, FieldType f with
  | n :: _, _ => Expr_Pos n
  | [], Some t => Expr_Pos t
  | [], None => token.NoPos
  end.

Definition Field_End (f : Field) : Pos :=
  match FieldType f, Names f with
  | Some t, _ => Expr_End t
  | None, [] => token.NoPos
  | None, n :: ns => Expr_End (last ns n)
  end.

Record FieldList : Type := mkFieldList {
  Opening : Pos;
  Fields : list Field;
  Closing : Pos
}.

Definition FieldList_Pos (l : FieldList) : Pos :=
  if token.IsValid (Opening l) then Opening l
  else match Fields l with
       | f :: _ => Field_Pos f
       | [] => token.NoPos
       end.

Definition FieldList_End (l : FieldList) : Pos :=
  if token.IsValid (Closing l) then Closing l + 1
  else match Fields l with
       | [] => token.NoPos
       | f :: fs => Field_End (last fs f)
       end.




Inductive Stmt : Type :=
| AssignStmt (Lhs : list Expr) (TokPos : Pos) (Tok : Token) (Rhs : list Expr)
| IfStmt (If : Pos) (Init : option Stmt) (Cond : Expr) (Body : BlockStmt) (Else : option Stmt)
| BlockStmtS (b : BlockStmt)
| OtherStmt (pos end_ : Pos)
with BlockStmt : Type :=
| mkBlockStmt (Lbrace : Pos) (Stmts : list Stmt) (Rbrace : Pos).

Definition BlockStmt_Lbrace (b : BlockStmt) : Pos :=
  match b with mkBlockStmt lb _ _ => lb end.
Definition BlockStmt_Rbrace (b : BlockStmt) : Pos :=
  match b with mkBlockStmt _ _ rb => rb end.

Definition BlockStmt_Pos (b : BlockStmt) : Pos := BlockStmt_Lbrace b.
Definition BlockStmt_End (b : BlockStmt) : Pos := BlockStmt_Rbrace b + 1.

(** The parser never leaves [Lhs] or [Rhs] of an assignment empty. *)
Definition Stmt_Pos (s : Stmt) : Pos :=
  match s with
  | AssignStmt lhs _ _ _ => Expr_Pos (hd (OtherExpr token.NoPos token.NoPos) lhs)
  | IfStmt p _ _ _ _ => p
  | BlockStmtS b => BlockStmt_Pos b
  | OtherStmt p _ => p
  end.

Fixpoint Stmt_End (s : Stmt) : Pos :=
  match s with
  | AssignStmt _ _ _ rhs => Expr_End (last rhs (OtherExpr token.NoPos token.NoPos))
  | IfStmt _ _ _ body (Some els) => Stmt_End els
  | IfStmt _ _ _ body None => BlockStmt_End body
  | BlockStmtS b => BlockStmt_End b
  | OtherStmt _ e => e
  end.

(** What a rule reads of the file node: its end and its comments.
    [File.End()] is the end of the last declaration, or of the package
    name when there is none. *)
Record File : Type := mkFile {
  NameEnd : Pos;
  DeclEnds : list Pos;
  Comments : list CommentGroup
}.

Definition File_End (f : File) : Pos := last (DeclEnds f) (NameEnd f).

(** Any node a cursor may stand on. *)
Inductive Node : Type :=
| ExprNode (e : Expr)
| StmtNode (s : Stmt)
| OtherNode (pos end_ : Pos).

Definition Node_Pos (n : Node) : Pos :=
  match n with
  | ExprNode e => Expr_Pos e
  | StmtNode s => Stmt_Pos s
  | OtherNode p _ => p
  end.

Definition Node_End (n : Node) : Pos :=
  match n with
  | ExprNode e => Expr_End e
  | StmtNode s => Stmt_End s
  | OtherNode _ e => e
  end.

(** Declarations: the specs of a general declaration ([import], [const],
    [type], [var]) and the declarations of a file.  Identifiers of a value
    spec are kept with their names; a spec or declaration of another kind
    is given by its extent. *)
Record IdentNode : Type := mkIdent {
  NamePos : Pos;
  Name : string
}.

Definition IdentExpr (i : IdentNode) : Expr := Ident (NamePos i) (Name i).

Inductive Spec : Type :=
| ImportSpec (Doc : option CommentGroup) (LocalName : option IdentNode)
             (PathPos : Pos) (PathValue : string)
             (Comment : option CommentGroup) (EndPos : Pos)
| ValueSpec (Doc : option CommentGroup) (SpecNames : list IdentNode) (Type_ : option Expr)
            (Values : list Expr) (Comment : option CommentGroup)
| OtherSpec (pos end_ : Pos).

Definition Spec_Pos (s : Spec) : Pos :=
  match s with
  | ImportSpec _ (Some n) _ _ _ _ => NamePos n
  | ImportSpec _ None p _ _ _ => p
  | ValueSpec _ names _ _ _ => NamePos (hd (mkIdent token.NoPos EmptyString) names)
  | OtherSpec p _ => p
  end.

Definition Spec_End (s : Spec) : Pos :=
  match s with
  | ImportSpec _ _ p v _ e =>
      if e =? 0 then p + Z.of_nat (String.length v) else e
  | ValueSpec _ names ty values _ =>
      match values, ty with
      | v :: vs, _ => Expr_End (last vs v)
      | [], Some t => Expr_End t
      | [], None =>
          let n := last names (mkIdent token.NoPos EmptyString) in
          NamePos n + Z.of_nat (String.length (Name n))
      end
  | OtherSpec _ e => e
  end.

Record GenDecl : Type := mkGenDecl {
  Doc : option CommentGroup;
  TokPos : Pos;
  Tok : Token;
  Lparen : Pos;
  Specs : list Spec;
  Rparen : Pos
}.

Definition GenDecl_Pos (d : GenDecl) : Pos := TokPos d.

(** [d.End()] reads [d.Specs[0]] when there are no parentheses; the
    parser gives such a declaration one spec. *)
Definition GenDecl_End (d : GenDecl) : Pos :=
  if token.IsValid (Rparen d) then Rparen d + 1
  else Spec_End (hd (OtherSpec token.NoPos token.NoPos) (Specs d)).

Inductive Decl : Type :=
| GenDeclD (d : GenDecl)
| OtherDecl (pos end_ : Pos).

Definition Decl_Pos (d : Decl) : Pos :=
  match d with
  | GenDeclD g => GenDecl_Pos g
  | OtherDecl p _ => p
  end.

Definition Decl_End (d : Decl) : Pos :=
  match d with
  | GenDeclD g => GenDecl_End g
  | OtherDecl _ e => e
  end.

(** [Pos] and [End] as they run.  [go/ast] reads [s.Names[0]],
    [s.Names[len(s.Names)-1]] and [d.Specs[0]] without a check: on an
    empty slice the call panics, where the functions above give [NoPos]. *)
Definition Spec_Pos_run (s : Spec) : result Pos :=
  match s with
  | ValueSpec _ [] _ _ _ => Panic "index out of range"
  | _ => Ok (Spec_Pos s)
  end.

Definition Spec_End_run (s : Spec) : result Pos :=
  match s with
  | ValueSpec _ [] None [] _ => Panic "index out of range"
  | _ => Ok (Spec_End s)
  end.

Definition GenDecl_End_run (d : GenDecl) : result Pos :=
  if token.IsValid (Rparen d) then Ok (Rparen d + 1)
  else match Specs d with
       | [] => Panic "index out of range"
       | s :: _ => Spec_End_run s
       end.

Definition Decl_End_run (d : Decl) : result Pos :=
  match d with
  | GenDeclD g => GenDecl_End_run g
  | OtherDecl _ e => Ok e
  end.

End ast.

(** ** The formatter state *)

Definition len {A : Type} (l : list A) : Z := Z.of_nat (List.length l).

(** [l[i]] for an index inside the slice. *)
Definition index {A : Type} (l : list A) (i : Z) (d : A) : A := nth (Z.to_nat i) l d.

Record Options : Type := mkOptions {
  LangVersion : string;
  ExtraRules : bool
}.

(** [fumpter] embeds [Options] and [*token.File]; [fset] only reaches the
    printer and is left out. *)
Record fumpter : Type := mkFumpter {
  fOptions : Options;
  tokFile : token.File;
  astFile : ast.File;
  blockLevel : Z;
  minSplitFactor : float
}.

Definition setFile (f : fumpter) (tf : token.File) : fumpter :=
  mkFumpter (fOptions f) tf (astFile f) (blockLevel f) (minSplitFactor f).

Definition setComments (f : fumpter) (cs : list ast.CommentGroup) : fumpter :=
  mkFumpter (fOptions f) (tokFile f)
    (ast.mkFile (ast.NameEnd (astFile f)) (ast.DeclEnds (astFile f)) cs)
    (blockLevel f) (minSplitFactor f).

Definition setBlockLevel (f : fumpter) (n : Z) : fumpter :=
  mkFumpter (fOptions f) (tokFile f) (astFile f) n (minSplitFactor f).

Definition setMinSplitFactor (f : fumpter) (x : float) : fumpter :=
  mkFumpter (fOptions f) (tokFile f) (astFile f) (blockLevel f) x.

Definition setOptions (f : fumpter) (o : Options) : fumpter :=
  mkFumpter o (tokFile f) (astFile f) (blockLevel f) (minSplitFactor f).

(** [f.Line(p)], promoted from the embedded [*token.File]. *)
Definition Line (f : fumpter) (p : token.Pos) : Z := token.Line (tokFile f) p.

Definition shortLineLimit : Z := 60.
Definition longLineLimit : Z := 100.

(** ** The comment index *)

Definition dummyGroup : ast.CommentGroup := ast.mkCommentGroup [].

Definition commentsBetween (f : fumpter) (p1 p2 : token.Pos) : list ast.CommentGroup :=
  let comments := ast.Comments (astFile f) in
  let i1 := sort.Search (len comments)
              (fun i => p1 <=? ast.CommentGroup_Pos (index comments i dummyGroup)) in
  let comments := skipn (Z.to_nat i1) comments in
  let i2 := sort.Search (len comments)
              (fun i => p2 <=? ast.CommentGroup_Pos (index comments i dummyGroup)) in
  firstn (Z.to_nat i2) comments.

Definition inlineComment (f : fumpter) (pos : token.Pos) : option ast.Comment :=
  let comments := ast.Comments (astFile f) in
  let i := sort.Search (len comments)
             (fun i => pos <=? ast.CommentGroup_Pos (index comments i dummyGroup)) in
  if len comments <=? i then None
  else
    let line := Line f pos in
    find (fun comment => Line f (ast.Comment_Pos comment) =? line)
         (ast.List (index comments i dummyGroup)).

(** ** Line-table mutation *)

(** The loop of [addNewline] over the current table: [None] is the early
    return taken when the offset already starts a line; otherwise the
    pending offset (-1 once placed) and the table built so far. *)
Fixpoint addNewline_loop (field : list Z) (offset : Z) (lines : list Z)
  : option (Z * list Z) :=
  match field with
  | [] => Some (offset, lines)
  | cur :: field' =>
      if offset =? cur then None
      else if (0 <=? offset) && (offset <? cur)
           then addNewline_loop field' (-1) ((lines ++ [offset]) ++ [cur])
           else addNewline_loop field' offset (lines ++ [cur])
  end.

Definition addNewline (f : fumpter) (at_ : token.Pos) : result fumpter :=
  offset <- token.Offset (tokFile f) at_ ;;
  match addNewline_loop (token.lines (tokFile f)) offset [] with
  | None => Ok f
  | Some (offset, lines) =>
      let lines := if 0 <=? offset then lines ++ [offset] else lines in
      match token.SetLines (tokFile f) lines with
      | Some tf => Ok (setFile f tf)
      | None => Panic "could not set lines"
      end
  end.

(** [for fromLine < toLine { f.MergeLine(fromLine); toLine-- }]: the loop
    runs [toLine - fromLine] times. *)
Fixpoint removeLines_loop (n : nat) (tf : token.File) (fromLine : Z) : result token.File :=
  match n with
  | O => Ok tf
  | S n' =>
      tf' <- token.MergeLine tf fromLine ;;
      removeLines_loop n' tf' fromLine
  end.

Definition removeLines (f : fumpter) (fromLine toLine : Z) : result fumpter :=
  tf <- removeLines_loop (Z.to_nat (toLine - fromLine)) (tokFile f) fromLine ;;
  Ok (setFile f tf).

Definition removeLinesBetween (f : fumpter) (from to : token.Pos) : result fumpter :=
  removeLines f (Line f from + 1) (Line f to).

Definition tabbedColumn (f : fumpter) (p : token.Pos) : Z :=
  token.Column (tokFile f) p + blockLevel f * 7.

Definition lineEnd (f : fumpter) (line : Z) : result token.Pos :=
  if line <? 1 then Panic "illegal line number"
  else
    let total := token.LineCount (tokFile f) in
    if total <? line then Panic "illegal line number"
    else if line =? total then Ok (ast.File_End (astFile f))
    else
      p <- token.LineStart (tokFile f) (line + 1) ;;
      Ok (p - 1).

(** ** The length estimate

    [format.Node] belongs to the printer; its byte count for a node is a
    parameter ([None] when printing fails). *)

Section LengthEstimate.

Variable formatNodeLength : token.File -> ast.Node -> option Z.

Definition printLength (f : fumpter) (node : ast.Node) : result Z :=
  match formatNodeLength (tokFile f) node with
  | None => Panic "unexpected print error"
  | Some count =>
      let count :=
        match inlineComment f (ast.Node_End node) with
        | Some c => count + 1 + Z.of_nat (String.length (ast.Text c))
        | None => count
        end in
      Ok (count + blockLevel f * 8)
  end.

End LengthEstimate.

(** ** Strings, runes and the two regular expressions *)

Definition byteOf (c : ascii) : Z := Z.of_N (N_of_ascii c).

Definition inRange (lo hi : Z) (c : ascii) : bool :=
  (lo <=? byteOf c) && (byteOf c <=? hi).

Definition isLower (c : ascii) : bool := inRange 97 122 c.
Definition isUpper (c : ascii) : bool := inRange 65 90 c.
Definition isDigit (c : ascii) : bool := inRange 48 57 c.
Definition isByte (n : Z) (c : ascii) : bool := byteOf c =? n.

(** [\w] of Go's [regexp]: an ASCII letter, digit or underscore. *)
Definition isWordByte (c : ascii) : bool :=
  isDigit c || isUpper c || isLower c || isByte 95 c.

Fixpoint HasPrefix (s prefix : string) : bool :=
  match prefix, s with
  | EmptyString, _ => true
  | String p prefix', String c s' => Ascii.eqb c p && HasPrefix s' prefix'
  | String _ _, EmptyString => false
  end.

Fixpoint dropBytes (n : nat) (s : string) : string :=
  match n, s with
  | O, _ => s
  | S n', String _ s' => dropBytes n' s'
  | S _, EmptyString => EmptyString
  end.

Definition TrimPrefix (s prefix : string) : string :=
  if HasPrefix s prefix then dropBytes (String.length prefix) s else s.

(** [keyword\b] at the start of [s]: the keyword, then the end of the
    string or a byte outside [\w] (every keyword ends in a letter). *)
Definition matchWordThenBoundary (keyword s : string) : bool :=
  HasPrefix s keyword &&
  match dropBytes (String.length keyword) s with
  | EmptyString => true
  | String c _ => negb (isWordByte c)
  end.

(** [[a-z-]+:[a-z]+] at the start of [s]; [seen] tells whether a byte of
    the first class was already consumed. *)
Fixpoint matchWordsColon (seen : bool) (s : string) : bool :=
  match s with
  | EmptyString => false
  | String c s' =>
      if isLower c || isByte 45 c then matchWordsColon true s'
      else seen && isByte 58 c &&
           match s' with
           | String d _ => isLower d
           | EmptyString => false
           end
  end.

(** [rxCommentDirective.MatchString]:
    [^([a-z-]+:[a-z]+|line\b|export\b|extern\b|sys(nb)?\b|nolint\b)]. *)
Definition rxCommentDirective (body : string) : bool :=
  matchWordsColon false body
  || matchWordThenBoundary "line" body
  || matchWordThenBoundary "export" body
  || matchWordThenBoundary "extern" body
  || matchWordThenBoundary "sys" body
  || matchWordThenBoundary "sysnb" body
  || matchWordThenBoundary "nolint" body.

Fixpoint allOctalOrUnderscore (s : string) : bool :=
  match s with
  | EmptyString => true
  | String c s' => (inRange 48 55 c || isByte 95 c) && allOctalOrUnderscore s'
  end.

(** [rxOctalInteger.MatchString]: [\A0[0-7_]+\z]. *)
Definition rxOctalInteger (s : string) : bool :=
  match s with
  | String c (String d rest) =>
      isByte 48 c && allOctalOrUnderscore (String d rest)
  | _ => false
  end.

(** *** Runes

    [unicode/utf8] and [unicode] are library code.  The first rune of a
    string is exact for the empty string and for an ASCII first byte; what
    the decoder yields for a multi-byte sequence is a parameter.  The
    classes are exact on Latin-1, [IsSpace] everywhere; the letter and
    number tables beyond Latin-1 are parameters. *)

Definition RuneError : Z := 65533.
Definition MaxLatin1 : Z := 255.

Definition memZ (r : Z) (l : list Z) : bool := existsb (Z.eqb r) l.
Definition between (lo hi r : Z) : bool := (lo <=? r) && (r <=? hi).

Definition IsSpace (r : Z) : bool :=
  if r <=? MaxLatin1 then memZ r [9; 10; 11; 12; 13; 32; 133; 160]
  else memZ r [5760; 8232; 8233; 8239; 8287; 12288] || between 8192 8202 r.

Section Runes.

Variable decodeMultibyte : string -> Z.
Variable letterTable : Z -> bool.
Variable numberTable : Z -> bool.

Definition DecodeRuneInString (s : string) : Z :=
  match s with
  | EmptyString => RuneError
  | String c _ => if byteOf c <? 128 then byteOf c else decodeMultibyte s
  end.

Definition IsLetter (r : Z) : bool :=
  if r <=? MaxLatin1
  then between 65 90 r || between 97 122 r || memZ r [170; 181; 186]
       || between 192 214 r || between 216 246 r || between 248 255 r
  else letterTable r.

Definition IsNumber (r : Z) : bool :=
  if r <=? MaxLatin1
  then between 48 57 r || memZ r [178; 179; 185; 188; 189; 190]
  else numberTable r.

(** *** Comment spacing: the [groupLoop] of [applyPre] on the file node *)

(** The first loop over a group: does this comment make the formatter
    [continue groupLoop]? *)
Definition skipsGroup (comment : ast.Comment) : bool :=
  let body := TrimPrefix (ast.Text comment) "//" in
  if String.eqb body (ast.Text comment) then true
  else if rxCommentDirective body then true
  else
    let r := DecodeRuneInString body in
    negb (IsLetter r) && negb (IsNumber r) && negb (IsSpace r).

(** The second loop over a group. *)
Definition addSpace (comment : ast.Comment) : ast.Comment :=
  let body := TrimPrefix (ast.Text comment) "//" in
  let r := DecodeRuneInString body in
  if negb (IsSpace r)
  then ast.mkComment (ast.Slash comment) ("// " ++ TrimPrefix (ast.Text comment) "//")
  else comment.

Definition groupLoop_body (group : ast.CommentGroup) : ast.CommentGroup :=
  if existsb skipsGroup (ast.List group) then group
  else ast.mkCommentGroup (map addSpace (ast.List group)).

Definition groupLoop (f : fumpter) : fumpter :=
  setComments f (map groupLoop_body (ast.Comments (astFile f))).

End Runes.

(** ** Statement lists: the blank line before an error guard *)

Definition identEqual (expr : ast.Expr) (name : string) : bool :=
  match expr with
  | ast.Ident _ n => String.eqb n name
  | _ => false
  end.

(** One iteration of the loop of [stmts]: [prev] is [list[i-1]] ([None]
    when [i < 1]) and [stmt] is [list[i]]. *)
Definition stmts_step (f : fumpter) (prev : option ast.Stmt) (stmt : ast.Stmt)
  : result fumpter :=
  match stmt, prev with
  | ast.IfStmt ifPos init cond _ els, Some (ast.AssignStmt lhs tokPos tok rhs) =>
      match lhs with
      | [] => if ast.Token_eqb tok ast.DEFINE
              then Panic "index out of range" else Ok f
      | l0 :: ls =>
          if negb (ast.Token_eqb tok ast.DEFINE) || negb (identEqual (last ls l0) "err")
          then Ok f
          else
            match cond, init, els with
            | ast.BinaryExpr x _ op y, None, None =>
                if negb (ast.Token_eqb op ast.NEQ) || negb (identEqual x "err")
                   || negb (identEqual y "nil")
                then Ok f
                else removeLinesBetween f
                       (ast.Stmt_End (ast.AssignStmt lhs tokPos tok rhs))
                       (ast.Stmt_Pos stmt)
            | _, _, _ => Ok f
            end
      end
  | _, _ => Ok f
  end.

Fixpoint stmts_loop (f : fumpter) (prev : option ast.Stmt) (list : list ast.Stmt)
  : result fumpter :=
  match list with
  | [] => Ok f
  | stmt :: rest =>
      f' <- stmts_step f prev stmt ;;
      stmts_loop f' (Some stmt) rest
  end.

Definition stmts (f : fumpter) (list : list ast.Stmt) : result fumpter :=
  stmts_loop f None list.

(** ** [applyPre]: blocks *)







(** ** [applyPre]: case clauses, the one rule that consults
    [shortLineLimit] through [printLength]. *)

Section CaseClause.

Variable formatNodeLength : token.File -> ast.Node -> option Z.

Definition applyPre_CaseClause (f : fumpter) (node : ast.Node)
  (Case Colon : token.Pos) (Body : list ast.Stmt) : result fumpter :=
  f <- stmts f Body ;;
  let openLine := Line f Case in
  let closeLine := Line f Colon in
  if openLine =? closeLine then Ok f
  else if 0 <? len (commentsBetween f Case Colon) then Ok f
  else
    n <- printLength formatNodeLength f node ;;
    if shortLineLimit <? n then Ok f
    else removeLines f openLine closeLine.

End CaseClause.

(** ** [applyPre]: field lists *)

(** [node.NumFields()]: the number of names, an unnamed field counting
    as one. *)
Definition NumFields (l : ast.FieldList) : Z :=
  fold_left (fun n g => n + (if len (ast.Names g) =? 0 then 1 else len (ast.Names g)))
            (ast.Fields l) 0.

Definition setNames (g : ast.Field) (names : list ast.Expr) : ast.Field :=
  ast.mkField names (ast.FieldType g).

Definition setFields (l : ast.FieldList) (fields : list ast.Field) : ast.FieldList :=
  ast.mkFieldList (ast.Opening l) fields (ast.Closing l).

(** What the field-list case reads of [c.Parent()]. *)
Inductive FieldListParent : Type :=
| FieldsOfFuncDecl
| FieldsOfFuncType
| FieldsOfInterfaceType
| FieldsOfStructType
| FieldsOfOther.

Section MergeFields.

(** [cmp.Equal(f1.Type, f2.Type, opt)] with positions compared as equal:
    the comparison library decides it. *)
Variable typeEqual : option ast.Expr -> option ast.Expr -> bool.

Definition shouldMergeAdjacentFields (f : fumpter) (f1 f2 : ast.Field) : bool :=
  if (len (ast.Names f1) =? 0) || (len (ast.Names f2) =? 0) then false
  else if negb (Line f (ast.Field_Pos f1) =? Line f (ast.Field_Pos f2)) then false
  else typeEqual (ast.FieldType f1) (ast.FieldType f2).

(** The loop of [mergeAdjacentFields] over [fields[j]], [j >= 1]: [done]
    is [fields[:i]], [cur] is [fields[i]] with the names merged into it so
    far, [rest] is [fields[j:]]. *)
Fixpoint mergeLoop (f : fumpter) (done : list ast.Field) (cur : ast.Field)
  (rest : list ast.Field) : list ast.Field :=
  match rest with
  | [] => done ++ [cur]
  | fj :: rest' =>
      if shouldMergeAdjacentFields f cur fj
      then mergeLoop f done (setNames cur (ast.Names cur ++ ast.Names fj)) rest'
      else mergeLoop f (done ++ [cur]) fj rest'
  end.

Definition mergeAdjacentFields (f : fumpter) (fields : list ast.Field) : list ast.Field :=
  if len fields <? 2 then fields
  else match fields with
       | f0 :: rest => mergeLoop f [] f0 rest
       | [] => []
       end.

Definition applyPre_FieldList (f : fumpter) (node : ast.FieldList) (parent : FieldListParent)
  : result (fumpter * ast.FieldList) :=
  f <- (if (NumFields node =? 0)
           && match inlineComment f (ast.FieldList_Pos node) with
              | None => true
              | Some _ => false
              end
        then removeLines f (Line f (ast.FieldList_Pos node)) (Line f (ast.FieldList_End node))
        else Ok f) ;;
  if negb (ExtraRules (fOptions f)) then Ok (f, node)
  else
    match parent with
    | FieldsOfFuncDecl | FieldsOfFuncType | FieldsOfInterfaceType =>
        Ok (f, setFields node (mergeAdjacentFields f (ast.Fields node)))
    | _ => Ok (f, node)
    end.

End MergeFields.

(** ** [applyPre]: declarations *)

(** The case [*ast.DeclStmt]: [Some] is the statement given to
    [c.Replace].  The type assertion on the spec panics on a spec of
    another kind, which a [var] declaration of the parser never has. *)
Definition applyPre_DeclStmt (decl : ast.Decl) : result (option ast.Stmt) :=
  match decl with
  | ast.GenDeclD d =>
      if negb (ast.Token_eqb (ast.Tok d) ast.VAR) || negb (len (ast.Specs d) =? 1)
      then Ok None
      else
        match ast.Specs d with
        | ast.ValueSpec _ names ty values _ :: _ =>
            match ty with
            | Some _ => Ok None
            | None =>
                let tok :=
                  fold_left (fun tok name =>
                               if negb (String.eqb (ast.Name name) "_") then ast.DEFINE else tok)
                            names ast.ASSIGN in
                Ok (Some (ast.AssignStmt (map ast.IdentExpr names) token.NoPos tok values))
            end
        | _ :: _ => Panic "interface conversion"
        | [] => Ok None
        end
  | ast.OtherDecl _ _ => Ok None
  end.

Definition setTokPos (d : ast.GenDecl) (p : token.Pos) : ast.GenDecl :=
  ast.mkGenDecl (ast.Doc d) p (ast.Tok d) (ast.Lparen d) (ast.Specs d) (ast.Rparen d).

Definition setParens (d : ast.GenDecl) (lp rp : token.Pos) : ast.GenDecl :=
  ast.mkGenDecl (ast.Doc d) (ast.TokPos d) (ast.Tok d) lp (ast.Specs d) rp.

Section GenDeclRule.

(** [f.joinStdImports(node)], the treatment of a parenthesised import
    declaration; the rule for a lone [var] below does not reach it. *)
Variable joinStdImports : fumpter -> ast.GenDecl -> result (fumpter * ast.GenDecl).

Definition applyPre_GenDecl (f : fumpter) (node : ast.GenDecl)
  : result (fumpter * ast.GenDecl) :=
  fn <- (if ast.Token_eqb (ast.Tok node) ast.IMPORT && token.IsValid (ast.Lparen node)
         then joinStdImports f node
         else Ok (f, node)) ;;
  let '(f, node) := fn in
  if ast.Token_eqb (ast.Tok node) ast.VAR && (len (ast.Specs node) =? 1)
     && token.IsValid (ast.Lparen node)
     && match ast.Doc node with None => true | Some _ => false end
  then
    match ast.Specs node with
    | spec :: _ =>
        specPos <- ast.Spec_Pos_run spec ;;
        specEnd <- ast.Spec_End_run spec ;;
        fn <- (if 0 <? len (commentsBetween f (ast.TokPos node) specPos)
               then Ok (f, setTokPos node specPos)
               else f' <- removeLines f (Line f (ast.TokPos node)) (Line f specPos) ;;
                    Ok (f', node)) ;;
        let '(f, node) := fn in
        f <- removeLines f (Line f specEnd) (Line f (ast.Rparen node)) ;;
        Ok (f, setParens node token.NoPos token.NoPos)
    | [] => Ok (f, node)
    end
  else Ok (f, node).

End GenDeclRule.

(** ** [applyPre]: the file node *)

(** The path literal of [import "C"], quotes included. *)
Definition cgoPath : string :=
  String "034"%char (String "C"%char (String "034"%char EmptyString)).

(** [isCgoImport]: the type assertion on the spec panics on a spec of
    another kind, which an import declaration of the parser never has. *)
Definition isCgoImport (decl : ast.GenDecl) : result bool :=
  if negb (ast.Token_eqb (ast.Tok decl) ast.IMPORT) || negb (len (ast.Specs decl) =? 1)
  then Ok false
  else
    match ast.Specs decl with
    | ast.ImportSpec _ _ _ v _ _ :: _ => Ok (String.eqb v cgoPath)
    | _ :: _ => Panic "interface conversion"
    | [] => Ok false
    end.

Definition setSpecsRparen (d : ast.GenDecl) (specs : list ast.Spec) (rp : token.Pos)
  : ast.GenDecl :=
  ast.mkGenDecl (ast.Doc d) (ast.TokPos d) (ast.Tok d) (ast.Lparen d) specs rp.

(** The outer loop's test on [node.Decls[i]]: [Some start] when the
    declaration opens a group that following lone declarations may
    join. *)
Definition startsGroup (d : ast.Decl) : result (option ast.GenDecl) :=
  match d with
  | ast.GenDeclD start =>
      cgo <- isCgoImport start ;;
      if cgo || match ast.Doc start with Some _ => true | None => false end
      then Ok None else Ok (Some start)
  | ast.OtherDecl _ _ => Ok None
  end.

(** The inner loop's test on [node.Decls[i]]: [Some cont] when the
    declaration joins the group of [start], [None] on [break]. *)
Definition continuesGroup (f : fumpter) (start : ast.GenDecl) (lastPos : token.Pos)
  (d : ast.Decl) : result (option ast.GenDecl) :=
  match d with
  | ast.GenDeclD cont =>
      if negb (ast.Token_eqb (ast.Tok cont) (ast.Tok start))
         || negb (ast.Lparen cont =? token.NoPos)
         || (Line f lastPos <? Line f (ast.GenDecl_Pos cont) - 1)
      then Ok None
      else
        cgo <- isCgoImport cont ;;
        if cgo then Ok None else Ok (Some cont)
  | ast.OtherDecl _ _ => Ok None
  end.

(** The body of the inner loop: [start] takes the specs of [cont], and
    its closing parenthesis moves behind [cont] or its inline comment. *)
Definition absorb (f : fumpter) (start cont : ast.GenDecl) : result ast.GenDecl :=
  contEnd <- ast.GenDecl_End_run cont ;;
  Ok (setSpecsRparen start (ast.Specs start ++ ast.Specs cont)
        match inlineComment f contEnd with
        | Some c => ast.Comment_End c
        | None => contEnd
        end).

(** The two nested loops over [node.Decls], run as one pass: [cur] is the
    group being filled in the inner loop, with [lastPos], or [None]
    between groups.  A group is emitted, with everything it absorbed,
    where the inner loop breaks; the declaration at which it breaks is
    then looked at by the outer loop. *)
Fixpoint joinDecls (f : fumpter) (cur : option (ast.GenDecl * token.Pos))
  (decls : list ast.Decl) : result (list ast.Decl) :=
  match decls with
  | [] =>
      Ok match cur with
         | Some (start, _) => [ast.GenDeclD start]
         | None => []
         end
  | d :: rest =>
      absorbed <- match cur with
                  | Some (start, lastPos) => continuesGroup f start lastPos d
                  | None => Ok None
                  end ;;
      match cur, absorbed with
      | Some (start, _), Some cont =>
          start <- absorb f start cont ;;
          joinDecls f (Some (start, ast.GenDecl_Pos cont)) rest
      | _, _ =>
          s <- startsGroup d ;;
          tail <- match s with
                  | Some start => joinDecls f (Some (start, ast.GenDecl_Pos start)) rest
                  | None => r <- joinDecls f None rest ;; Ok (d :: r)
                  end ;;
          Ok (match cur with
              | Some (start, _) => [ast.GenDeclD start]
              | None => []
              end ++ tail)
      end
  end.

(** The second loop over [node.Decls]: an empty line between consecutive
    multi-line declarations. *)
Fixpoint separateDecls (f : fumpter) (lastMulti : bool) (lastEnd : token.Pos)
  (decls : list ast.Decl) : result fumpter :=
  match decls with
  | [] => Ok f
  | decl :: rest =>
      let pos := ast.Decl_Pos decl in
      let comments := commentsBetween f lastEnd pos in
      let pos := match comments with
                 | c :: _ => ast.CommentGroup_Pos c
                 | [] => pos
                 end in
      declEnd <- ast.Decl_End_run decl ;;
      let multi := Line f pos <? Line f declEnd in
      f <- (if multi && lastMulti && (Line f lastEnd + 1 =? Line f pos)
            then addNewline f lastEnd
            else Ok f) ;;
      separateDecls f multi declEnd rest
  end.

(** ** [golang.org/x/mod/semver]

    The version library is an imported module; [IsValid] and [Compare] are
    modelled after its parser: [vMAJOR[.MINOR[.PATCH[-PRERELEASE][+BUILD]]]]. *)

Module semver.

Record parsed : Type := mkParsed {
  major : string;
  minor : string;
  patch : string;
  prerelease : string
}.

Fixpoint spanDigits (s : string) : string * string :=
  match s with
  | String c s' =>
      if isDigit c then let '(t, rest) := spanDigits s' in (String c t, rest)
      else (EmptyString, s)
  | EmptyString => (EmptyString, EmptyString)
  end.

Definition parseInt (v : string) : option (string * string) :=
  match v with
  | EmptyString => None
  | String c _ =>
      if negb (isDigit c) then None
      else
        let '(t, rest) := spanDigits v in
        if isByte 48 c && negb (Nat.eqb (String.length t) 1) then None
        else Some (t, rest)
  end.

Definition isIdentChar (c : ascii) : bool :=
  isUpper c || isLower c || isDigit c || isByte 45 c.

Fixpoint allDigits (s : string) : bool :=
  match s with
  | EmptyString => true
  | String c s' => isDigit c && allDigits s'
  end.

Definition isBadNum (v : string) : bool :=
  allDigits v && Nat.ltb 1 (String.length v) && HasPrefix v "0".

Definition isNum (v : string) : bool := allDigits v.

(** The scan of [parsePrerelease] ([numeric = true]) and [parseBuild]
    after the leading [-] or [+]: [cur] is the identifier being read and
    [acc] the text consumed so far. *)
Fixpoint identsLoop (numeric : bool) (cur acc s : string) : option (string * string) :=
  let finish (rest : string) :=
    if String.eqb cur "" || (numeric && isBadNum cur) then None
    else Some (acc, rest) in
  match s with
  | EmptyString => finish EmptyString
  | String c s' =>
      if numeric && isByte 43 c then finish s
      else if negb (isIdentChar c) && negb (isByte 46 c) then None
      else if isByte 46 c then
        if String.eqb cur "" || (numeric && isBadNum cur) then None
        else identsLoop numeric "" (acc ++ String c "") s'
      else identsLoop numeric (cur ++ String c "") (acc ++ String c "") s'
  end.

Definition parsePrerelease (v : string) : option (string * string) :=
  match v with
  | String c v' => if isByte 45 c then identsLoop true "" (String c "") v' else None
  | EmptyString => None
  end.

Definition parseBuild (v : string) : option (string * string) :=
  match v with
  | String c v' => if isByte 43 c then identsLoop false "" (String c "") v' else None
  | EmptyString => None
  end.

Definition startsWith (n : Z) (s : string) : bool :=
  match s with
  | String c _ => isByte n c
  | EmptyString => false
  end.

(** After the patch number: an optional prerelease, an optional build,
    and nothing else. *)
Definition parseTail (ma mi pa v : string) : option parsed :=
  match (if startsWith 45 v then parsePrerelease v else Some (EmptyString, v)) with
  | None => None
  | Some (pre, v) =>
      match (if startsWith 43 v then parseBuild v else Some (EmptyString, v)) with
      | None => None
      | Some (_, v) =>
          if String.eqb v "" then Some (mkParsed ma mi pa pre) else None
      end
  end.

Definition parse (v : string) : option parsed :=
  match v with
  | String c v1 =>
      if negb (isByte 118 c) then None
      else
        match parseInt v1 with
        | None => None
        | Some (ma, EmptyString) => Some (mkParsed ma "0" "0" "")
        | Some (ma, String d v2) =>
            if negb (isByte 46 d) then None
            else
              match parseInt v2 with
              | None => None
              | Some (mi, EmptyString) => Some (mkParsed ma mi "0" "")
              | Some (mi, String e v3) =>
                  if negb (isByte 46 e) then None
                  else
                    match parseInt v3 with
                    | None => None
                    | Some (pa, v4) => parseTail ma mi pa v4
                    end
              end
        end
  | EmptyString => None
  end.

Definition IsValid (v : string) : bool :=
  match parse v with
  | Some _ => true
  | None => false
  end.

Definition ltString (x y : string) : bool :=
  match String.compare x y with
  | Lt => true
  | _ => false
  end.

Definition compareInt (x y : string) : Z :=
  if String.eqb x y then 0
  else if Nat.ltb (String.length x) (String.length y) then -1
  else if Nat.ltb (String.length y) (String.length x) then 1
  else if ltString x y then -1 else 1.

Fixpoint nextIdent (x : string) : string * string :=
  match x with
  | EmptyString => (EmptyString, EmptyString)
  | String c x' =>
      if isByte 46 c then (EmptyString, x)
      else let '(d, rest) := nextIdent x' in (String c d, rest)
  end.

Fixpoint comparePrerelease_loop (fuel : nat) (x y : string) : Z :=
  match fuel with
  | O => 0
  | S fuel' =>
      match x, y with
      | String _ x1, String _ y1 =>
          let '(dx, x2) := nextIdent x1 in
          let '(dy, y2) := nextIdent y1 in
          if negb (String.eqb dx dy) then
            let ix := isNum dx in
            let iy := isNum dy in
            if negb (Bool.eqb ix iy) then (if ix then -1 else 1)
            else if ix && Nat.ltb (String.length dx) (String.length dy) then -1
            else if ix && Nat.ltb (String.length dy) (String.length dx) then 1
            else if ltString dx dy then -1 else 1
          else comparePrerelease_loop fuel' x2 y2
      | EmptyString, _ => -1
      | _, EmptyString => 1
      end
  end.

Definition comparePrerelease (x y : string) : Z :=
  if String.eqb x y then 0
  else if String.eqb x "" then 1
  else if String.eqb y "" then -1
  else comparePrerelease_loop (S (String.length x)) x y.

Definition Compare (v w : string) : Z :=
  match parse v, parse w with
  | None, None => 0
  | None, Some _ => -1
  | Some _, None => 1
  | Some pv, Some pw =>
      let c := compareInt (major pv) (major pw) in
      if negb (c =? 0) then c
      else
        let c := compareInt (minor pv) (minor pw) in
        if negb (c =? 0) then c
        else
          let c := compareInt (patch pv) (patch pw) in
          if negb (c =? 0) then c
          else comparePrerelease (prerelease pv) (prerelease pw)
  end.

End semver.

(** ** [applyPre]: integer literals *)

Definition applyPre_BasicLit (f : fumpter) (node : ast.Expr) : ast.Expr :=
  match node with
  | ast.BasicLit pos kind value =>
      if 0 <=? semver.Compare (LangVersion (fOptions f)) "v1.13" then
        if ast.Token_eqb kind ast.INT && rxOctalInteger value
        then ast.BasicLit pos kind ("0o" ++ dropBytes 1 value)
        else node
      else node
  | _ => node
  end.

(** ** [applyPost]: composite literals *)

Definition isCompositeLit (e : ast.Expr) : bool :=
  match e with
  | ast.CompositeLit _ _ _ _ => true
  | _ => false
  end.

(** State of the first loop over [node.Elts]. *)
Record eltsState : Type := mkEltsState {
  esF : fumpter;
  esLastLine : Z;
  newlineAroundElems : bool;
  newlineBetweenElems : bool
}.

(** The first loop: [first] is [i == 0]. *)
Fixpoint eltsLoop (openLine : Z) (first : bool) (st : eltsState) (elts : list ast.Expr)
  : result eltsState :=
  match elts with
  | [] => Ok st
  | elem :: rest =>
      let f := esF st in
      let elPos := Line f (ast.Expr_Pos elem) in
      st' <- (if esLastLine st <? elPos then
                if first then
                  f' <- removeLines f (openLine + 1) elPos ;;
                  Ok (mkEltsState f' (esLastLine st) true (newlineBetweenElems st))
                else Ok (mkEltsState f (esLastLine st) (newlineAroundElems st) true)
              else Ok st) ;;
      eltsLoop openLine false
        (mkEltsState (esF st') (Line (esF st') (ast.Expr_End elem))
           (newlineAroundElems st') (newlineBetweenElems st'))
        rest
  end.

(** The second loop, over adjacent pairs [elem1], [elem2]. *)
Fixpoint pairsLoop (f : fumpter) (elts : list ast.Expr) : result fumpter :=
  match elts with
  | elem1 :: ((elem2 :: _) as rest) =>
      f' <- (if negb (isCompositeLit elem1) && negb (isCompositeLit elem2) then Ok f
             else if Line f (ast.Expr_End elem1) =? Line f (ast.Expr_Pos elem2)
                  then addNewline f (ast.Expr_End elem1)
                  else Ok f) ;;
      pairsLoop f' rest
  | _ => Ok f
  end.

(** The body of [if newlineBetweenElems || newlineAroundElems]: the break
    right after the opening brace and the one right before the closing
    brace.  [closeLine] is re-read only after the first of them. *)
Definition newlinesAtBraces (f : fumpter) (Lbrace : token.Pos) (first last_ : ast.Expr)
  (Rbrace : token.Pos) (openLine closeLine : Z) : result fumpter :=
  fc <- (if openLine =? Line f (ast.Expr_Pos first) then
           f' <- addNewline f (Lbrace + 1) ;;
           Ok (f', Line f' Rbrace)
         else Ok (f, closeLine)) ;;
  let '(f, closeLine) := fc in
  if closeLine =? Line f (ast.Expr_End last_) then addNewline f Rbrace else Ok f.

Definition applyPost_CompositeLit (f : fumpter) (Lbrace : token.Pos)
  (Elts : list ast.Expr) (Rbrace : token.Pos) : result fumpter :=
  match Elts with
  | [] => Ok f
  | first :: others =>
      let openLine := Line f Lbrace in
      let closeLine := Line f Rbrace in
      if openLine =? closeLine then Ok f
      else
        st <- eltsLoop openLine true (mkEltsState f openLine false false) Elts ;;
        let f := esF st in
        let around := newlineAroundElems st || (esLastLine st <? closeLine) in
        let between := newlineBetweenElems st in
        f <- (if between || around
              then newlinesAtBraces f Lbrace first (last others first) Rbrace
                     openLine closeLine
              else Ok f) ;;
        if negb between then Ok f else pairsLoop f Elts
  end.

Definition applyPost (f : fumpter) (node : ast.Node) : result fumpter :=
  match node with
  | ast.ExprNode (ast.CompositeLit _ Lbrace Elts Rbrace) =>
      applyPost_CompositeLit f Lbrace Elts Rbrace
  | _ => Ok f
  end.

(** ** Long-line splitting *)

(** What [splitLongLine] reads of the cursor: the node, whether the parent
    is a [*ast.BinaryExpr], and [c.Index()]. *)
Record Cursor : Type := mkCursor {
  cNode : option ast.Node;
  cParentIsBinaryExpr : bool;
  cIndex : Z
}.

Fixpoint isCompositeExpr (e : ast.Expr) : option (list ast.Expr) :=
  match e with
  | ast.CompositeLit _ _ elts _ => Some elts
  | ast.UnaryExpr _ _ x => isCompositeExpr x
  | _ => None
  end.

(** [isComposite(node)], returning the literal's elements. *)
Definition isComposite (node : ast.Node) : option (list ast.Expr) :=
  match node with
  | ast.ExprNode e => isCompositeExpr e
  | _ => None
  end.

(** Go's [int(x)] for a finite binary64 [x]: truncation toward zero. *)
Definition intOfFloat (x : float) : Z :=
  match Prim2SF x with
  | S754_finite s m e =>
      let a := if 0 <=? e then Z.pos m * 2 ^ e else Z.pos m / 2 ^ (- e) in
      if s then - a else a
  | _ => 0
  end.

Definition minSplitLength (f : fumpter) : Z :=
  intOfFloat (PrimFloat.mul (minSplitFactor f) 100%float).

(** [env] is [os.Getenv("GOFUMPT_SPLIT_LONG_LINES")]. *)
Definition splitLongLine (env : string) (f : fumpter) (c : Cursor) : result fumpter :=
  if negb (String.eqb env "on") then Ok f
  else
    match cNode c with
    | None => Ok f
    | Some node =>
        let newlinePos := ast.Node_Pos node in
        let startLine := Line f (ast.Node_Pos node) in
        let startColumn := token.Column (tokFile f) (ast.Node_Pos node) in
        let endLine := Line f (ast.Node_End node) in
        let endColumn := token.Column (tokFile f) (ast.Node_End node) in
        if negb (startLine =? endLine) then Ok f
        else if negb (cParentIsBinaryExpr c || (0 <=? cIndex c)) then Ok f
        else
          let startCol := startColumn + blockLevel f * 7 in
          let endCol := endColumn + blockLevel f * 7 in
          let newlinePos :=
            match isComposite node with
            | Some (e :: _) => ast.Expr_Pos e
            | _ => newlinePos
            end in
          let startCol :=
            match node with
            | ast.ExprNode (ast.CallExpr _ _ (arg :: _) _) =>
                startCol
                + Z.quot (token.Column (tokFile f) (ast.Expr_Pos arg) - startColumn) 2
            | _ => startCol
            end in
          if startCol <=? shortLineLimit then Ok f
          else
            le <- lineEnd f startLine ;;
            let lineEndColumn := token.Column (tokFile f) le in
            let firstLength := startColumn - blockLevel f in
            if firstLength <? 0 then Panic "negative length"
            else
              let secondLength := lineEndColumn - startColumn in
              if secondLength <? 0 then Panic "negative length"
              else if (longLineLimit <? endCol)
                      && (minSplitLength f <=? firstLength)
                      && (minSplitLength f <=? secondLength)
                   then addNewline f newlinePos
                   else Ok f
    end.

(** ** [File]: options, and the context kept by the two callbacks *)

(** Node identity ([ft != topFuncType], [ft.Params == node]) is pointer
    equality; a pointer is an address, [None] is [nil]. *)
Definition ptr : Type := Z.

Definition ptr_eqb (a b : option ptr) : bool :=
  match a, b with
  | Some x, Some y => x =? y
  | None, None => true
  | _, _ => false
  end.

(** What the [pre] and [post] switches read of the visited node. *)
Inductive Visited : Type :=
| VFuncDecl (Type_ : option ptr)
| VFieldList (self : ptr) (parentFuncType : option (ptr * option ptr * option ptr))
| VFuncType (self : ptr)
| VBlockStmt
| VOther.

Record walkState : Type := mkWalkState {
  topFuncType : option ptr;
  wsF : fumpter
}.

(** The switch of [pre], run after [f.applyPre(c)]. *)
Definition pre_switch (st : walkState) (node : Visited) : walkState :=
  match node with
  | VFuncDecl t => mkWalkState t (wsF st)
  | VFieldList self (Some (ft, params, results)) =>
      if negb (ptr_eqb (Some ft) (topFuncType st)) then st
      else
        let f := wsF st in
        let f := if ptr_eqb params (Some self) then setMinSplitFactor f 0.6%float else f in
        let f := if ptr_eqb results (Some self) then setMinSplitFactor f 1000%float else f in
        mkWalkState (topFuncType st) f
  | VFieldList _ None => st
  | VBlockStmt => mkWalkState (topFuncType st) (setBlockLevel (wsF st) (blockLevel (wsF st) + 1))
  | _ => st
  end.

(** The switch of [post], run after [f.applyPost(c)]. *)
Definition post_switch (st : walkState) (node : Visited) : walkState :=
  match node with
  | VFuncType self =>
      if ptr_eqb (Some self) (topFuncType st)
      then mkWalkState (topFuncType st) (setMinSplitFactor (wsF st) 0.4%float)
      else st
  | VBlockStmt => mkWalkState (topFuncType st) (setBlockLevel (wsF st) (blockLevel (wsF st) - 1))
  | _ => st
  end.

(** [File] up to the traversal: the normalised options, or the panic. *)
Definition normalizeLangVersion (opts : Options) : Options :=
  match LangVersion opts with
  | EmptyString => mkOptions "v1" (ExtraRules opts)
  | String c _ =>
      if negb (isByte 118 c)
      then mkOptions ("v" ++ LangVersion opts) (ExtraRules opts)
      else opts
  end.

Section Traversal.

(** [astutil.Apply(file, pre, post)] from the initial formatter state. *)
Variable Apply : fumpter -> ast.File -> result fumpter.

Definition File (tf : token.File) (file : ast.File) (opts : Options) : result fumpter :=
  let opts := normalizeLangVersion opts in
  if negb (semver.IsValid (LangVersion opts))
  then Panic ("invalid semver string: " ++ LangVersion opts)
  else Apply (mkFumpter opts tf file 0 0.4%float) file.

End Traversal.

(** * Specification vocabulary and sample inputs *)

(** The line-table invariant of [go/token]: the table starts with offset
    0, is strictly increasing, and every line starts inside the file. *)
Record wfFile (tf : token.File) : Prop := mkWfFile {
  wf_base : 1 <= token.base tf;
  wf_head : hd_error (token.lines tf) = Some 0;
  wf_sorted : StronglySorted Z.lt (token.lines tf);
  wf_bound : Forall (fun x => x < token.size tf) (token.lines tf)
}.

(** A position of the file: [base <= p <= base + size]. *)
Definition inFile (tf : token.File) (p : token.Pos) : Prop :=
  token.base tf <= p <= token.base tf + token.size tf.

(** Number of table entries at or below an offset. *)
Fixpoint countLE (l : list Z) (x : Z) : Z :=
  match l with
  | [] => 0
  | c :: l' => (if c <=? x then 1 else 0) + countLE l' x
  end.

(** Sorted insertion: where [addNewline] puts a new line start. *)
Fixpoint insertLine (x : Z) (l : list Z) : list Z :=
  match l with
  | [] => [x]
  | c :: l' => if x <? c then x :: c :: l' else c :: insertLine x l'
  end.

(** What [addNewline] leaves in the table. *)
Definition addedLines (l : list Z) (offset : Z) : list Z :=
  if memZ offset l then l else insertLine offset l.

Definition sampleFile : token.File := token.mkFile 1 20 [0; 5; 12] [].

Definition sampleFumpter : fumpter :=
  mkFumpter (mkOptions "v1" false) sampleFile (ast.mkFile 1 [21] []) 0 0.4%float.

(** The table after [removeLines a b]: entries [a .. b-1] are gone. *)
Definition linesAfterRemove (a b : Z) (l : list Z) : list Z :=
  firstn (Z.to_nat a) l ++ skipn (Z.to_nat (Z.max a b)) l.

(** The line number of a position that was on line [k], after
    [removeLines a b]. *)
Definition mergedLine (a b k : Z) : Z :=
  if (k <=? a) || (b <? a) then k
  else if k <=? b then a
  else k - (b - a).

(** Case analysis on every boolean test of the goal, with the tests
    turned into (in)equalities for [lia]. *)
Ltac split_ifs :=
  repeat match goal with
         | |- context [if ?c then _ else _] => destruct c eqn:?
         end;
  rewrite ?Z.leb_le, ?Z.leb_gt, ?Z.ltb_lt, ?Z.ltb_ge, ?Z.eqb_eq, ?Z.eqb_neq in *.

(** The state with a new line table and everything else unchanged. *)
Definition withLines (f : fumpter) (l : list Z) : fumpter :=
  setFile f (token.mkFile (token.base (tokFile f)) (token.size (tokFile f)) l
               (token.infos (tokFile f))).

(** The line of a position in the table itself, whatever directives the
    file has: the numbering that [MergeLine], [LineStart] and [LineCount]
    use. *)
Definition tableLine (f : fumpter) (p : token.Pos) : Z := token.tableLine (tokFile f) p.

Definition wfTable (f : fumpter) : Prop := wfFile (tokFile f).

(** A file the rules are stated for: a well-formed line table and no
    [//line] or [/*line*/] directive, so that [f.Line] is the line of the
    table. *)
Definition wfF (f : fumpter) : Prop :=
  wfFile (tokFile f) /\ token.infos (tokFile f) = [].

Definition inF (f : fumpter) (p : token.Pos) : Prop := inFile (tokFile f) p.

(** Lines between two positions. *)
Definition gap (f : fumpter) (p q : token.Pos) : Z := Line f q - Line f p.

(** The pattern of [stmts], as the code tests it: [..., err := ...]
    followed by [if err != nil] with no init clause and no else branch. *)
Definition errGuard (prev stmt : ast.Stmt) : bool :=
  match prev, stmt with
  | ast.AssignStmt lhs _ tok _, ast.IfStmt _ init cond _ els =>
      ast.Token_eqb tok ast.DEFINE
      && match lhs with
         | [] => false
         | l0 :: ls => identEqual (last ls l0) "err"
         end
      && match init with None => true | Some _ => false end
      && match els with None => true | Some _ => false end
      && match cond with
         | ast.BinaryExpr x _ op y =>
             ast.Token_eqb op ast.NEQ && identEqual x "err" && identEqual y "nil"
         | _ => false
         end
  | _, _ => false
  end.

(** The pattern in the words of the specification: the guard is any single
    comparison ([==] or [!=]) of the error name against nil. *)
Definition nilComparisonGuard (prev stmt : ast.Stmt) : bool :=
  match prev, stmt with
  | ast.AssignStmt lhs _ tok _, ast.IfStmt _ init cond _ els =>
      ast.Token_eqb tok ast.DEFINE
      && match lhs with
         | [] => false
         | l0 :: ls => identEqual (last ls l0) "err"
         end
      && match init with None => true | Some _ => false end
      && match els with None => true | Some _ => false end
      && match cond with
         | ast.BinaryExpr x _ op y =>
             (ast.Token_eqb op ast.NEQ || ast.Token_eqb op ast.EQL)
             && identEqual x "err" && identEqual y "nil"
         | _ => false
         end
  | _, _ => false
  end.

(** Statements in source order inside the file, starting at or after
    [lo]. *)
Fixpoint ordered (f : fumpter) (lo : token.Pos) (l : list ast.Stmt) : Prop :=
  match l with
  | [] => True
  | s :: l' =>
      lo <= ast.Stmt_Pos s /\ ast.Stmt_Pos s <= ast.Stmt_End s
      /\ inF f (ast.Stmt_Pos s) /\ inF f (ast.Stmt_End s)
      /\ ordered f (ast.Stmt_End s) l'
  end.

(** The parser's guarantee that an assignment has a left-hand side. *)
Definition assignHasLhs (s : ast.Stmt) : Prop :=
  match s with
  | ast.AssignStmt [] _ _ _ => False
  | _ => True
  end.

(** A sample file:
<<
x, err := f()

if err != nil {
}
>>
    with [base = 1]; the guard is given once with [!=] and once with [==]. *)
Definition errFile : token.File := token.mkFile 1 33 [0; 14; 15; 31] [].

Definition errFumpter : fumpter :=
  mkFumpter (mkOptions "v1" false) errFile (ast.mkFile 1 [33] []) 0 0.4%float.

Definition errAssign : ast.Stmt :=
  ast.AssignStmt [ast.Ident 1 "x"; ast.Ident 4 "err"] 8 ast.DEFINE
    [ast.CallExpr (ast.Ident 11 "f") 12 [] 13].

Definition errGuardStmt (op : ast.Token) : ast.Stmt :=
  ast.IfStmt 16 None
    (ast.BinaryExpr (ast.Ident 19 "err") 23 op (ast.Ident 26 "nil"))
    (ast.mkBlockStmt 30 [] 32) None.

(** The inline-comment query in the words of the specification: the
    first comment group at or after [pos], and of it the first token if
    that token is on the line of [pos]. *)
Definition inlineCommentAfter (f : fumpter) (pos : token.Pos) : option ast.Comment :=
  match find (fun g => pos <=? ast.CommentGroup_Pos g) (ast.Comments (astFile f)) with
  | None => None
  | Some g =>
      match ast.List g with
      | c :: _ => if Line f (ast.Comment_Pos c) =? Line f pos then Some c else None
      | [] => None
      end
  end.

(** The comment list as the parser delivers it: groups sorted by
    position, none empty, the tokens of a group inside the file and not
    before the group's first token. *)
Record sortedComments (f : fumpter) : Prop := mkSortedComments {
  sc_sorted : StronglySorted (fun g g' => ast.CommentGroup_Pos g <= ast.CommentGroup_Pos g')
                (ast.Comments (astFile f));
  sc_tokens : Forall (fun g => ast.List g <> []
                               /\ Forall (fun c => inF f (ast.Comment_Pos c)
                                                   /\ ast.CommentGroup_Pos g <= ast.Comment_Pos c)
                                    (ast.List g))
                (ast.Comments (astFile f))
}.

Definition monotoneOn (p : Z -> bool) (i j : Z) : Prop :=
  forall k k', i <= k -> k <= k' -> k' < j -> p k = true -> p k' = true.

(** A sample file with a trailing comment and a two-line comment group:
<<
x := 1 // a
// b
// c
>> *)
Definition commentFumpter : fumpter :=
  mkFumpter (mkOptions "v1" false) (token.mkFile 1 22 [0; 12; 17] [])
    (ast.mkFile 1 [7]
       [ast.mkCommentGroup [ast.mkComment 8 "// a"];
        ast.mkCommentGroup [ast.mkComment 13 "// b"; ast.mkComment 18 "// c"]])
    0 0.4%float.

(** A file with a line directive, whose second comment gets the line
    number of [var x = 1]:
<<
package p

var y = 2
var x = 1
//line :4
// c2
>> *)
Definition directiveFumpter : fumpter :=
  mkFumpter (mkOptions "v1" false)
    (token.mkFile 1 47 [0; 10; 11; 21; 31; 41] [token.mkLineInfo 41 4 0])
    (ast.mkFile 10 [21; 31]
       [ast.mkCommentGroup [ast.mkComment 32 "//line :4"; ast.mkComment 42 "// c2"]])
    0 0.4%float.

(** Four lines of which the first is a directive that numbers the next
    line 100:
<<
//line a.go:100
x := 1

y()
>> *)
Definition renumberedFumpter : fumpter :=
  mkFumpter (mkOptions "v1" false)
    (token.mkFile 1 28 [0; 16; 23; 24] [token.mkLineInfo 16 100 0])
    (ast.mkFile 1 [28] [ast.mkCommentGroup [ast.mkComment 1 "//line a.go:100"]])
    0 0.4%float.

(** Value of an octal digit string with [_] separators. *)
Fixpoint octalDigits (acc : Z) (s : string) : option Z :=
  match s with
  | EmptyString => Some acc
  | String c s' =>
      if isByte 95 c then octalDigits acc s'
      else if inRange 48 55 c then octalDigits (acc * 8 + (byteOf c - 48)) s'
      else None
  end.

(** Value of an octal integer literal of the Go language, in its legacy
    spelling [0digits] and in its prefixed spelling [0odigits] or
    [0Odigits]; other literals are not needed here. *)
Definition octalLitValue (s : string) : option Z :=
  match s with
  | String z (String c rest) =>
      if negb (isByte 48 z) then None
      else if isByte 111 c || isByte 79 c then octalDigits 0 rest
      else octalDigits 0 (String c rest)
  | _ => None
  end.

(** A comment the specification wants normalised: a line comment that is
    no directive and whose first rune is a letter, a digit or a space. *)
Definition plainLineComment (decodeMultibyte : string -> Z) (letterTable numberTable : Z -> bool)
  (c : ast.Comment) : bool :=
  let body := TrimPrefix (ast.Text c) "//" in
  let r := DecodeRuneInString decodeMultibyte body in
  HasPrefix (ast.Text c) "//"
  && negb (rxCommentDirective body)
  && (IsLetter letterTable r || IsNumber numberTable r || IsSpace r).

(** The text is the marker, one space, and then something that does not
    start with a further space. *)
Definition exactlyOneSpace (text : string) : bool :=
  HasPrefix text "// " && negb (HasPrefix text "//  ").

(** The quantities [splitLongLine] computes, under the names of its local
    variables. *)
Definition startColumn (f : fumpter) (node : ast.Node) : Z :=
  token.Column (tokFile f) (ast.Node_Pos node).

Definition startCol (f : fumpter) (node : ast.Node) : Z :=
  match node with
  | ast.ExprNode (ast.CallExpr _ _ (arg :: _) _) =>
      startColumn f node + blockLevel f * 7
      + Z.quot (token.Column (tokFile f) (ast.Expr_Pos arg) - startColumn f node) 2
  | _ => startColumn f node + blockLevel f * 7
  end.

Definition endCol (f : fumpter) (node : ast.Node) : Z :=
  token.Column (tokFile f) (ast.Node_End node) + blockLevel f * 7.

Definition newlinePos (node : ast.Node) : token.Pos :=
  match isComposite node with
  | Some (e :: _) => ast.Expr_Pos e
  | _ => ast.Node_Pos node
  end.

(** [f.lineEnd(line)] for a line of the file. *)
Definition lineEndPos (f : fumpter) (line : Z) : token.Pos :=
  if line =? token.LineCount (tokFile f) then ast.File_End (astFile f)
  else token.base (tokFile f) + nth (Z.to_nat line) (token.lines (tokFile f)) 0 - 1.

Definition firstLength (f : fumpter) (node : ast.Node) : Z :=
  startColumn f node - blockLevel f.

Definition secondLength (f : fumpter) (node : ast.Node) : Z :=
  token.Column (tokFile f) (lineEndPos f (Line f (ast.Node_Pos node))) - startColumn f node.

(** The condition under which the code asks for a break. *)
Definition wantsSplit (env : string) (f : fumpter) (c : Cursor) (node : ast.Node) : Prop :=
  env = "on"%string
  /\ Line f (ast.Node_Pos node) = Line f (ast.Node_End node)
  /\ (cParentIsBinaryExpr c = true \/ 0 <= cIndex c)
  /\ shortLineLimit < startCol f node
  /\ longLineLimit < endCol f node
  /\ minSplitLength f <= firstLength f node
  /\ minSplitLength f <= secondLength f node.

(** The tests [splitLongLine] runs before it estimates the two halves. *)
Definition reachesLengths (env : string) (f : fumpter) (c : Cursor) (node : ast.Node) : Prop :=
  env = "on"%string
  /\ Line f (ast.Node_Pos node) = Line f (ast.Node_End node)
  /\ (cParentIsBinaryExpr c = true \/ 0 <= cIndex c)
  /\ shortLineLimit < startCol f node.

(** A half the code refuses to go on with. *)
Definition negativeLength (f : fumpter) (node : ast.Node) : Prop :=
  firstLength f node < 0 \/ secondLength f node < 0.

(** The condition in the words of the specification, without the test on
    the start column. *)
Definition wantsSplitAsStated (env : string) (f : fumpter) (c : Cursor) (node : ast.Node)
  : Prop :=
  env = "on"%string
  /\ Line f (ast.Node_Pos node) = Line f (ast.Node_End node)
  /\ (cParentIsBinaryExpr c = true \/ 0 <= cIndex c)
  /\ longLineLimit < endCol f node
  /\ minSplitLength f <= firstLength f node
  /\ minSplitLength f <= secondLength f node.

(** How the two callbacks of [File] move the split factor: 0.6 on entering
    the parameter list of the top-level function type, 1000 on entering
    its result list, back to 0.4 on leaving that function type; the
    lengths these factors stand for. *)
Definition splitFactorContext : Prop :=
  (forall st self ft results,
      topFuncType st = Some ft -> ptr_eqb results (Some self) = false ->
      let f' := wsF (pre_switch st (VFieldList self (Some (ft, Some self, results)))) in
      minSplitFactor f' = 0.6%float /\ minSplitLength f' = 60)
  /\ (forall st self ft params,
         topFuncType st = Some ft ->
         let f' := wsF (pre_switch st (VFieldList self (Some (ft, params, Some self)))) in
         minSplitFactor f' = 1000%float /\ minSplitLength f' = 100000)
  /\ (forall st ft,
         topFuncType st = Some ft ->
         let f' := wsF (post_switch st (VFuncType ft)) in
         minSplitFactor f' = 0.4%float /\ minSplitLength f' = 40)
  /\ (forall st self ft params results,
         ptr_eqb (Some ft) (topFuncType st) = false ->
         pre_switch st (VFieldList self (Some (ft, params, results))) = st).

(** A file whose only line is 130 bytes long, with list elements at
    columns 50..105 and 70..120. *)
Definition longFumpter : fumpter :=
  mkFumpter (mkOptions "v1" false) (token.mkFile 1 131 [0] []) (ast.mkFile 1 [110] [])
    0 0.4%float.

Definition listElement (pos end_ : token.Pos) : Cursor :=
  mkCursor (Some (ast.OtherNode pos end_)) false 0.



(** A block on one line: both braces on the same line. *)
Definition onOneLine (f : fumpter) (node : ast.BlockStmt) : Prop :=
  Line f (ast.BlockStmt_Lbrace node) = Line f (ast.BlockStmt_Rbrace node).





(** The elements of a literal in source order inside the file, each at
    least one byte wide, between [lo] and [hi]. *)
Fixpoint eltsOrdered (f : fumpter) (lo hi : token.Pos) (elts : list ast.Expr) : Prop :=
  match elts with
  | [] => lo <= hi
  | e :: rest =>
      lo <= ast.Expr_Pos e /\ ast.Expr_Pos e < ast.Expr_End e
      /\ inF f (ast.Expr_Pos e) /\ inF f (ast.Expr_End e)
      /\ eltsOrdered f (ast.Expr_End e) hi rest
  end.

(** Some two adjacent elements are on different lines: the value the first
    loop gives [newlineBetweenElems]. *)
Fixpoint newlineBetween (f : fumpter) (elts : list ast.Expr) : bool :=
  match elts with
  | e1 :: ((e2 :: _) as rest) =>
      (Line f (ast.Expr_End e1) <? Line f (ast.Expr_Pos e2)) || newlineBetween f rest
  | _ => false
  end.

(** One round of the second loop. *)
Definition pairStep (g : fumpter) (e1 e2 : ast.Expr) : result fumpter :=
  if negb (isCompositeLit e1) && negb (isCompositeLit e2) then Ok g
  else if Line g (ast.Expr_End e1) =? Line g (ast.Expr_Pos e2)
       then addNewline g (ast.Expr_End e1)
       else Ok g.

(** A literal of three nested literals, the last two on one line:
    [T{], then [{1},], then [{2}, {3},], then [}].  Positions are offsets
    plus one. *)
Definition nestedFumpter : fumpter :=
  mkFumpter (mkOptions "v1" false) (token.mkFile 1 20 [0; 3; 8; 18] [])
            (ast.mkFile 1 [20] []) 0 0.4%float.

Definition nestedElt (lbrace : token.Pos) : ast.Expr :=
  ast.CompositeLit None lbrace [ast.OtherExpr (lbrace + 1) (lbrace + 2)] (lbrace + 2).

(** A literal of three plain elements: [T{], then [a,], then [b, c,],
    then [}]. *)
Definition plainFumpter : fumpter :=
  mkFumpter (mkOptions "v1" false) (token.mkFile 1 14 [0; 3; 6; 12] [])
            (ast.mkFile 1 [14] []) 0 0.4%float.

Definition plainElts : list ast.Expr :=
  [ast.OtherExpr 4 5; ast.OtherExpr 7 8; ast.OtherExpr 10 11].

(** A literal with a blank line after the opening brace: [T{], a blank
    line, then [a, b}]. *)
Definition blankFumpter : fumpter :=
  mkFumpter (mkOptions "v1" false) (token.mkFile 1 10 [0; 3; 4] [])
            (ast.mkFile 1 [10] []) 0 0.4%float.

(** A case clause spread over two lines: [case a,] and, after a tab,
    [b:]. *)
Definition caseFumpter : fumpter :=
  mkFumpter (mkOptions "v1" false) (token.mkFile 1 12 [0; 8] []) (ast.mkFile 1 [12] []) 0 0.4%float.

(** A node at column 5 of a one-line file, visited nine blocks deep. *)
Definition deepFumpter : fumpter :=
  mkFumpter (mkOptions "v1" false) (token.mkFile 1 30 [0] []) (ast.mkFile 1 [30] []) 9 0.4%float.

(** Strings over [[a-z-]]. *)
Fixpoint allLowerOrDash (s : string) : bool :=
  match s with
  | EmptyString => true
  | String c s' => (isLower c || isByte 45 c) && allLowerOrDash s'
  end.

(** An empty parameter list spread over two lines: [func f(], then [)]. *)
Definition parensFumpter : fumpter :=
  mkFumpter (mkOptions "v1" false) (token.mkFile 1 12 [0; 8] []) (ast.mkFile 1 [12] []) 0 0.4%float.

(** A field stands for another in the merge test: same answers on both
    sides. *)
Definition mergesLike (typeEqual : option ast.Expr -> option ast.Expr -> bool) (f : fumpter)
  (a b : ast.Field) : Prop :=
  forall x, shouldMergeAdjacentFields typeEqual f a x = shouldMergeAdjacentFields typeEqual f b x
            /\ shouldMergeAdjacentFields typeEqual f x a
               = shouldMergeAdjacentFields typeEqual f x b.

(** The blank identifier. *)
Definition isBlank (i : ast.IdentNode) : bool := String.eqb (ast.Name i) "_".

(** A parenthesised declaration of one variable over three lines:
    [var (], then [x = 1] after a tab, then [)]. *)
Definition varFumpter : fumpter :=
  mkFumpter (mkOptions "v1" false) (token.mkFile 1 15 [0; 6; 13] []) (ast.mkFile 1 [15] [])
            0 0.4%float.

Definition varSpec : ast.Spec :=
  ast.ValueSpec None [ast.mkIdent 8 "x"] None [ast.OtherExpr 12 13] None.

Definition varDecl : ast.GenDecl := ast.mkGenDecl None 1 ast.VAR 5 [varSpec] 14.

(** What a declaration holds: its specs, or itself if it is not a general
    declaration. *)
Definition declItems (d : ast.Decl) : list (ast.Spec + ast.Decl) :=
  match d with
  | ast.GenDeclD g => map inl (ast.Specs g)
  | ast.OtherDecl _ _ => [inr d]
  end.

(** The parser's guarantee that an import declaration holds import
    specs. *)
Definition importSpecsOnly (d : ast.Decl) : Prop :=
  match d with
  | ast.GenDeclD g =>
      ast.Tok g = ast.IMPORT ->
      Forall (fun s => match s with
                       | ast.ImportSpec _ _ _ _ _ _ => True
                       | _ => False
                       end) (ast.Specs g)
  | ast.OtherDecl _ _ => True
  end.

(** The parser's guarantee that a declaration without a closing
    parenthesis has a spec, and that this spec has a name if it is a value
    spec. *)
Definition declHasEnd (d : ast.Decl) : Prop :=
  match d with
  | ast.GenDeclD g =>
      token.IsValid (ast.Rparen g) = false ->
      match ast.Specs g with
      | [] => False
      | ast.ValueSpec _ [] _ _ _ :: _ => False
      | _ :: _ => True
      end
  | ast.OtherDecl _ _ => True
  end.

(** Declarations in the order of their lines. *)
Definition inLineOrder (f : fumpter) (decls : list ast.Decl) : Prop :=
  StronglySorted (fun a b => Line f (ast.Decl_Pos a) <= Line f (ast.Decl_Pos b)) decls.

(** Two declarations the inner loop of the join pass cannot tell apart
    when it asks whether they continue a group: the same declaration, or
    two general declarations with the same keyword, keyword position and
    opening parenthesis, neither of them [import "C"]. *)
Definition sameHead (d d' : ast.Decl) : Prop :=
  d' = d
  \/ exists g g',
      d = ast.GenDeclD g /\ d' = ast.GenDeclD g'
      /\ ast.Tok g' = ast.Tok g /\ ast.Lparen g' = ast.Lparen g
      /\ ast.TokPos g' = ast.TokPos g
      /\ isCgoImport g = Ok false /\ isCgoImport g' = Ok false.

(** Two lone [var] declarations on consecutive lines and a function:
    [var a = 1], [var b = 2], [func f() {}]. *)
Definition declsFumpter : fumpter :=
  mkFumpter (mkOptions "v1" false) (token.mkFile 1 32 [0; 10; 20] []) (ast.mkFile 1 [32] [])
            0 0.4%float.

Definition loneVar (tokPos : token.Pos) (name : string) : ast.GenDecl :=
  ast.mkGenDecl None tokPos ast.VAR 0
    [ast.ValueSpec None [ast.mkIdent (tokPos + 4) name] None
       [ast.OtherExpr (tokPos + 8) (tokPos + 9)] None] 0.

Definition sampleDecls : list ast.Decl :=
  [ast.GenDeclD (loneVar 1 "a"); ast.GenDeclD (loneVar 11 "b"); ast.OtherDecl 21 32].

(** Where the second loop takes a declaration to begin: at the first
    comment between the previous declaration and it, if there is one. *)
Definition declStart (f : fumpter) (lastEnd : token.Pos) (decl : ast.Decl) : token.Pos :=
  match commentsBetween f lastEnd (ast.Decl_Pos decl) with
  | c :: _ => ast.CommentGroup_Pos c
  | [] => ast.Decl_Pos decl
  end.

Definition declMulti (f : fumpter) (lastEnd : token.Pos) (decl : ast.Decl) : bool :=
  Line f (declStart f lastEnd decl) <? Line f (ast.Decl_End decl).

(** The loop's test for a forced line break at [lastEnd]. *)
Definition needsBlank (f : fumpter) (lastMulti : bool) (lastEnd : token.Pos)
  (decl : ast.Decl) : bool :=
  declMulti f lastEnd decl && lastMulti
  && (Line f lastEnd + 1 =? Line f (declStart f lastEnd decl)).

(** Declarations in source order inside the file, each with its leading
    comments after the end [lo] of the one before. *)
Fixpoint declsOrdered (f : fumpter) (lo : token.Pos) (decls : list ast.Decl) : Prop :=
  match decls with
  | [] => True
  | d :: rest =>
      lo <= declStart f lo d /\ declStart f lo d <= ast.Decl_Pos d
      /\ ast.Decl_Pos d < ast.Decl_End d
      /\ inF f (declStart f lo d) /\ inF f (ast.Decl_End d)
      /\ ast.Decl_End d < token.base (tokFile f) + token.size (tokFile f)
      /\ declsOrdered f (ast.Decl_End d) rest
  end.

(** Two functions of two lines each, one right below the other:
    [func a() {], [}], [func b() {], [}]. *)
Definition funcsFumpter : fumpter :=
  mkFumpter (mkOptions "v1" false) (token.mkFile 1 26 [0; 11; 13; 24] []) (ast.mkFile 1 [26] [])
            0 0.4%float.

(** * The line table *)

(** Without directives [f.Line] and [f.Position] read the table. *)
Lemma Line_plain (f : fumpter) (p : token.Pos) :
  token.infos (tokFile f) = [] -> Line f p = tableLine f p.
Proof.
  intros H. unfold Line, tableLine, token.Line, token.PositionFor. rewrite H.
  cbn [List.length Z.of_nat Z.ltb Z.compare andb].
  destruct (p =? token.NoPos) eqn:E; cbn [fst]; [|reflexivity].
  unfold token.tableLine. now rewrite E.
Qed.

Lemma Column_plain (f : fumpter) (p : token.Pos) :
  token.infos (tokFile f) = [] ->
  token.Column (tokFile f) p = token.tableColumn (tokFile f) p.
Proof.
  intros H. unfold token.Column, token.PositionFor. rewrite H.
  cbn [List.length Z.of_nat Z.ltb Z.compare andb].
  destruct (p =? token.NoPos) eqn:E; cbn [snd]; [|reflexivity].
  unfold token.tableColumn. now rewrite E.
Qed.

Lemma countLE_above (l : list Z) (c x : Z) :
  Forall (Z.lt c) l -> x < c -> countLE l x = 0.
Proof.
  induction 1 as [|d l Hd _ IH]; simpl; intros Hx; [reflexivity|].
  rewrite IH by assumption.
  destruct (d <=? x) eqn:E; [apply Z.leb_le in E; lia | reflexivity].
Qed.

Lemma searchInts_countLE (l : list Z) (x : Z) :
  StronglySorted Z.lt l -> token.searchInts l x + 1 = countLE l x.
Proof.
  induction 1 as [|c l Hs IH Hall]; [reflexivity|].
  cbn [token.searchInts countLE]. destruct (c <=? x) eqn:E; [lia|].
  apply Z.leb_gt in E. rewrite (countLE_above l c x Hall E). reflexivity.
Qed.

Lemma countLE_bounds (l : list Z) (x : Z) :
  0 <= countLE l x <= Z.of_nat (List.length l).
Proof.
  induction l as [|c l IH]; [simpl; lia|].
  cbn [countLE List.length]. rewrite Nat2Z.inj_succ.
  destruct (c <=? x); lia.
Qed.

Lemma countLE_mono (l : list Z) (x y : Z) :
  x <= y -> countLE l x <= countLE l y.
Proof.
  intros Hxy. induction l as [|c l IH]; simpl; [lia|].
  destruct (c <=? x) eqn:E1, (c <=? y) eqn:E2; lia.
Qed.

Lemma countLE_head (l : list Z) (x : Z) :
  hd_error l = Some 0 -> 0 <= x -> 1 <= countLE l x.
Proof.
  destruct l as [|c l]; simpl; [discriminate|].
  intros [= ->] Hx. pose proof (countLE_bounds l x).
  destruct (0 <=? x) eqn:E; [lia | apply Z.leb_gt in E; lia].
Qed.

Lemma countLE_app (l1 l2 : list Z) (x : Z) :
  countLE (l1 ++ l2) x = countLE l1 x + countLE l2 x.
Proof. induction l1 as [|c l1 IH]; simpl; [reflexivity | rewrite IH; lia]. Qed.

Lemma Line_countLE (tf : token.File) (p : token.Pos) :
  wfFile tf -> inFile tf p ->
  token.tableLine tf p = countLE (token.lines tf) (p - token.base tf).
Proof.
  intros [Hb _ Hs _] [Hp _]. unfold token.tableLine, token.NoPos.
  destruct (p =? 0) eqn:E; [apply Z.eqb_eq in E; lia|].
  now apply searchInts_countLE.
Qed.

Lemma Line_valid (tf : token.File) (p : token.Pos) :
  wfFile tf -> inFile tf p -> 1 <= token.tableLine tf p <= token.LineCount tf.
Proof.
  intros Hwf Hp. rewrite (Line_countLE _ _ Hwf Hp). unfold token.LineCount.
  destruct Hwf as [Hb Hh _ _]. destruct Hp as [Hp _].
  pose proof (countLE_bounds (token.lines tf) (p - token.base tf)).
  pose proof (countLE_head (token.lines tf) (p - token.base tf) Hh). lia.
Qed.

Lemma Line_mono (tf : token.File) (p q : token.Pos) :
  wfFile tf -> inFile tf p -> inFile tf q -> p <= q ->
  token.tableLine tf p <= token.tableLine tf q.
Proof.
  intros Hwf Hp Hq Hpq.
  rewrite (Line_countLE _ _ Hwf Hp), (Line_countLE _ _ Hwf Hq).
  apply countLE_mono. lia.
Qed.

(** ** Inserting a line start *)

Lemma insertLine_In (x y : Z) (l : list Z) :
  In y (insertLine x l) <-> y = x \/ In y l.
Proof.
  induction l as [|c l IH]; simpl; [intuition|].
  destruct (x <? c); simpl; rewrite ?IH; intuition.
Qed.

Lemma insertLine_sorted (x : Z) (l : list Z) :
  StronglySorted Z.lt l -> ~ In x l -> StronglySorted Z.lt (insertLine x l).
Proof.
  induction 1 as [|c l Hs IH Hall]; simpl; intros Hn.
  - repeat constructor.
  - destruct (x <? c) eqn:E.
    + apply Z.ltb_lt in E. constructor; [now constructor|].
      constructor; [exact E|].
      eapply Forall_impl; [|exact Hall]. simpl. intros; lia.
    + apply Z.ltb_ge in E. constructor.
      * apply IH. intuition.
      * apply Forall_forall. intros y Hy. apply insertLine_In in Hy.
        destruct Hy as [->|Hy]; [|now apply (proj1 (Forall_forall _ _) Hall)].
        assert (x <> c) by intuition. lia.
Qed.

Lemma insertLine_countLE (x y : Z) (l : list Z) :
  countLE (insertLine x l) y = countLE l y + (if x <=? y then 1 else 0).
Proof.
  induction l as [|c l IH]; simpl; [lia|].
  destruct (x <? c); simpl; [|rewrite IH]; lia.
Qed.

Lemma insertLine_length (x : Z) (l : list Z) :
  List.length (insertLine x l) = S (List.length l).
Proof.
  induction l as [|c l IH]; simpl; [reflexivity|].
  destruct (x <? c); simpl; congruence.
Qed.

Lemma validLines_sorted (size : Z) (l : list Z) (prev : option Z) :
  StronglySorted Z.lt l -> Forall (fun x => x < size) l ->
  match prev with Some p => Forall (fun x => p < x) l | None => True end ->
  token.validLines size prev l = true.
Proof.
  intros Hs. revert prev. induction Hs as [|c l Hs IH Hall]; simpl; intros prev Hb Hp.
  - reflexivity.
  - inversion Hb as [|? ? Hc Hb']; subst.
    assert ((match prev with Some p => c <=? p | None => false end) = false) as ->.
    { destruct prev as [p|]; [|reflexivity]. inversion Hp; subst.
      apply Z.leb_gt. lia. }
    assert ((size <=? c) = false) as -> by (apply Z.leb_gt; lia).
    simpl. apply IH; assumption.
Qed.

Lemma addNewline_loop_placed (field acc : list Z) :
  Forall (fun c => 0 <= c) field ->
  addNewline_loop field (-1) acc = Some (-1, acc ++ field).
Proof.
  revert acc. induction field as [|cur field IH]; intros acc Hf.
  - cbn [addNewline_loop]. now rewrite app_nil_r.
  - inversion Hf; subst. cbn [addNewline_loop].
    replace (-1 =? cur) with false by (symmetry; apply Z.eqb_neq; lia).
    replace (0 <=? -1) with false by reflexivity.
    cbn [andb]. rewrite IH by assumption. now rewrite <- app_assoc.
Qed.

Lemma addNewline_loop_insert (field acc : list Z) (offset : Z) :
  StronglySorted Z.lt field -> 0 <= offset -> ~ In offset field ->
  exists o l, addNewline_loop field offset acc = Some (o, l)
              /\ (if 0 <=? o then l ++ [o] else l) = acc ++ insertLine offset field.
Proof.
  intros Hs Ho. revert acc.
  induction Hs as [|cur field Hs IH Hall]; intros acc Hn; cbn [addNewline_loop insertLine].
  - exists offset, acc. split; [reflexivity|].
    now replace (0 <=? offset) with true by (symmetry; apply Z.leb_le; lia).
  - replace (offset =? cur) with false
      by (symmetry; apply Z.eqb_neq; intros ->; apply Hn; now left).
    replace (0 <=? offset) with true by (symmetry; apply Z.leb_le; lia).
    cbn [andb]. destruct (offset <? cur) eqn:E.
    + apply Z.ltb_lt in E. exists (-1), (((acc ++ [offset]) ++ [cur]) ++ field).
      split.
      * apply addNewline_loop_placed.
        eapply Forall_impl; [|exact Hall]. cbn beta. intros; lia.
      * replace (0 <=? -1) with false by reflexivity.
        now rewrite <- !app_assoc.
    + destruct (IH (acc ++ [cur])) as (o & l & Hl & Hins).
      { intros Hin. apply Hn. now right. }
      exists o, l. split; [exact Hl|]. rewrite Hins. now rewrite <- app_assoc.
Qed.

Lemma addNewline_loop_present (field acc : list Z) (offset : Z) :
  StronglySorted Z.lt field -> 0 <= offset -> In offset field ->
  addNewline_loop field offset acc = None.
Proof.
  intros Hs Ho. revert acc.
  induction Hs as [|cur field Hs IH Hall]; intros acc Hin; cbn [addNewline_loop].
  - contradiction.
  - destruct (offset =? cur) eqn:E; [reflexivity|].
    apply Z.eqb_neq in E. destruct Hin as [Hin|Hin]; [congruence|].
    pose proof (proj1 (Forall_forall _ _) Hall _ Hin).
    replace (offset <? cur) with false by (symmetry; apply Z.ltb_ge; lia).
    rewrite andb_false_r. now apply IH.
Qed.

Lemma setFile_same (f : fumpter) :
  setFile f (token.mkFile (token.base (tokFile f)) (token.size (tokFile f))
               (token.lines (tokFile f)) (token.infos (tokFile f))) = f.
Proof. destruct f as [o [b s l i] a bl m]. reflexivity. Qed.

Lemma memZ_In (x : Z) (l : list Z) : memZ x l = true <-> In x l.
Proof.
  unfold memZ. rewrite existsb_exists. split.
  - intros (y & Hy & E). apply Z.eqb_eq in E. now subst.
  - intros H. exists x. split; [exact H | apply Z.eqb_refl].
Qed.

Lemma Offset_inFile (tf : token.File) (p : token.Pos) :
  inFile tf p -> token.Offset tf p = Ok (p - token.base tf).
Proof.
  intros [H1 H2]. unfold token.Offset.
  replace (p <? token.base tf) with false by (symmetry; apply Z.ltb_ge; lia).
  replace (token.base tf + token.size tf <? p) with false
    by (symmetry; apply Z.ltb_ge; lia).
  reflexivity.
Qed.

Lemma addNewline_ok (f : fumpter) (at_ : token.Pos) :
  wfFile (tokFile f) ->
  token.base (tokFile f) <= at_ < token.base (tokFile f) + token.size (tokFile f) ->
  addNewline f at_ =
  Ok (withLines f (addedLines (token.lines (tokFile f)) (at_ - token.base (tokFile f)))).
Proof.
  intros [Hb Hh Hs Hbd] Hat. unfold addNewline, addedLines, withLines.
  rewrite Offset_inFile by (unfold inFile; lia). cbn [bind].
  set (off := at_ - token.base (tokFile f)).
  assert (0 <= off) as Hoff by (unfold off; lia).
  destruct (memZ off (token.lines (tokFile f))) eqn:M.
  - apply memZ_In in M. rewrite addNewline_loop_present by assumption.
    now rewrite setFile_same.
  - assert (~ In off (token.lines (tokFile f))) as Hn.
    { intros Hin. apply memZ_In in Hin. congruence. }
    destruct (addNewline_loop_insert _ [] off Hs Hoff Hn) as (o & l & -> & Hl).
    rewrite Hl. cbn [app]. unfold token.SetLines.
    rewrite validLines_sorted; [reflexivity| | |exact I].
    + now apply insertLine_sorted.
    + apply Forall_forall. intros y Hy. apply insertLine_In in Hy.
      destruct Hy as [->|Hy]; [unfold off; lia|].
      now apply (proj1 (Forall_forall _ _) Hbd).
Qed.

Lemma addedLines_wf (tf : token.File) (off : Z) :
  wfFile tf -> 0 <= off < token.size tf ->
  wfFile (token.mkFile (token.base tf) (token.size tf) (addedLines (token.lines tf) off)
            (token.infos tf)).
Proof.
  intros [Hb Hh Hs Hbd] Hoff. unfold addedLines.
  destruct (memZ off (token.lines tf)) eqn:M; constructor; cbn; try assumption.
  - destruct (token.lines tf) as [|c l]; [discriminate|].
    cbn in Hh. injection Hh as ->. cbn.
    destruct (off <? 0) eqn:E; [lia | reflexivity].
  - apply insertLine_sorted; [assumption|].
    intros Hin. apply memZ_In in Hin. congruence.
  - apply Forall_forall. intros y Hy. apply insertLine_In in Hy.
    destruct Hy as [->|Hy]; [lia|]. now apply (proj1 (Forall_forall _ _) Hbd).
Qed.

Lemma addedLines_countLE (l : list Z) (off x : Z) :
  countLE (addedLines l off) x
  = countLE l x + (if memZ off l then 0 else if off <=? x then 1 else 0).
Proof.
  unfold addedLines. destruct (memZ off l); [lia | apply insertLine_countLE].
Qed.

Lemma StronglySorted_lt_NoDup (l : list Z) : StronglySorted Z.lt l -> NoDup l.
Proof.
  induction 1 as [|c l Hs IH Hall]; constructor; [|exact IH].
  intros Hin. pose proof (proj1 (Forall_forall _ _) Hall _ Hin). lia.
Qed.

(** C9.  [addNewline] keeps the line table well formed: at an offset that
    already starts a line it changes nothing; otherwise the new table holds
    exactly the old line starts and the new one, is one entry longer, is
    strictly increasing without duplicates, and every position of the file
    still has a line of the table between 1 and the line count.  The file
    may have line directives: [addNewline] never asks for [f.Line]. *)
Theorem addNewline_preserves_line_table (f : fumpter) (at_ : token.Pos) :
  wfFile (tokFile f) ->
  token.base (tokFile f) <= at_ < token.base (tokFile f) + token.size (tokFile f) ->
  exists f',
    addNewline f at_ = Ok f'
    /\ (In (at_ - token.base (tokFile f)) (token.lines (tokFile f)) -> f' = f)
    /\ (~ In (at_ - token.base (tokFile f)) (token.lines (tokFile f)) ->
        (forall x, In x (token.lines (tokFile f'))
                   <-> x = at_ - token.base (tokFile f) \/ In x (token.lines (tokFile f)))
        /\ token.LineCount (tokFile f') = token.LineCount (tokFile f) + 1)
    /\ StronglySorted Z.lt (token.lines (tokFile f'))
    /\ NoDup (token.lines (tokFile f'))
    /\ wfFile (tokFile f')
    /\ (forall p, inFile (tokFile f) p ->
                  1 <= tableLine f' p <= token.LineCount (tokFile f')).
Proof.
  intros Hwf Hat. eexists. split; [now apply addNewline_ok|].
  set (off := at_ - token.base (tokFile f)).
  assert (wfFile (token.mkFile (token.base (tokFile f)) (token.size (tokFile f))
                    (addedLines (token.lines (tokFile f)) off)
                    (token.infos (tokFile f)))) as Hwf'.
  { apply addedLines_wf; [assumption | unfold off; lia]. }
  assert (~ In off (token.lines (tokFile f)) ->
          addedLines (token.lines (tokFile f)) off
          = insertLine off (token.lines (tokFile f))) as Hadd.
  { intros Hn. unfold addedLines.
    destruct (memZ off (token.lines (tokFile f))) eqn:M; [|reflexivity].
    apply memZ_In in M. contradiction. }
  split; [|split; [|split; [|split; [|split]]]].
  - intros Hin. apply memZ_In in Hin. unfold addedLines. rewrite Hin.
    apply setFile_same.
  - intros Hn. cbn. rewrite (Hadd Hn). split.
    + intros x. apply insertLine_In.
    + unfold token.LineCount. cbn. rewrite insertLine_length. lia.
  - exact (wf_sorted _ Hwf').
  - apply StronglySorted_lt_NoDup. exact (wf_sorted _ Hwf').
  - exact Hwf'.
  - intros p Hp. apply (Line_valid _ p Hwf'). exact Hp.
Qed.

Lemma sampleFile_wf : wfFile sampleFile.
Proof.
  constructor; cbn; [lia | reflexivity | | ].
  - repeat constructor; lia.
  - repeat constructor; lia.
Qed.

Lemma addNewline_preserves_line_table_witness :
  exists f',
    addNewline sampleFumpter 9 = Ok f'
    /\ token.lines (tokFile f') = [0; 5; 8; 12]
    /\ addNewline f' 9 = Ok f'.
Proof.
  destruct (addNewline_preserves_line_table sampleFumpter 9 sampleFile_wf)
    as (f' & Hok & _); [cbn; lia|].
  exists f'. split; [exact Hok|].
  cbv in Hok. injection Hok as <-. split; reflexivity.
Defined.

(** ** Merging lines *)

Lemma removeLines_loop_ok (n : nat) (tf : token.File) (a : nat) :
  (1 <= a)%nat -> (a + n <= List.length (token.lines tf))%nat ->
  removeLines_loop n tf (Z.of_nat a)
  = Ok (token.mkFile (token.base tf) (token.size tf)
          (firstn a (token.lines tf) ++ skipn (a + n) (token.lines tf))
          (token.infos tf)).
Proof.
  revert tf. induction n as [|n IH]; intros [b s l i] Ha Hn; cbn [removeLines_loop].
  - cbn. rewrite Nat.add_0_r, firstn_skipn. reflexivity.
  - cbn in Hn. unfold token.MergeLine, token.LineCount. cbn [token.lines token.base token.size].
    replace (Z.of_nat a <? 1) with false by (symmetry; apply Z.ltb_ge; lia).
    replace (Z.of_nat (List.length l) <=? Z.of_nat a) with false
      by (symmetry; apply Z.leb_gt; lia).
    cbn [bind]. rewrite Nat2Z.id. rewrite IH; cbn [token.lines token.base token.size].
    + f_equal. f_equal.
      assert (List.length (firstn a l) = a) as Hl by (rewrite length_firstn; lia).
      rewrite firstn_app, Hl, Nat.sub_diag, firstn_O, app_nil_r.
      rewrite firstn_firstn, Nat.min_id. f_equal.
      rewrite skipn_app, Hl.
      rewrite (skipn_all2 (firstn a l)) by lia. cbn [app].
      replace (a + n - a)%nat with n by lia.
      rewrite skipn_skipn. f_equal. lia.
    + exact Ha.
    + rewrite length_app, length_firstn, length_skipn. lia.
Qed.

Lemma removeLines_ok (f : fumpter) (a b : Z) :
  1 <= a -> b <= token.LineCount (tokFile f) ->
  removeLines f a b
  = Ok (withLines f (linesAfterRemove a b (token.lines (tokFile f)))).
Proof.
  intros Ha Hb. unfold removeLines, linesAfterRemove, withLines, token.LineCount in *.
  destruct (Z.le_gt_cases b a) as [Hle|Hgt].
  - replace (Z.to_nat (b - a)) with O by lia. cbn [removeLines_loop bind].
    rewrite Z.max_l by lia. rewrite firstn_skipn.
    destruct f as [o [bs sz l] af bl m]. reflexivity.
  - pose proof (removeLines_loop_ok (Z.to_nat (b - a)) (tokFile f) (Z.to_nat a)
                  ltac:(lia) ltac:(lia)) as H.
    rewrite Z2Nat.id in H by lia. rewrite H. cbn [bind].
    rewrite Z.max_r by lia.
    replace (Z.to_nat a + Z.to_nat (b - a))%nat with (Z.to_nat b) by lia.
    reflexivity.
Qed.

Lemma countLE_remove (l : list Z) (x : Z) :
  StronglySorted Z.lt l ->
  forall a b : nat, (a <= b)%nat ->
  countLE (firstn a l ++ skipn b l) x
  = let k := countLE l x in
    if k <=? Z.of_nat a then k
    else if k <=? Z.of_nat b then Z.of_nat a
    else k - (Z.of_nat b - Z.of_nat a).
Proof.
  induction 1 as [|c l Hs IH Hall]; intros a b Hab.
  - rewrite firstn_nil, skipn_nil. cbn. split_ifs; lia.
  - pose proof (countLE_bounds l x) as Hk.
    assert (x < c -> countLE l x = 0) as Habove
        by (intros Hx; now apply (countLE_above l c x Hall)).
    destruct b as [|b].
    + assert (a = O) as -> by lia. cbn [firstn skipn app countLE].
      cbv zeta. destruct (c <=? x) eqn:Ec; split_ifs; lia.
    + destruct a as [|a].
      * cbn [firstn skipn app]. specialize (IH O b ltac:(lia)).
        cbn [firstn app] in IH. rewrite IH. cbv zeta. cbn [countLE].
        destruct (c <=? x) eqn:Ec; split_ifs; lia.
      * cbn [firstn skipn app countLE]. rewrite (IH a b) by lia. cbv zeta.
        destruct (c <=? x) eqn:Ec; split_ifs; lia.
Qed.

Lemma linesAfterRemove_countLE (l : list Z) (a b x : Z) :
  StronglySorted Z.lt l -> 0 <= a ->
  countLE (linesAfterRemove a b l) x = mergedLine a b (countLE l x).
Proof.
  intros Hs Ha. unfold linesAfterRemove, mergedLine.
  rewrite (countLE_remove l x Hs) by lia. cbv zeta.
  rewrite !Z2Nat.id by lia.
  destruct (b <? a) eqn:E.
  - apply Z.ltb_lt in E. rewrite Z.max_l by lia. rewrite orb_true_r.
    pose proof (countLE_bounds l x). split_ifs; lia.
  - apply Z.ltb_ge in E. rewrite Z.max_r by lia. rewrite orb_false_r. reflexivity.
Qed.

Lemma StronglySorted_app_sub (l : list Z) (a b : nat) :
  StronglySorted Z.lt l -> (a <= b)%nat ->
  StronglySorted Z.lt (firstn a l ++ skipn b l).
Proof.
  intros Hs. revert a b. induction Hs as [|c l Hs IH Hall]; intros a b Hab.
  - rewrite firstn_nil, skipn_nil. constructor.
  - destruct b as [|b]; [assert (a = O) as -> by lia; cbn; now constructor|].
    destruct a as [|a]; cbn [firstn skipn app].
    + specialize (IH O b ltac:(lia)). exact IH.
    + constructor; [apply IH; lia|].
      apply Forall_forall. intros y Hy. apply in_app_or in Hy.
      apply (proj1 (Forall_forall _ _) Hall).
      destruct Hy as [Hy|Hy].
      * rewrite <- (firstn_skipn a l). apply in_or_app. now left.
      * rewrite <- (firstn_skipn b l). apply in_or_app. now right.
Qed.

Lemma linesAfterRemove_wf (tf : token.File) (a b : Z) :
  wfFile tf -> 1 <= a ->
  wfFile (token.mkFile (token.base tf) (token.size tf)
            (linesAfterRemove a b (token.lines tf)) (token.infos tf)).
Proof.
  intros [Hb Hh Hs Hbd] Ha. unfold linesAfterRemove. constructor; cbn.
  - exact Hb.
  - destruct (token.lines tf) as [|c l]; [discriminate|].
    destruct (Z.to_nat a) as [|n] eqn:E; [lia|]. exact Hh.
  - apply StronglySorted_app_sub; [exact Hs | lia].
  - apply Forall_forall. intros y Hy. apply in_app_or in Hy.
    apply (proj1 (Forall_forall _ _) Hbd).
    destruct Hy as [Hy|Hy].
    + rewrite <- (firstn_skipn (Z.to_nat a) (token.lines tf)). apply in_or_app. now left.
    + rewrite <- (firstn_skipn (Z.to_nat (Z.max a b)) (token.lines tf)).
      apply in_or_app. now right.
Qed.

(** ** The formatter state around a table update *)

Lemma withLines_withLines (f : fumpter) (l l' : list Z) :
  withLines (withLines f l) l' = withLines f l'.
Proof. reflexivity. Qed.

Lemma withLines_same (f : fumpter) : withLines f (token.lines (tokFile f)) = f.
Proof. apply setFile_same. Qed.

Lemma inF_withLines (f : fumpter) (l : list Z) (p : token.Pos) :
  inF (withLines f l) p <-> inF f p.
Proof. reflexivity. Qed.

Lemma Line_withLines_table (f : fumpter) (l : list Z) (p : token.Pos) :
  wfTable (withLines f l) -> inF f p ->
  tableLine (withLines f l) p = countLE l (p - token.base (tokFile f)).
Proof. intros Hwf Hp. unfold tableLine. now rewrite (Line_countLE _ p Hwf) by exact Hp. Qed.

Lemma Line_withLines (f : fumpter) (l : list Z) (p : token.Pos) :
  wfF (withLines f l) -> inF f p ->
  Line (withLines f l) p = countLE l (p - token.base (tokFile f)).
Proof.
  intros [Hwf Hni] Hp. rewrite (Line_plain (withLines f l) p Hni).
  now apply Line_withLines_table.
Qed.

Lemma Line_F_table (f : fumpter) (p : token.Pos) :
  wfTable f -> inF f p -> tableLine f p = countLE (token.lines (tokFile f)) (p - token.base (tokFile f)).
Proof. intros Hwf Hp. now apply Line_countLE. Qed.

Lemma Line_F (f : fumpter) (p : token.Pos) :
  wfF f -> inF f p -> Line f p = countLE (token.lines (tokFile f)) (p - token.base (tokFile f)).
Proof.
  intros [Hwf Hni] Hp. rewrite (Line_plain f p Hni). now apply Line_F_table.
Qed.

Lemma Line_F_valid_table (f : fumpter) (p : token.Pos) :
  wfTable f -> inF f p -> 1 <= tableLine f p <= token.LineCount (tokFile f).
Proof. intros. now apply Line_valid. Qed.

Lemma Line_F_valid (f : fumpter) (p : token.Pos) :
  wfF f -> inF f p -> 1 <= Line f p <= token.LineCount (tokFile f).
Proof.
  intros [Hwf Hni] Hp. rewrite (Line_plain f p Hni). now apply Line_F_valid_table.
Qed.

Lemma Line_F_mono_table (f : fumpter) (p q : token.Pos) :
  wfTable f -> inF f p -> inF f q -> p <= q -> tableLine f p <= tableLine f q.
Proof. intros. now apply Line_mono. Qed.

Lemma Line_F_mono (f : fumpter) (p q : token.Pos) :
  wfF f -> inF f p -> inF f q -> p <= q -> Line f p <= Line f q.
Proof.
  intros [Hwf Hni] Hp Hq Hpq. rewrite (Line_plain f p Hni), (Line_plain f q Hni).
  now apply Line_F_mono_table.
Qed.

Lemma removeLines_spec_table (f : fumpter) (a b : Z) :
  wfTable f -> 1 <= a -> b <= token.LineCount (tokFile f) ->
  exists l,
    removeLines f a b = Ok (withLines f l)
    /\ wfTable (withLines f l)
    /\ l = linesAfterRemove a b (token.lines (tokFile f))
    /\ forall p, inF f p -> tableLine (withLines f l) p = mergedLine a b (tableLine f p).
Proof.
  intros Hwf Ha Hb. exists (linesAfterRemove a b (token.lines (tokFile f))).
  assert (wfTable (withLines f (linesAfterRemove a b (token.lines (tokFile f))))) as Hwf'
      by (now apply linesAfterRemove_wf).
  split; [now apply removeLines_ok|]. split; [exact Hwf'|]. split; [reflexivity|].
  intros p Hp. rewrite Line_withLines_table by assumption.
  rewrite linesAfterRemove_countLE; [|exact (wf_sorted _ Hwf) | lia].
  now rewrite <- Line_F_table.
Qed.

Lemma removeLines_spec (f : fumpter) (a b : Z) :
  wfF f -> 1 <= a -> b <= token.LineCount (tokFile f) ->
  exists l,
    removeLines f a b = Ok (withLines f l)
    /\ wfF (withLines f l)
    /\ l = linesAfterRemove a b (token.lines (tokFile f))
    /\ forall p, inF f p -> Line (withLines f l) p = mergedLine a b (Line f p).
Proof.
  intros [Hwf Hni] Ha Hb.
  destruct (removeLines_spec_table f a b Hwf Ha Hb) as (l & E & Hwf' & Hl & HL).
  exists l. split; [exact E|]. split; [split; [exact Hwf' | exact Hni]|].
  split; [exact Hl|]. intros p Hp.
  rewrite (Line_plain (withLines f l) p Hni), (Line_plain f p Hni). now apply HL.
Qed.

Lemma removeLinesBetween_spec (f : fumpter) (from to : token.Pos) :
  wfF f -> inF f from -> inF f to ->
  exists l,
    removeLinesBetween f from to = Ok (withLines f l)
    /\ wfF (withLines f l)
    /\ forall p, inF f p ->
         Line (withLines f l) p = mergedLine (Line f from + 1) (Line f to) (Line f p).
Proof.
  intros Hwf Hfrom Hto. unfold removeLinesBetween.
  pose proof (Line_F_valid f from Hwf Hfrom). pose proof (Line_F_valid f to Hwf Hto).
  destruct (removeLines_spec f (Line f from + 1) (Line f to) Hwf) as (l & H1 & H2 & _ & H3);
    [lia | lia |].
  exists l. auto.
Qed.

(** What [removeLinesBetween from to] does to line distances: positions
    up to [from] and positions from [to] on keep their distances, and
    [to] ends up at most one line below [from]. *)
Lemma removeLinesBetween_gaps (f : fumpter) (from to : token.Pos) :
  wfF f -> inF f from -> inF f to -> from <= to ->
  exists l,
    removeLinesBetween f from to = Ok (withLines f l)
    /\ wfF (withLines f l)
    /\ (forall p, inF f p -> p <= from -> Line (withLines f l) p = Line f p)
    /\ (forall p q, inF f p -> inF f q -> to <= p -> to <= q ->
                    gap (withLines f l) p q = gap f p q)
    /\ gap (withLines f l) from to = Z.min 1 (gap f from to).
Proof.
  intros Hwf Hfrom Hto Hle.
  destruct (removeLinesBetween_spec f from to Hwf Hfrom Hto) as (l & H1 & H2 & H3).
  exists l. split; [exact H1|]. split; [exact H2|].
  pose proof (Line_F_mono f from to Hwf Hfrom Hto Hle) as Hft.
  split; [|split].
  - intros p Hp Hpf. rewrite H3 by exact Hp.
    pose proof (Line_F_mono f p from Hwf Hp Hfrom Hpf).
    unfold mergedLine. split_ifs; try lia.
    all: rewrite ?orb_true_iff, ?orb_false_iff, ?Z.leb_le, ?Z.leb_gt, ?Z.ltb_lt, ?Z.ltb_ge in *; lia.
  - intros p q Hp Hq Hpt Hqt. unfold gap. rewrite !H3 by assumption.
    pose proof (Line_F_mono f to p Hwf Hto Hp Hpt).
    pose proof (Line_F_mono f to q Hwf Hto Hq Hqt).
    unfold mergedLine. split_ifs.
    all: rewrite ?orb_true_iff, ?orb_false_iff, ?Z.leb_le, ?Z.leb_gt, ?Z.ltb_lt, ?Z.ltb_ge in *; lia.
  - unfold gap. rewrite !H3 by assumption.
    unfold mergedLine. split_ifs.
    all: rewrite ?orb_true_iff, ?orb_false_iff, ?Z.leb_le, ?Z.leb_gt, ?Z.ltb_lt, ?Z.ltb_ge in *; lia.
Qed.

(** With a line directive the numbers [removeLinesBetween] hands to
    [removeLines] are not lines of the table: the blank line between
    [x := 1] and [y()] is line 3 of 4, the directive makes the two
    statements lines 100 and 102, and [MergeLine(101)] panics. *)
Example removeLinesBetween_after_directive :
  tableLine renumberedFumpter 23 = 2 /\ tableLine renumberedFumpter 25 = 4
  /\ Line renumberedFumpter 23 = 100 /\ Line renumberedFumpter 25 = 102
  /\ removeLinesBetween renumberedFumpter 23 25
     = Panic "invalid line number (should be < LineCount)".
Proof. repeat split. Qed.

(** * Statement lists: the error guard *)

Lemma ordered_withLines (f : fumpter) (l' : list Z) (lo : token.Pos) (l : list ast.Stmt) :
  ordered (withLines f l') lo l <-> ordered f lo l.
Proof.
  revert lo. induction l as [|s l IH]; intros lo; cbn [ordered]; [tauto|].
  rewrite IH. rewrite !inF_withLines. tauto.
Qed.

Lemma ordered_In (f : fumpter) (lo : token.Pos) (l : list ast.Stmt) (s : ast.Stmt) :
  ordered f lo l -> In s l ->
  lo <= ast.Stmt_Pos s /\ ast.Stmt_Pos s <= ast.Stmt_End s
  /\ inF f (ast.Stmt_Pos s) /\ inF f (ast.Stmt_End s).
Proof.
  revert lo. induction l as [|t l IH]; intros lo Ho Hin; [contradiction|].
  cbn [ordered] in Ho. destruct Ho as (H1 & H2 & H3 & H4 & H5).
  destruct Hin as [->|Hin]; [tauto|].
  destruct (IH _ H5 Hin) as (K1 & K2 & K3 & K4).
  split; [lia|]. split; [exact K2|]. split; assumption.
Qed.

Lemma stmts_step_None (f : fumpter) (stmt : ast.Stmt) :
  stmts_step f None stmt = Ok f.
Proof. destruct stmt; reflexivity. Qed.

Lemma stmts_step_errGuard (f : fumpter) (prev stmt : ast.Stmt) :
  assignHasLhs prev ->
  stmts_step f (Some prev) stmt
  = if errGuard prev stmt
    then removeLinesBetween f (ast.Stmt_End prev) (ast.Stmt_Pos stmt)
    else Ok f.
Proof.
  intros Hlhs. destruct stmt as [| ifPos init cond body els | |]; destruct prev as [lhs tp tok rhs| | |];
    try reflexivity.
  cbn [stmts_step errGuard]. destruct lhs as [|l0 ls]; [contradiction|].
  destruct (ast.Token_eqb tok ast.DEFINE); cbn [negb orb andb]; [|reflexivity].
  destruct (identEqual (last ls l0) "err"); cbn [negb orb andb]; [|reflexivity].
  destruct cond; try (destruct init, els; reflexivity).
  destruct init; [destruct els; reflexivity|].
  destruct els; [reflexivity|]. cbn [andb].
  destruct (ast.Token_eqb Op ast.NEQ); cbn [negb orb andb]; [|reflexivity].
  destruct (identEqual cond1 "err"); cbn [negb orb andb]; [|reflexivity].
  destruct (identEqual cond2 "nil"); reflexivity.
Qed.

Lemma stmts_loop_spec (rest : list ast.Stmt) :
  forall (f : fumpter) (s0 : ast.Stmt),
    wfF f -> inF f (ast.Stmt_Pos s0) -> inF f (ast.Stmt_End s0) ->
    ast.Stmt_Pos s0 <= ast.Stmt_End s0 ->
    ordered f (ast.Stmt_End s0) rest ->
    Forall assignHasLhs (s0 :: rest) ->
    exists l',
      stmts_loop f (Some s0) rest = Ok (withLines f l')
      /\ wfF (withLines f l')
      /\ (forall p, inF f p -> p <= ast.Stmt_End s0 -> Line (withLines f l') p = Line f p)
      /\ (forall l1 prev stmt l2,
             s0 :: rest = l1 ++ prev :: stmt :: l2 ->
             gap (withLines f l') (ast.Stmt_End prev) (ast.Stmt_Pos stmt)
             = if errGuard prev stmt
               then Z.min 1 (gap f (ast.Stmt_End prev) (ast.Stmt_Pos stmt))
               else gap f (ast.Stmt_End prev) (ast.Stmt_Pos stmt))
      /\ (forall p q, inF f p -> inF f q ->
             (forall s, In s rest -> ast.Stmt_Pos s <= p /\ ast.Stmt_Pos s <= q) ->
             gap (withLines f l') p q = gap f p q).
Proof.
  induction rest as [|s1 rest IH]; intros f s0 Hwf Hp0 He0 Hpe0 Hord Hlhs.
  - exists (token.lines (tokFile f)). rewrite withLines_same.
    split; [reflexivity|]. split; [exact Hwf|]. split; [reflexivity|].
    split; [|reflexivity].
    intros [|x [|y l1]] prev stmt l2 E; discriminate.
  - cbn [ordered] in Hord. destruct Hord as (H1 & H2 & H3 & H4 & H5).
    inversion Hlhs as [|? ? Hl0 Hl1]; subst.
    cbn [stmts_loop]. rewrite (stmts_step_errGuard f s0 s1 Hl0).
    (* the state after the first step *)
    assert (exists l1,
               (if errGuard s0 s1
                then removeLinesBetween f (ast.Stmt_End s0) (ast.Stmt_Pos s1)
                else Ok f) = Ok (withLines f l1)
               /\ wfF (withLines f l1)
               /\ (forall p, inF f p -> p <= ast.Stmt_End s0 ->
                             Line (withLines f l1) p = Line f p)
               /\ (forall p q, inF f p -> inF f q ->
                               ast.Stmt_Pos s1 <= p -> ast.Stmt_Pos s1 <= q ->
                               gap (withLines f l1) p q = gap f p q)
               /\ gap (withLines f l1) (ast.Stmt_End s0) (ast.Stmt_Pos s1)
                  = if errGuard s0 s1
                    then Z.min 1 (gap f (ast.Stmt_End s0) (ast.Stmt_Pos s1))
                    else gap f (ast.Stmt_End s0) (ast.Stmt_Pos s1)) as Hstep.
    { destruct (errGuard s0 s1).
      - destruct (removeLinesBetween_gaps f _ _ Hwf He0 H3 H1) as (l1 & K1 & K2 & K3 & K4 & K5).
        exists l1. auto.
      - exists (token.lines (tokFile f)). rewrite withLines_same. auto. }
    destruct Hstep as (l1 & -> & Hwf1 & Hlow1 & Hhigh1 & Hgap1). cbn [bind].
    destruct (IH (withLines f l1) s1 Hwf1) as (l' & K1 & K2 & K3 & K4 & K5);
      [assumption | assumption | assumption | now apply ordered_withLines | assumption |].
    rewrite withLines_withLines in *.
    assert (ordered f (ast.Stmt_Pos s1) (s1 :: rest)) as Hord1.
    { cbn [ordered]. split; [lia|]. tauto. }
    exists l'. split; [exact K1|]. split; [exact K2|]. split; [|split].
    + intros p Hp Hle. rewrite K3 by (try assumption; lia). now apply Hlow1.
    + intros l0 prev stmt l2 E. destruct l0 as [|x l0]; cbn [app] in E.
      * injection E as <- <- <-. rewrite <- Hgap1. unfold gap.
        rewrite !K3 by (try assumption; lia). reflexivity.
      * injection E as <- E. rewrite (K4 _ _ _ _ E).
        assert (In prev (s1 :: rest) /\ In stmt (s1 :: rest)) as [Hin1 Hin2].
        { rewrite E. split; apply in_or_app; right; cbn; auto. }
        destruct (ordered_In _ _ _ _ Hord1 Hin1) as (A1 & A2 & A3 & A4).
        destruct (ordered_In _ _ _ _ Hord1 Hin2) as (B1 & B2 & B3 & B4).
        rewrite Hhigh1 by (try assumption; lia). reflexivity.
    + intros p q Hp Hq Hall.
      rewrite K5; [| assumption | assumption |].
      * apply Hhigh1; try assumption; apply (Hall s1); now left.
      * intros s Hs. apply Hall. now right.
Qed.

(** [stmts] only touches the lines between the statements of the list:
    positions before the list keep their lines, positions behind it
    their distances. *)
Lemma stmts_frame (f : fumpter) (lo : token.Pos) (l : list ast.Stmt) :
  wfF f -> ordered f lo l -> Forall assignHasLhs l ->
  exists l',
    stmts f l = Ok (withLines f l')
    /\ wfF (withLines f l')
    /\ (forall p, inF f p -> (forall s, In s l -> p <= ast.Stmt_Pos s) ->
                  Line (withLines f l') p = Line f p)
    /\ (forall p q, inF f p -> inF f q ->
                    (forall s, In s l -> ast.Stmt_Pos s <= p /\ ast.Stmt_Pos s <= q) ->
                    gap (withLines f l') p q = gap f p q).
Proof.
  intros Hwf Hord Hlhs. unfold stmts. destruct l as [|s0 rest].
  - exists (token.lines (tokFile f)). rewrite withLines_same.
    split; [reflexivity|]. split; [exact Hwf|]. split; reflexivity.
  - cbn [stmts_loop]. rewrite stmts_step_None. cbn [bind].
    cbn [ordered] in Hord. destruct Hord as (H1 & H2 & H3 & H4 & H5).
    destruct (stmts_loop_spec rest f s0 Hwf H3 H4 H2 H5 Hlhs) as (l' & K1 & K2 & K3 & _ & K5).
    exists l'. split; [exact K1|]. split; [exact K2|]. split.
    + intros p Hp Hall. apply K3; [exact Hp|].
      specialize (Hall s0 ltac:(now left)). lia.
    + intros p q Hp Hq Hall. apply K5; try assumption.
      intros s Hs. apply Hall. now right.
Qed.

(** C8 (as amended).  In a file without line directives and a statement
    list in source order, [stmts] never panics; for every two adjacent statements, if the first is a [:=]
    assignment whose last target is [err] and the second is
    [if err != nil] without init clause or else branch, the guard ends up
    at most one line below the end of the assignment (no blank line is
    left); for every other adjacent pair, an [if] with an init clause, an
    else branch or any other condition included, the distance is what it
    was. *)
Theorem stmts_joins_err_guard (f : fumpter) (l : list ast.Stmt) :
  wfF f -> ordered f (token.base (tokFile f)) l -> Forall assignHasLhs l ->
  exists f',
    stmts f l = Ok f'
    /\ wfF f'
    /\ forall l1 prev stmt l2,
         l = l1 ++ prev :: stmt :: l2 ->
         gap f' (ast.Stmt_End prev) (ast.Stmt_Pos stmt)
         = if errGuard prev stmt
           then Z.min 1 (gap f (ast.Stmt_End prev) (ast.Stmt_Pos stmt))
           else gap f (ast.Stmt_End prev) (ast.Stmt_Pos stmt).
Proof.
  intros Hwf Hord Hlhs. unfold stmts. destruct l as [|s0 rest].
  - exists f. split; [reflexivity|]. split; [exact Hwf|].
    intros [|x l1] prev stmt l2 E; discriminate.
  - cbn [stmts_loop]. rewrite stmts_step_None. cbn [bind].
    cbn [ordered] in Hord. destruct Hord as (H1 & H2 & H3 & H4 & H5).
    destruct (stmts_loop_spec rest f s0 Hwf H3 H4 H2 H5 Hlhs) as (l' & K1 & K2 & _ & K4 & _).
    exists (withLines f l'). auto.
Qed.

Lemma errFumpter_wf : wfF errFumpter.
Proof.
  split; [|reflexivity].
  constructor; cbn; [lia | reflexivity | | ]; repeat constructor; lia.
Qed.

Lemma stmts_joins_err_guard_witness :
  exists f',
    stmts errFumpter [errAssign; errGuardStmt ast.NEQ] = Ok f'
    /\ gap errFumpter (ast.Stmt_End errAssign) (ast.Stmt_Pos (errGuardStmt ast.NEQ)) = 2
    /\ gap f' (ast.Stmt_End errAssign) (ast.Stmt_Pos (errGuardStmt ast.NEQ)) = 1.
Proof.
  destruct (stmts_joins_err_guard errFumpter [errAssign; errGuardStmt ast.NEQ] errFumpter_wf)
    as (f' & H1 & _ & H3).
  - cbn. unfold inF, inFile. cbn. lia.
  - repeat constructor.
  - exists f'. split; [exact H1|]. split; [reflexivity|].
    rewrite (H3 [] _ _ [] eq_refl). reflexivity.
Defined.

(** C8 as stated fails: the guard [if err == nil] is a single comparison
    of the error name against nil, with no init clause and no else branch,
    yet [stmts] leaves the blank line before it. *)
Lemma stmts_keeps_blank_before_eq_guard :
  nilComparisonGuard errAssign (errGuardStmt ast.EQL) = true
  /\ stmts errFumpter [errAssign; errGuardStmt ast.EQL] = Ok errFumpter
  /\ gap errFumpter (ast.Stmt_End errAssign) (ast.Stmt_Pos (errGuardStmt ast.EQL)) = 2.
Proof. repeat split. Qed.

(** * The comment index *)

Lemma Search_loop_spec (p : Z -> bool) (fuel : nat) :
  forall i j, i <= j -> j - i <= Z.of_nat fuel -> monotoneOn p i j ->
    let r := sort.Search_loop fuel p i j in
    i <= r <= j
    /\ (forall k, i <= k < r -> p k = false)
    /\ (forall k, r <= k < j -> p k = true).
Proof.
  induction fuel as [|fuel IH]; intros i j Hij Hfuel Hmono; cbn [sort.Search_loop].
  - cbv zeta. split; [lia|]. split; intros k Hk; lia.
  - destruct (i <? j) eqn:E.
    + apply Z.ltb_lt in E.
      assert (i <= Z.shiftr (i + j) 1 < j) as Hh.
      { rewrite Z.shiftr_div_pow2 by lia. change (2 ^ 1) with 2.
        split; [apply Z.div_le_lower_bound | apply Z.div_lt_upper_bound]; lia. }
      set (h := Z.shiftr (i + j) 1) in *. cbv zeta.
      destruct (p h) eqn:Ph; cbn [negb].
      * destruct (IH i h) as (R1 & R2 & R3); [lia | lia | |].
        { intros k k' A B C. apply Hmono; lia. }
        split; [lia|]. split; [exact R2|].
        intros k Hk. destruct (Z.lt_ge_cases k h) as [Hlt|Hge]; [apply R3; lia|].
        apply (Hmono h k); lia || assumption.
      * destruct (IH (h + 1) j) as (R1 & R2 & R3); [lia | lia | |].
        { intros k k' A B C. apply Hmono; lia. }
        split; [lia|]. split; [|exact R3].
        intros k Hk. destruct (Z.lt_ge_cases k (h + 1)) as [Hlt|Hge]; [|apply R2; lia].
        destruct (p k) eqn:Pk; [|reflexivity].
        rewrite <- Ph. symmetry. apply (Hmono k h); lia || assumption.
    + apply Z.ltb_ge in E. cbv zeta. split; [lia|]. split; intros k Hk; lia.
Qed.

Lemma Search_spec (p : Z -> bool) (n : Z) :
  0 <= n -> monotoneOn p 0 n ->
  0 <= sort.Search n p <= n
  /\ (forall k, 0 <= k < sort.Search n p -> p k = false)
  /\ (forall k, sort.Search n p <= k < n -> p k = true).
Proof.
  intros Hn Hmono. unfold sort.Search.
  apply (Search_loop_spec p (S (Z.to_nat n)) 0 n); [lia | lia | exact Hmono].
Qed.

Lemma find_first {A : Type} (q : A -> bool) (d : A) (l : list A) (r : nat) :
  (r <= List.length l)%nat ->
  (forall k, (k < r)%nat -> q (nth k l d) = false) ->
  ((r < List.length l)%nat -> q (nth r l d) = true) ->
  find q l = nth_error l r.
Proof.
  revert r. induction l as [|x l IH]; intros r Hr Hlow Hat.
  - cbn in Hr. assert (r = O) as -> by lia. reflexivity.
  - destruct r as [|r]; cbn [find nth_error].
    + pose proof (Hat ltac:(cbn; lia)) as H0. cbn [nth] in H0. now rewrite H0.
    + pose proof (Hlow O ltac:(lia)) as H0. cbn [nth] in H0. rewrite H0. apply IH.
      * cbn in Hr. lia.
      * intros k Hk. apply (Hlow (S k)). lia.
      * intros Hlt. apply Hat. cbn. lia.
Qed.

Lemma StronglySorted_nth {A : Type} (R : A -> A -> Prop) (d : A) (l : list A) :
  StronglySorted R l ->
  forall i j, (i < j)%nat -> (j < List.length l)%nat -> R (nth i l d) (nth j l d).
Proof.
  induction 1 as [|x l Hs IH Hall]; intros i j Hij Hj; [cbn in Hj; lia|].
  destruct j as [|j]; [lia|]. cbn in Hj. destruct i as [|i]; cbn [nth].
  - apply (proj1 (Forall_forall _ _) Hall). apply nth_In. lia.
  - apply IH; lia.
Qed.

Lemma find_none {A : Type} (q : A -> bool) (l : list A) :
  (forall x, In x l -> q x = false) -> find q l = None.
Proof.
  induction l as [|x l IH]; intros H; [reflexivity|].
  cbn [find]. rewrite (H x) by now left. apply IH. intros y Hy. apply H. now right.
Qed.

(** C7 (as amended).  In a file without line directives, with the
    comments sorted by position, [inlineComment] agrees with the
    specification's query: it looks at the first comment group at or after
    [pos] and returns that group's first token when the token is on the
    line of [pos], and nothing otherwise; a later token of the group is
    never returned. *)
Theorem inlineComment_first_token (f : fumpter) (pos : token.Pos) :
  wfF f -> inF f pos -> sortedComments f ->
  inlineComment f pos = inlineCommentAfter f pos.
Proof.
  intros Hwf Hpos [Hs Ht]. unfold inlineComment, inlineCommentAfter.
  set (comments := ast.Comments (astFile f)) in *.
  set (p := fun i => pos <=? ast.CommentGroup_Pos (index comments i dummyGroup)).
  assert (monotoneOn p 0 (len comments)) as Hmono.
  { intros k k' Hk Hkk' Hk' Pk. unfold p, index in *.
    apply Z.leb_le in Pk. apply Z.leb_le.
    destruct (Z.eq_dec k k') as [->|Hne]; [exact Pk|].
    pose proof (StronglySorted_nth _ dummyGroup comments Hs (Z.to_nat k) (Z.to_nat k')
                  ltac:(lia) ltac:(unfold len in Hk'; lia)) as Hle.
    cbv beta in Hle. lia. }
  destruct (Search_spec p (len comments) ltac:(unfold len; lia) Hmono) as (R1 & R2 & R3).
  set (i := sort.Search (len comments) p) in *.
  rewrite (find_first (fun g => pos <=? ast.CommentGroup_Pos g) dummyGroup comments (Z.to_nat i)).
  - destruct (len comments <=? i) eqn:E.
    + apply Z.leb_le in E. rewrite (proj2 (nth_error_None comments (Z.to_nat i))); [reflexivity|].
      unfold len in E. lia.
    + apply Z.leb_gt in E.
      rewrite (nth_error_nth' comments dummyGroup) by (unfold len in E; lia).
      unfold index. set (g := nth (Z.to_nat i) comments dummyGroup).
      assert (In g comments) as Hin by (apply nth_In; unfold len in E; lia).
      destruct (proj1 (Forall_forall _ _) Ht g Hin) as [Hne Htok].
      assert (pos <= ast.CommentGroup_Pos g) as Hge.
      { specialize (R3 i ltac:(lia)). unfold p, index in R3. now apply Z.leb_le in R3. }
      destruct (ast.List g) as [|c cs] eqn:EL; [contradiction|].
      cbn [find]. destruct (Line f (ast.Comment_Pos c) =? Line f pos) eqn:EC; [reflexivity|].
      apply Z.eqb_neq in EC. apply find_none. intros c' Hc'.
      apply Z.eqb_neq.
      inversion Htok as [|? ? [Hc1 Hc2] Hrest]; subst.
      destruct (proj1 (Forall_forall _ _) Hrest c' Hc') as [Hc'1 Hc'2].
      unfold ast.CommentGroup_Pos in Hge, Hc'2. rewrite EL in Hge, Hc'2. cbn [hd] in Hge, Hc'2.
      pose proof (Line_F_mono f pos (ast.Comment_Pos c) Hwf Hpos Hc1 Hge).
      pose proof (Line_F_mono f (ast.Comment_Pos c) (ast.Comment_Pos c') Hwf Hc1 Hc'1 Hc'2).
      lia.
  - unfold len in R1. lia.
  - intros k Hk. specialize (R2 (Z.of_nat k) ltac:(lia)).
    unfold p, index in R2. now rewrite Nat2Z.id in R2.
  - intros Hlt. specialize (R3 i ltac:(unfold len; lia)). exact R3.
Qed.

Lemma commentFumpter_wf : wfF commentFumpter.
Proof.
  split; [|reflexivity].
  constructor; cbn; [lia | reflexivity | | ]; repeat constructor; lia.
Qed.

Lemma commentFumpter_sorted : sortedComments commentFumpter.
Proof.
  constructor; cbn.
  - repeat constructor; cbn; lia.
  - repeat constructor; cbn; try discriminate; lia.
Qed.

Lemma inlineComment_first_token_witness :
  inlineComment commentFumpter 7 = Some (ast.mkComment 8 "// a")
  /\ inlineComment commentFumpter 9 = None.
Proof.
  split.
  - rewrite (inlineComment_first_token commentFumpter 7 commentFumpter_wf
               ltac:(cbv; split; discriminate) commentFumpter_sorted).
    reflexivity.
  - rewrite (inlineComment_first_token commentFumpter 9 commentFumpter_wf
               ltac:(cbv; split; discriminate) commentFumpter_sorted).
    reflexivity.
Defined.

(** C7 as stated fails in a file with a line directive.  The end of
    [var x = 1] is on line 4; the first comment group after it starts on
    line 5 with the directive, and the directive gives the second comment
    of the group the line number 4: the loop over the group passes the
    first token and returns the second. *)
Lemma inlineComment_returns_later_token :
  wfTable directiveFumpter /\ sortedComments directiveFumpter
  /\ inF directiveFumpter 31
  /\ Line directiveFumpter 31 = 4
  /\ Line directiveFumpter 32 = 5
  /\ Line directiveFumpter 42 = 4
  /\ inlineComment directiveFumpter 31 = Some (ast.mkComment 42 "// c2")
  /\ inlineCommentAfter directiveFumpter 31 = None.
Proof.
  split.
  { constructor; cbn; [lia | reflexivity | | ]; repeat constructor; lia. }
  split.
  { constructor; cbn.
    - repeat constructor.
    - repeat constructor; try discriminate; unfold inF, inFile; cbn; lia. }
  split; [unfold inF, inFile; cbn; lia|].
  repeat split.
Qed.

(** * Integer literals *)

Lemma byteOf_inj (c a : ascii) : byteOf c = byteOf a -> c = a.
Proof.
  unfold byteOf. intros H. apply N2Z.inj in H.
  rewrite <- (ascii_N_embedding c), <- (ascii_N_embedding a). now rewrite H.
Qed.

Lemma isByte_true (n : Z) (c a : ascii) : isByte n c = true -> byteOf a = n -> c = a.
Proof.
  unfold isByte. intros H E. apply Z.eqb_eq in H. apply byteOf_inj. congruence.
Qed.

Lemma isByte_false (n : Z) (c a : ascii) : byteOf a = n -> c <> a -> isByte n c = false.
Proof.
  unfold isByte. intros E H. apply Z.eqb_neq. intros K. apply H. apply byteOf_inj. congruence.
Qed.

Lemma allOctalOrUnderscore_value (s : string) (acc : Z) :
  allOctalOrUnderscore s = true -> exists v, octalDigits acc s = Some v.
Proof.
  revert acc. induction s as [|c s IH]; intros acc H; cbn [octalDigits].
  - now exists acc.
  - cbn [allOctalOrUnderscore] in H. apply andb_true_iff in H. destruct H as [Hc Hs].
    destruct (isByte 95 c); [now apply IH|].
    cbn [orb] in Hc. rewrite orb_false_r in Hc. rewrite Hc. now apply IH.
Qed.

(** C6.  An integer literal of the legacy octal shape is rewritten to the
    [0o] spelling exactly when the language version is at least 1.13: the
    digits after the leading zero are kept, so the value of the literal is
    the same; below that version the literal is left as it is. *)
Theorem octal_literal_modernised (f : fumpter) (pos : token.Pos) (value : string) :
  rxOctalInteger value = true ->
  exists digits v,
    value = ("0" ++ digits)%string
    /\ octalLitValue value = Some v
    /\ octalLitValue ("0o" ++ digits) = Some v
    /\ applyPre_BasicLit f (ast.BasicLit pos ast.INT value)
       = if 0 <=? semver.Compare (LangVersion (fOptions f)) "v1.13"
         then ast.BasicLit pos ast.INT ("0o" ++ digits)
         else ast.BasicLit pos ast.INT value.
Proof.
  intros Hrx. destruct value as [|z [|c rest]]; try discriminate.
  cbn [rxOctalInteger] in Hrx. apply andb_true_iff in Hrx. destruct Hrx as [Hz Hd].
  assert (z = "0"%char) as -> by (now apply (isByte_true 48)).
  destruct (allOctalOrUnderscore_value (String c rest) 0 Hd) as [v Hv].
  exists (String c rest), v. split; [reflexivity|].
  assert (isByte 111 c || isByte 79 c = false) as Hc.
  { cbn [allOctalOrUnderscore] in Hd. apply andb_true_iff in Hd. destruct Hd as [Hd _].
    unfold isByte, inRange in *.
    apply orb_true_iff in Hd. apply orb_false_iff.
    rewrite !Z.eqb_neq. destruct Hd as [Hd|Hd].
    - apply andb_true_iff in Hd. rewrite !Z.leb_le in Hd. lia.
    - apply Z.eqb_eq in Hd. lia. }
  split; [|split].
  - cbn [octalLitValue]. change (isByte 48 "0") with true. cbn [negb]. now rewrite Hc.
  - exact Hv.
  - cbn [applyPre_BasicLit]. change (ast.Token_eqb ast.INT ast.INT) with true.
    change (rxOctalInteger (String "0" (String c rest)))
      with (true && allOctalOrUnderscore (String c rest)).
    rewrite Hd. reflexivity.
Qed.

Lemma octal_literal_modernised_witness :
  applyPre_BasicLit (setOptions sampleFumpter (mkOptions "v1.13" false))
    (ast.BasicLit 5 ast.INT "0755") = ast.BasicLit 5 ast.INT "0o755"
  /\ applyPre_BasicLit (setOptions sampleFumpter (mkOptions "v1.12" false))
       (ast.BasicLit 5 ast.INT "0755") = ast.BasicLit 5 ast.INT "0755"
  /\ octalLitValue "0755" = Some 493
  /\ octalLitValue "0o755" = Some 493.
Proof.
  destruct (octal_literal_modernised (setOptions sampleFumpter (mkOptions "v1.13" false))
              5 "0755" eq_refl) as (d1 & v1 & E1 & V1 & W1 & R1).
  destruct (octal_literal_modernised (setOptions sampleFumpter (mkOptions "v1.12" false))
              5 "0755" eq_refl) as (d2 & v2 & E2 & V2 & W2 & R2).
  injection E1 as <-. injection E2 as <-.
  split; [exact R1|]. split; [exact R2|]. split; reflexivity.
Defined.

(** * [File] and the language version *)

(** C10.  [File] reads an empty [LangVersion] as [v1] and puts a [v] in
    front of a version that lacks it; if the result is not a valid
    semantic version it panics whatever the traversal would have done,
    and otherwise it runs the traversal from the initial state with the
    normalised version. *)
Theorem File_checks_LangVersion
  (Apply : fumpter -> ast.File -> result fumpter)
  (tf : token.File) (file : ast.File) (opts : Options) :
  let v := LangVersion (normalizeLangVersion opts) in
  (v = if String.eqb (LangVersion opts) "" then "v1"%string
       else if HasPrefix (LangVersion opts) "v" then LangVersion opts
            else ("v" ++ LangVersion opts)%string)
  /\ ExtraRules (normalizeLangVersion opts) = ExtraRules opts
  /\ File Apply tf file opts
     = if semver.IsValid v
       then Apply (mkFumpter (normalizeLangVersion opts) tf file 0 0.4%float) file
       else Panic ("invalid semver string: " ++ v).
Proof.
  cbv zeta. split; [|split].
  - unfold normalizeLangVersion. destruct opts as [[|c s] e]; cbn [LangVersion]; [reflexivity|].
    cbn [String.eqb HasPrefix].
    destruct (Ascii.eqb c "v") eqn:E.
    + apply Ascii.eqb_eq in E. subst c. destruct s; reflexivity.
    + cbn [andb]. apply Ascii.eqb_neq in E.
      now rewrite (isByte_false 118 c "v" eq_refl E).
  - unfold normalizeLangVersion. destruct opts as [[|c s] e]; cbn [LangVersion ExtraRules];
      [reflexivity|]. destruct (negb (isByte 118 c)); reflexivity.
  - unfold File. destruct (semver.IsValid (LangVersion (normalizeLangVersion opts))); reflexivity.
Qed.

Example File_LangVersion_samples :
  forall Apply tf file,
    (exists msg, File Apply tf file (mkOptions "1.x" false) = Panic msg)
    /\ File Apply tf file (mkOptions "" true)
       = Apply (mkFumpter (mkOptions "v1" true) tf file 0 0.4%float) file
    /\ File Apply tf file (mkOptions "1.16" false)
       = Apply (mkFumpter (mkOptions "v1.16" false) tf file 0 0.4%float) file.
Proof.
  intros Apply tf file. split; [eexists; reflexivity|]. split; reflexivity.
Qed.

(** * Comment spacing *)

Lemma String_eqb_shorter (s : string) (a b : ascii) :
  String.eqb s (String a (String b s)) = false.
Proof.
  apply String.eqb_neq. intros H.
  apply (f_equal String.length) in H. cbn in H. lia.
Qed.

Lemma HasPrefix_marker (t : string) :
  HasPrefix t "//" = true -> t = ("//" ++ TrimPrefix t "//")%string.
Proof.
  unfold TrimPrefix. intros H. rewrite H.
  destruct t as [|a [|b t]]; cbn in H; try discriminate.
  - now rewrite andb_false_r in H.
  - apply andb_true_iff in H. destruct H as [Ha Hb].
    apply andb_true_iff in Hb. destruct Hb as [Hb _].
    apply Ascii.eqb_eq in Ha, Hb. subst. reflexivity.
Qed.

Lemma TrimPrefix_unchanged (t : string) :
  String.eqb (TrimPrefix t "//") t = negb (HasPrefix t "//").
Proof.
  destruct (HasPrefix t "//") eqn:H.
  - rewrite (HasPrefix_marker t H) at 2. cbn [negb append]. apply String_eqb_shorter.
  - unfold TrimPrefix. rewrite H. apply String.eqb_refl.
Qed.

Lemma skipsGroup_plain (dm : string -> Z) (lt nt : Z -> bool) (c : ast.Comment) :
  skipsGroup dm lt nt c = negb (plainLineComment dm lt nt c).
Proof.
  unfold skipsGroup, plainLineComment. rewrite TrimPrefix_unchanged.
  destruct (HasPrefix (ast.Text c) "//"); cbn [negb andb]; [|reflexivity].
  destruct (rxCommentDirective (TrimPrefix (ast.Text c) "//")); cbn [negb andb]; [reflexivity|].
  rewrite !negb_orb. reflexivity.
Qed.

Lemma existsb_skipsGroup (dm : string -> Z) (lt nt : Z -> bool) (l : list ast.Comment) :
  existsb (skipsGroup dm lt nt) l = negb (forallb (plainLineComment dm lt nt) l).
Proof.
  induction l as [|c l IH]; cbn [existsb forallb]; [reflexivity|].
  rewrite IH, skipsGroup_plain, negb_andb. reflexivity.
Qed.

(** C4 (as amended).  A comment group is rewritten only if every comment
    of it is a plain line comment; then each comment whose body does not
    start with white space gets exactly one space after the marker, and a
    comment whose body already starts with white space (one space or
    several, a tab) is left as it is.  Either way the marker is then
    followed by white space.  A group with a block comment, a directive
    or a code-like line is left as it is, plain comments included. *)
Theorem groupLoop_adds_missing_space
  (dm : string -> Z) (lt nt : Z -> bool) (g : ast.CommentGroup) :
  (if forallb (plainLineComment dm lt nt) (ast.List g)
   then ast.List (groupLoop_body dm lt nt g) = map (addSpace dm) (ast.List g)
   else groupLoop_body dm lt nt g = g)
  /\ forall c, plainLineComment dm lt nt c = true ->
       exists body,
         ast.Text c = ("//" ++ body)%string
         /\ ast.Slash (addSpace dm c) = ast.Slash c
         /\ ast.Text (addSpace dm c)
            = (if IsSpace (DecodeRuneInString dm body) then ast.Text c
               else ("// " ++ body)%string)
         /\ IsSpace (DecodeRuneInString dm (TrimPrefix (ast.Text (addSpace dm c)) "//")) = true.
Proof.
  split.
  - unfold groupLoop_body. rewrite existsb_skipsGroup.
    destruct (forallb (plainLineComment dm lt nt) (ast.List g)); reflexivity.
  - intros c Hc. unfold plainLineComment in Hc.
    apply andb_true_iff in Hc. destruct Hc as [Hc _].
    apply andb_true_iff in Hc. destruct Hc as [Hp _].
    exists (TrimPrefix (ast.Text c) "//"). split; [now apply HasPrefix_marker|].
    unfold addSpace.
    destruct (IsSpace (DecodeRuneInString dm (TrimPrefix (ast.Text c) "//"))) eqn:E;
      cbn [negb ast.Slash ast.Text].
    + repeat split. exact E.
    + repeat split.
Qed.

(** C4 as stated fails.  A comment with two spaces after the marker is a
    plain line comment, and the formatter keeps both spaces; and a plain
    comment that shares its group with a directive is not touched at
    all. *)
Lemma groupLoop_keeps_extra_spaces :
  (forall dm lt nt,
      plainLineComment dm lt nt (ast.mkComment 1 "//  two") = true
      /\ groupLoop_body dm lt nt (ast.mkCommentGroup [ast.mkComment 1 "//  two"])
         = ast.mkCommentGroup [ast.mkComment 1 "//  two"])
  /\ exactlyOneSpace "//  two" = false
  /\ (forall dm lt nt,
         plainLineComment dm lt nt (ast.mkComment 1 "//none") = true
         /\ groupLoop_body dm lt nt
              (ast.mkCommentGroup [ast.mkComment 1 "//none"; ast.mkComment 8 "//go:generate x"])
            = ast.mkCommentGroup [ast.mkComment 1 "//none"; ast.mkComment 8 "//go:generate x"])
  /\ exactlyOneSpace "//none" = false.
Proof.
  split; [intros; split; reflexivity|]. split; [reflexivity|].
  split; [intros; split; reflexivity | reflexivity].
Qed.

Example groupLoop_sample :
  forall dm lt nt,
    groupLoop_body dm lt nt
      (ast.mkCommentGroup [ast.mkComment 1 "//first"; ast.mkComment 9 "// second"])
    = ast.mkCommentGroup [ast.mkComment 1 "// first"; ast.mkComment 9 "// second"].
Proof. reflexivity. Qed.

Lemma groupLoop_adds_missing_space_witness :
  ast.Text (addSpace (fun _ => RuneError) (ast.mkComment 1 "//first")) = "// first"%string
  /\ ast.Text (addSpace (fun _ => RuneError) (ast.mkComment 1 "//   kept")) = "//   kept"%string.
Proof.
  destruct (groupLoop_adds_missing_space (fun _ => RuneError) (fun _ => false) (fun _ => false)
              (ast.mkCommentGroup [])) as [_ H].
  destruct (H (ast.mkComment 1 "//first") eq_refl) as (b1 & E1 & _ & T1 & _).
  destruct (H (ast.mkComment 1 "//   kept") eq_refl) as (b2 & E2 & _ & T2 & _).
  cbn [ast.Text] in E1, E2. injection E1 as <-. injection E2 as <-.
  split; [exact T1 | exact T2].
Defined.

(** * Long-line splitting *)

Lemma lineEnd_ok_table (f : fumpter) (p : token.Pos) :
  wfTable f -> inF f p -> lineEnd f (tableLine f p) = Ok (lineEndPos f (tableLine f p)).
Proof.
  intros Hwf Hp. pose proof (Line_F_valid_table f p Hwf Hp) as Hv.
  unfold lineEnd, lineEndPos.
  replace (tableLine f p <? 1) with false by (symmetry; apply Z.ltb_ge; lia).
  replace (token.LineCount (tokFile f) <? tableLine f p) with false
    by (symmetry; apply Z.ltb_ge; lia).
  destruct (tableLine f p =? token.LineCount (tokFile f)) eqn:E; [reflexivity|].
  apply Z.eqb_neq in E. unfold token.LineStart.
  replace (tableLine f p + 1 <? 1) with false by (symmetry; apply Z.ltb_ge; lia).
  replace (token.LineCount (tokFile f) <? tableLine f p + 1) with false
    by (symmetry; apply Z.ltb_ge; lia).
  cbn [bind]. replace (tableLine f p + 1 - 1) with (tableLine f p) by lia. reflexivity.
Qed.

Lemma lineEnd_ok (f : fumpter) (p : token.Pos) :
  wfF f -> inF f p -> lineEnd f (Line f p) = Ok (lineEndPos f (Line f p)).
Proof.
  intros [Hwf Hni] Hp. rewrite (Line_plain f p Hni). now apply lineEnd_ok_table.
Qed.

Lemma minSplitLength_values (f : fumpter) :
  minSplitLength (setMinSplitFactor f 0.4%float) = 40
  /\ minSplitLength (setMinSplitFactor f 0.6%float) = 60
  /\ minSplitLength (setMinSplitFactor f 1000%float) = 100000.
Proof. repeat split. Qed.

Lemma splitFactorContext_holds : splitFactorContext.
Proof.
  unfold splitFactorContext. split; [|split; [|split]].
  - intros st self ft results Htop Hres. cbn [pre_switch]. rewrite Htop.
    cbn [ptr_eqb]. rewrite Z.eqb_refl. cbn [negb]. rewrite Z.eqb_refl, Hres.
    split; reflexivity.
  - intros st self ft params Htop. cbn [pre_switch]. rewrite Htop.
    cbn [ptr_eqb]. rewrite !Z.eqb_refl. cbn [negb].
    destruct (match params with Some x => x =? self | None => false end); split; reflexivity.
  - intros st ft Htop. cbn [post_switch]. rewrite Htop. cbn [ptr_eqb].
    rewrite Z.eqb_refl. split; reflexivity.
  - intros st self ft params results H. cbn [pre_switch]. rewrite H. reflexivity.
Qed.

(** [splitLongLine] up to the start-column test: where one of the early
    tests fails nothing happens. *)
Lemma splitLongLine_early (env : string) (f : fumpter) (c : Cursor) (node : ast.Node) :
  cNode c = Some node ->
  reachesLengths env f c node
  \/ (~ reachesLengths env f c node /\ splitLongLine env f c = Ok f).
Proof.
  intros Hnode. unfold splitLongLine, reachesLengths. rewrite Hnode.
  destruct (String.eqb env "on") eqn:Eenv; cbn [negb].
  2:{ right. split; [|reflexivity]. intros (H & _).
      apply String.eqb_neq in Eenv. contradiction. }
  apply String.eqb_eq in Eenv.
  destruct (Line f (ast.Node_Pos node) =? Line f (ast.Node_End node)) eqn:Eline; cbn [negb].
  2:{ right. split; [|reflexivity]. intros (_ & H & _).
      apply Z.eqb_neq in Eline. contradiction. }
  apply Z.eqb_eq in Eline.
  destruct (cParentIsBinaryExpr c || (0 <=? cIndex c)) eqn:Emem; cbn [negb].
  2:{ right. split; [|reflexivity]. intros (_ & _ & H & _). apply orb_false_iff in Emem.
      destruct Emem as [E1 E2]. apply Z.leb_gt in E2. destruct H; [congruence | lia]. }
  assert (cParentIsBinaryExpr c = true \/ 0 <= cIndex c) as Hmem.
  { apply orb_true_iff in Emem. destruct Emem as [E|E]; [now left | right; now apply Z.leb_le]. }
  match goal with
  | |- context [if ?s <=? shortLineLimit then _ else _] =>
      assert (s = startCol f node) as ->
  end.
  { unfold startCol, startColumn. destruct node as [[]| |]; reflexivity. }
  destruct (startCol f node <=? shortLineLimit) eqn:Estart.
  - right. split; [|reflexivity]. intros (_ & _ & _ & H). apply Z.leb_le in Estart. lia.
  - left. apply Z.leb_gt in Estart. auto.
Qed.

(** [splitLongLine] past the start-column test: the two lengths, and
    then the decision. *)
Lemma splitLongLine_lengths (env : string) (f : fumpter) (c : Cursor) (node : ast.Node) :
  wfF f -> cNode c = Some node -> inF f (ast.Node_Pos node) ->
  reachesLengths env f c node ->
  splitLongLine env f c
  = if firstLength f node <? 0 then Panic "negative length"
    else if secondLength f node <? 0 then Panic "negative length"
    else if (longLineLimit <? endCol f node)
            && (minSplitLength f <=? firstLength f node)
            && (minSplitLength f <=? secondLength f node)
         then addNewline f (newlinePos node)
         else Ok f.
Proof.
  intros Hwf Hnode Hpos (Henv & Hline & Hmem & Hstart).
  unfold splitLongLine. rewrite Hnode.
  replace (String.eqb env "on") with true by (symmetry; now apply String.eqb_eq).
  cbn [negb].
  replace (Line f (ast.Node_Pos node) =? Line f (ast.Node_End node)) with true
    by (symmetry; now apply Z.eqb_eq).
  cbn [negb].
  replace (cParentIsBinaryExpr c || (0 <=? cIndex c)) with true
    by (symmetry; apply orb_true_iff; destruct Hmem; [now left | right; now apply Z.leb_le]).
  cbn [negb].
  match goal with
  | |- context [if ?s <=? shortLineLimit then _ else _] =>
      assert (s = startCol f node) as ->
  end.
  { unfold startCol, startColumn. destruct node as [[]| |]; reflexivity. }
  replace (startCol f node <=? shortLineLimit) with false by (symmetry; apply Z.leb_gt; lia).
  rewrite (lineEnd_ok f _ Hwf Hpos). cbn [bind].
  fold (startColumn f node). fold (firstLength f node). fold (secondLength f node).
  fold (endCol f node).
  match goal with
  | |- context [addNewline f ?p] => change p with (newlinePos node)
  end.
  reflexivity.
Qed.

(** C5 (as amended).  In a file without line directives and with
    splitting enabled, for a node of a list that is on one line and whose
    estimated start column exceeds the short-line limit of 60,
    [splitLongLine] panics if the column of the node is smaller than the
    block depth or the end of its line lies before it; otherwise it puts a
    break at the node (at the first element of a composite literal) if
    and only if its end column with the [7 * depth] allowance exceeds 100
    and both halves are at least [int(minSplitFactor * 100)] long.  In
    every other case, and always when the end column is at most 100, the
    table is left alone.  The factor is 0.4 by default (40 columns), 0.6
    inside the parameter list of a top-level function (60 columns) and
    1000 inside its result list (100000 columns, so no shorter line is
    split there). *)
Theorem splitLongLine_splits_iff (env : string) (f : fumpter) (c : Cursor) (node : ast.Node) :
  wfF f -> cNode c = Some node -> inF f (ast.Node_Pos node) ->
  token.base (tokFile f) <= newlinePos node < token.base (tokFile f) + token.size (tokFile f) ->
  (reachesLengths env f c node /\ negativeLength f node ->
   splitLongLine env f c = Panic "negative length")
  /\ (~ (reachesLengths env f c node /\ negativeLength f node) ->
      exists f',
        splitLongLine env f c = Ok f'
        /\ (wantsSplit env f c node ->
            f' = withLines f (addedLines (token.lines (tokFile f))
                                (newlinePos node - token.base (tokFile f))))
        /\ (~ wantsSplit env f c node -> f' = f)
        /\ (endCol f node <= longLineLimit -> f' = f)
        /\ (minSplitFactor f = 1000%float -> firstLength f node < 100000 -> f' = f))
  /\ splitFactorContext.
Proof.
  intros Hwf Hnode Hpos Hnl. split; [|split; [|exact splitFactorContext_holds]].
  - intros [Hr Hneg]. rewrite (splitLongLine_lengths env f c node Hwf Hnode Hpos Hr).
    destruct (firstLength f node <? 0) eqn:E1; [reflexivity|].
    apply Z.ltb_ge in E1. destruct Hneg as [H|H]; [lia|].
    replace (secondLength f node <? 0) with true by (symmetry; apply Z.ltb_lt; lia).
    reflexivity.
  - intros Hn.
    assert (forall f', (wantsSplit env f c node ->
                        f' = withLines f (addedLines (token.lines (tokFile f))
                                            (newlinePos node - token.base (tokFile f)))) ->
                       (~ wantsSplit env f c node -> f' = f) ->
                       (wantsSplit env f c node \/ ~ wantsSplit env f c node) ->
                       (endCol f node <= longLineLimit -> f' = f)
                       /\ (minSplitFactor f = 1000%float ->
                           firstLength f node < 100000 -> f' = f))
      as Hcor.
    { intros f' Hyes Hno Hdec. split.
      - intros Hle. apply Hno. intros (_ & _ & _ & _ & H & _). lia.
      - intros Hfac Hlt. apply Hno. intros (_ & _ & _ & _ & _ & H & _).
        unfold minSplitLength in H. rewrite Hfac in H.
        change (intOfFloat (1000 * 100)) with 100000 in H. lia. }
    destruct (splitLongLine_early env f c node Hnode) as [Hr|[Hnr ->]].
    + assert (0 <= firstLength f node /\ 0 <= secondLength f node) as [Hfirst Hsecond].
      { unfold negativeLength in Hn.
        destruct (Z.lt_ge_cases (firstLength f node) 0); [exfalso; apply Hn; auto|].
        destruct (Z.lt_ge_cases (secondLength f node) 0); [exfalso; apply Hn; auto|].
        lia. }
      rewrite (splitLongLine_lengths env f c node Hwf Hnode Hpos Hr).
      replace (firstLength f node <? 0) with false by (symmetry; apply Z.ltb_ge; lia).
      replace (secondLength f node <? 0) with false by (symmetry; apply Z.ltb_ge; lia).
      destruct Hr as (Henv & Hline & Hmem & Hstart).
      destruct ((longLineLimit <? endCol f node)
                && (minSplitLength f <=? firstLength f node)
                && (minSplitLength f <=? secondLength f node)) eqn:Edec.
      * apply andb_true_iff in Edec. destruct Edec as [Edec E3].
        apply andb_true_iff in Edec. destruct Edec as [E1 E2].
        apply Z.ltb_lt in E1. apply Z.leb_le in E2, E3.
        assert (wantsSplit env f c node) as Hw by (unfold wantsSplit; tauto).
        eexists. split; [apply addNewline_ok; [exact (proj1 Hwf) | exact Hnl]|].
        split; [reflexivity|]. split; [tauto|].
        apply Hcor; [reflexivity | tauto | tauto].
      * assert (~ wantsSplit env f c node) as Hnw.
        { intros (_ & _ & _ & _ & H1 & H2 & H3).
          apply Z.ltb_lt in H1. apply Z.leb_le in H2, H3.
          rewrite H1, H2, H3 in Edec. discriminate. }
        exists f. split; [reflexivity|]. split; [tauto|]. split; [tauto|].
        apply Hcor; tauto.
    + assert (~ wantsSplit env f c node) as Hnw.
      { intros (H1 & H2 & H3 & H4 & _). apply Hnr. unfold reachesLengths. auto. }
      exists f. split; [reflexivity|]. split; [tauto|]. split; [tauto|].
      apply Hcor; tauto.
Qed.

Lemma longFumpter_wf : wfF longFumpter.
Proof.
  split; [|reflexivity].
  constructor; cbn; [lia | reflexivity | | ]; repeat constructor; lia.
Qed.

Lemma splitLongLine_splits_iff_witness :
  exists f',
    splitLongLine "on" longFumpter (listElement 70 120) = Ok f'
    /\ token.lines (tokFile f') = [0; 69].
Proof.
  destruct (splitLongLine_splits_iff "on" longFumpter (listElement 70 120)
              (ast.OtherNode 70 120) longFumpter_wf eq_refl)
    as (_ & H & _).
  - cbv. split; discriminate.
  - cbv. split; [discriminate | reflexivity].
  - destruct H as (f' & H1 & H2 & _).
    + intros [_ [Hneg|Hneg]]; cbv in Hneg; discriminate Hneg.
    + exists f'. split; [exact H1|]. rewrite H2; [reflexivity|].
      unfold wantsSplit. cbv. repeat split; try discriminate. right. discriminate.
Defined.

(** C5 as stated fails: the element at columns 50..105 ends past column
    100 and both halves (50 and 60 columns) reach the 40 the default
    factor asks for, yet no break is inserted, because its start column
    does not exceed 60. *)
Lemma splitLongLine_needs_late_start :
  wantsSplitAsStated "on" longFumpter (listElement 50 105) (ast.OtherNode 50 105)
  /\ endCol longFumpter (ast.OtherNode 50 105) = 105
  /\ firstLength longFumpter (ast.OtherNode 50 105) = 50
  /\ secondLength longFumpter (ast.OtherNode 50 105) = 60
  /\ minSplitLength longFumpter = 40
  /\ startCol longFumpter (ast.OtherNode 50 105) = 50
  /\ splitLongLine "on" longFumpter (listElement 50 105) = Ok longFumpter.
Proof.
  split.
  - unfold wantsSplitAsStated. cbv. repeat split; try discriminate. right. discriminate.
  - repeat split.
Qed.

(** * Blocks *)

Lemma last_cons {A : Type} (l : list A) (a d : A) : last (a :: l) d = last l a.
Proof.
  revert a d. induction l as [|b l IH]; intros a d; [reflexivity|].
  change (last (a :: b :: l) d) with (last (b :: l) d). rewrite !IH. reflexivity.
Qed.



Lemma commentsBetween_withLines (f : fumpter) (l : list Z) (p1 p2 : token.Pos) :
  commentsBetween (withLines f l) p1 p2 = commentsBetween f p1 p2.
Proof. reflexivity. Qed.





(** * Composite literals *)

(** One [addNewline]: the line of every position at or after [x] goes up
    by one if the offset of [x] did not start a line, and nothing changes
    if it did. *)
Lemma addNewline_step_table (f : fumpter) (x : token.Pos) :
  wfTable f -> token.base (tokFile f) <= x < token.base (tokFile f) + token.size (tokFile f) ->
  exists (l : list Z) (fresh : bool),
    addNewline f x = Ok (withLines f l)
    /\ wfTable (withLines f l)
    /\ In (x - token.base (tokFile f)) l
    /\ (forall y, In y (token.lines (tokFile f)) -> In y l)
    /\ (In (x - token.base (tokFile f)) (token.lines (tokFile f)) -> fresh = false)
    /\ (fresh = false -> l = token.lines (tokFile f))
    /\ forall p, inF f p ->
         tableLine (withLines f l) p = tableLine f p + (if fresh && (x <=? p) then 1 else 0).
Proof.
  intros Hwf Hx.
  exists (addedLines (token.lines (tokFile f)) (x - token.base (tokFile f))).
  exists (negb (memZ (x - token.base (tokFile f)) (token.lines (tokFile f)))).
  assert (wfTable (withLines f (addedLines (token.lines (tokFile f)) (x - token.base (tokFile f)))))
    as Hwf' by (apply (addedLines_wf (tokFile f)); [exact Hwf | lia]).
  split; [now apply addNewline_ok|]. split; [exact Hwf'|].
  unfold addedLines in *.
  destruct (memZ (x - token.base (tokFile f)) (token.lines (tokFile f))) eqn:M; cbn [negb andb].
  - apply memZ_In in M. split; [exact M|]. split; [auto|]. split; [auto|].
    split; [reflexivity|]. intros p Hp. rewrite withLines_same. lia.
  - split; [apply insertLine_In; now left|].
    split; [intros y Hy; apply insertLine_In; now right|].
    split; [intros Hin; apply memZ_In in Hin; congruence|].
    split; [discriminate|].
    intros p Hp. rewrite Line_withLines_table by assumption.
    rewrite insertLine_countLE, <- Line_F_table by assumption.
    destruct (x <=? p) eqn:E1, (x - token.base (tokFile f) <=? p - token.base (tokFile f)) eqn:E2;
      try reflexivity.
    + apply Z.leb_le in E1. apply Z.leb_gt in E2. lia.
    + apply Z.leb_gt in E1. apply Z.leb_le in E2. lia.
Qed.

Lemma addNewline_step (f : fumpter) (x : token.Pos) :
  wfF f -> token.base (tokFile f) <= x < token.base (tokFile f) + token.size (tokFile f) ->
  exists (l : list Z) (fresh : bool),
    addNewline f x = Ok (withLines f l)
    /\ wfF (withLines f l)
    /\ In (x - token.base (tokFile f)) l
    /\ (forall y, In y (token.lines (tokFile f)) -> In y l)
    /\ (In (x - token.base (tokFile f)) (token.lines (tokFile f)) -> fresh = false)
    /\ (fresh = false -> l = token.lines (tokFile f))
    /\ forall p, inF f p ->
         Line (withLines f l) p = Line f p + (if fresh && (x <=? p) then 1 else 0).
Proof.
  intros [Hwf Hni] Hx.
  destruct (addNewline_step_table f x Hwf Hx) as (l & fresh & E & Hwf' & H1 & H2 & H3 & H4 & HL).
  exists l, fresh. split; [exact E|]. split; [split; [exact Hwf' | exact Hni]|].
  split; [exact H1|]. split; [exact H2|]. split; [exact H3|]. split; [exact H4|].
  intros p Hp. rewrite (Line_plain (withLines f l) p Hni), (Line_plain f p Hni). now apply HL.
Qed.

Lemma addNewline_present_table (f : fumpter) (x : token.Pos) :
  wfTable f -> token.base (tokFile f) <= x < token.base (tokFile f) + token.size (tokFile f) ->
  In (x - token.base (tokFile f)) (token.lines (tokFile f)) ->
  addNewline f x = Ok f.
Proof.
  intros Hwf Hx Hin.
  destruct (addNewline_step_table f x Hwf Hx) as (l & fresh & E & _ & _ & _ & Hf & Hl & _).
  rewrite E, (Hl (Hf Hin)). now rewrite withLines_same.
Qed.

Lemma addNewline_present (f : fumpter) (x : token.Pos) :
  wfF f -> token.base (tokFile f) <= x < token.base (tokFile f) + token.size (tokFile f) ->
  In (x - token.base (tokFile f)) (token.lines (tokFile f)) ->
  addNewline f x = Ok f.
Proof.
  intros [Hwf _]. now apply addNewline_present_table.
Qed.

(** A line start at [x] puts [x - 1] on an earlier line. *)
Lemma countLE_In_lt (l : list Z) (x : Z) :
  In x l -> countLE l (x - 1) < countLE l x.
Proof.
  induction l as [|c l IH]; intros Hin; [contradiction|].
  cbn [countLE]. pose proof (countLE_mono l (x - 1) x ltac:(lia)).
  destruct Hin as [->|Hin].
  - replace (x <=? x - 1) with false by (symmetry; apply Z.leb_gt; lia).
    rewrite Z.leb_refl. lia.
  - specialize (IH Hin). destruct (c <=? x - 1) eqn:E1, (c <=? x) eqn:E2; lia.
Qed.

Lemma removeLinesBetween_noop (f : fumpter) (from to : token.Pos) :
  wfF f -> inF f from -> inF f to -> Line f to <= Line f from + 1 ->
  removeLinesBetween f from to = Ok f.
Proof.
  intros Hwf Hfrom Hto Hle. unfold removeLinesBetween.
  pose proof (Line_F_valid f from Hwf Hfrom). pose proof (Line_F_valid f to Hwf Hto).
  rewrite removeLines_ok by lia. unfold linesAfterRemove.
  rewrite Z.max_l by lia. rewrite firstn_skipn. f_equal. apply setFile_same.
Qed.

Lemma newlineBetween_cons (f : fumpter) (e1 e2 : ast.Expr) (rest : list ast.Expr) :
  newlineBetween f (e1 :: e2 :: rest)
  = (Line f (ast.Expr_End e1) <? Line f (ast.Expr_Pos e2)) || newlineBetween f (e2 :: rest).
Proof. reflexivity. Qed.

(** The first loop after its first round: the table is only read. *)
Lemma eltsLoop_rest (openLine : Z) (g : fumpter) (rest : list ast.Expr) :
  forall (e : ast.Expr) (around between : bool),
    eltsLoop openLine false (mkEltsState g (Line g (ast.Expr_End e)) around between) rest
    = Ok (mkEltsState g (Line g (ast.Expr_End (last rest e))) around
            (between || newlineBetween g (e :: rest))).
Proof.
  induction rest as [|e' rest IH]; intros e around between.
  - cbn [eltsLoop last newlineBetween]. now rewrite orb_false_r.
  - rewrite newlineBetween_cons, last_cons.
    cbn [eltsLoop esF esLastLine newlineAroundElems newlineBetweenElems].
    destruct (Line g (ast.Expr_End e) <? Line g (ast.Expr_Pos e'));
      cbn [bind esF esLastLine newlineAroundElems newlineBetweenElems orb];
      rewrite IH; [now rewrite orb_true_r | reflexivity].
Qed.

(** The first loop: blank lines between the opening brace and the first
    element are removed, and the two flags are set. *)
Lemma eltsLoop_first (f : fumpter) (Lbrace hi : token.Pos) (e0 : ast.Expr)
      (rest : list ast.Expr) :
  wfF f -> inF f Lbrace -> eltsOrdered f (Lbrace + 1) hi (e0 :: rest) ->
  exists l,
    eltsLoop (Line f Lbrace) true (mkEltsState f (Line f Lbrace) false false) (e0 :: rest)
    = Ok (mkEltsState (withLines f l) (Line (withLines f l) (ast.Expr_End (last rest e0)))
            (Line f Lbrace <? Line f (ast.Expr_Pos e0))
            (newlineBetween (withLines f l) (e0 :: rest)))
    /\ wfF (withLines f l)
    /\ (forall p, inF f p -> p <= Lbrace -> Line (withLines f l) p = Line f p)
    /\ (forall p q, inF f p -> inF f q -> ast.Expr_Pos e0 <= p -> ast.Expr_Pos e0 <= q ->
                    gap (withLines f l) p q = gap f p q)
    /\ gap (withLines f l) Lbrace (ast.Expr_Pos e0) = Z.min 1 (gap f Lbrace (ast.Expr_Pos e0))
    /\ (Line f (ast.Expr_Pos e0) <= Line f Lbrace + 1 -> l = token.lines (tokFile f)).
Proof.
  intros Hwf HL Hord. cbn [eltsOrdered] in Hord. destruct Hord as (H1 & H2 & H3 & H4 & H5).
  assert (Lbrace <= ast.Expr_Pos e0) as Hle by lia.
  pose proof (Line_F_mono f _ _ Hwf HL H3 Hle) as Hmono.
  assert (exists l,
             (if Line f Lbrace <? Line f (ast.Expr_Pos e0)
              then removeLinesBetween f Lbrace (ast.Expr_Pos e0) else Ok f)
             = Ok (withLines f l)
             /\ wfF (withLines f l)
             /\ (forall p, inF f p -> p <= Lbrace -> Line (withLines f l) p = Line f p)
             /\ (forall p q, inF f p -> inF f q ->
                             ast.Expr_Pos e0 <= p -> ast.Expr_Pos e0 <= q ->
                             gap (withLines f l) p q = gap f p q)
             /\ gap (withLines f l) Lbrace (ast.Expr_Pos e0)
                = Z.min 1 (gap f Lbrace (ast.Expr_Pos e0))
             /\ (Line f (ast.Expr_Pos e0) <= Line f Lbrace + 1 -> l = token.lines (tokFile f)))
    as (l & E & Hwf' & Hlow & Hhigh & Hgap & Hk).
  { destruct (Z.le_gt_cases (Line f (ast.Expr_Pos e0)) (Line f Lbrace + 1)) as [Hk|Hk].
    - exists (token.lines (tokFile f)). rewrite withLines_same.
      rewrite removeLinesBetween_noop by assumption.
      split; [now destruct (Line f Lbrace <? Line f (ast.Expr_Pos e0))|].
      split; [exact Hwf|]. split; [reflexivity|]. split; [reflexivity|].
      split; [unfold gap; lia | reflexivity].
    - replace (Line f Lbrace <? Line f (ast.Expr_Pos e0)) with true
        by (symmetry; apply Z.ltb_lt; lia).
      destruct (removeLinesBetween_gaps f Lbrace (ast.Expr_Pos e0) Hwf HL H3 Hle)
        as (l & K1 & K2 & K3 & K4 & K5).
      exists l. split; [exact K1|]. split; [exact K2|]. split; [exact K3|].
      split; [exact K4|]. split; [exact K5 | lia]. }
  exists l. split; [|auto 6].
  cbn [eltsLoop esF esLastLine newlineAroundElems newlineBetweenElems].
  change (removeLines f (Line f Lbrace + 1) (Line f (ast.Expr_Pos e0)))
    with (removeLinesBetween f Lbrace (ast.Expr_Pos e0)).
  destruct (Line f Lbrace <? Line f (ast.Expr_Pos e0)) eqn:Elt.
  - rewrite E. cbn [bind esF esLastLine newlineAroundElems newlineBetweenElems].
    now rewrite eltsLoop_rest.
  - assert (l = token.lines (tokFile f)) as -> by (apply Hk; apply Z.ltb_ge in Elt; lia).
    rewrite withLines_same.
    cbn [bind esF esLastLine newlineAroundElems newlineBetweenElems].
    now rewrite eltsLoop_rest.
Qed.

Lemma eltsOrdered_withLines (f : fumpter) (l : list Z) (elts : list ast.Expr) :
  forall lo hi, eltsOrdered (withLines f l) lo hi elts <-> eltsOrdered f lo hi elts.
Proof.
  induction elts as [|e elts IH]; intros lo hi; cbn [eltsOrdered]; [tauto|].
  rewrite IH, !inF_withLines. tauto.
Qed.

Lemma eltsOrdered_bounds (f : fumpter) (elts : list ast.Expr) :
  forall lo hi, eltsOrdered f lo hi elts -> lo <= hi.
Proof.
  induction elts as [|e elts IH]; intros lo hi H; cbn [eltsOrdered] in H; [exact H|].
  destruct H as (H1 & H2 & _ & _ & H5). specialize (IH _ _ H5). lia.
Qed.

Lemma eltsOrdered_In (f : fumpter) (elts : list ast.Expr) (e : ast.Expr) :
  forall lo hi, eltsOrdered f lo hi elts -> In e elts ->
    lo <= ast.Expr_Pos e /\ ast.Expr_Pos e < ast.Expr_End e /\ ast.Expr_End e <= hi
    /\ inF f (ast.Expr_Pos e) /\ inF f (ast.Expr_End e).
Proof.
  induction elts as [|c elts IH]; intros lo hi H Hin; [contradiction|].
  cbn [eltsOrdered] in H. destruct H as (H1 & H2 & H3 & H4 & H5).
  destruct Hin as [->|Hin].
  - pose proof (eltsOrdered_bounds _ _ _ _ H5). auto 6.
  - destruct (IH _ _ H5 Hin) as (K1 & K2 & K3 & K4 & K5).
    split; [lia|]. auto.
Qed.

Lemma last_In {A : Type} (l : list A) (a : A) : In (last l a) (a :: l).
Proof.
  revert a. induction l as [|b l IH]; intros a; [now left|].
  rewrite last_cons. right. apply IH.
Qed.

Lemma base_withLines (f : fumpter) (l : list Z) :
  token.base (tokFile (withLines f l)) = token.base (tokFile f).
Proof. reflexivity. Qed.

Lemma size_withLines (f : fumpter) (l : list Z) :
  token.size (tokFile (withLines f l)) = token.size (tokFile f).
Proof. reflexivity. Qed.

Lemma lines_withLines (f : fumpter) (l : list Z) : token.lines (tokFile (withLines f l)) = l.
Proof. reflexivity. Qed.

(** Positions between two positions of the file are in the file. *)
Lemma inF_between (f : fumpter) (p q r : token.Pos) :
  inF f p -> inF f r -> p <= q <= r -> inF f q.
Proof. unfold inF, inFile. lia. Qed.

Lemma pairsLoop_cons (g : fumpter) (e1 e2 : ast.Expr) (rest : list ast.Expr) :
  pairsLoop g (e1 :: e2 :: rest) = (g' <- pairStep g e1 e2 ;; pairsLoop g' (e2 :: rest)).
Proof. reflexivity. Qed.

Lemma pairStep_spec (g : fumpter) (e1 e2 : ast.Expr) :
  wfF g -> inF g (ast.Expr_End e1) -> inF g (ast.Expr_Pos e2) ->
  ast.Expr_End e1 <= ast.Expr_Pos e2 ->
  ast.Expr_End e1 < token.base (tokFile g) + token.size (tokFile g) ->
  exists (l : list Z) (fresh : bool),
    pairStep g e1 e2 = Ok (withLines g l)
    /\ wfF (withLines g l)
    /\ (forall y, In y (token.lines (tokFile g)) -> In y l)
    /\ (forall p, inF g p ->
          Line (withLines g l) p
          = Line g p + (if fresh && (ast.Expr_End e1 <=? p) then 1 else 0))
    /\ (if isCompositeLit e1 || isCompositeLit e2
        then In (ast.Expr_End e1 - token.base (tokFile g)) l
             \/ Line (withLines g l) (ast.Expr_End e1) < Line (withLines g l) (ast.Expr_Pos e2)
        else fresh = false).
Proof.
  intros Hwf He Hp Hle Hsz. unfold pairStep.
  assert (exists l fresh,
             Ok g = Ok (withLines g l) /\ wfF (withLines g l)
             /\ (forall y, In y (token.lines (tokFile g)) -> In y l)
             /\ (forall p, inF g p ->
                   Line (withLines g l) p
                   = Line g p + (if fresh && (ast.Expr_End e1 <=? p) then 1 else 0))
             /\ fresh = false /\ l = token.lines (tokFile g)) as Hsame.
  { exists (token.lines (tokFile g)), false. rewrite withLines_same.
    split; [reflexivity|]. split; [exact Hwf|]. split; [auto|].
    split; [intros; cbn [andb]; lia | auto]. }
  destruct (isCompositeLit e1), (isCompositeLit e2); cbn [negb andb orb].
  4:{ destruct Hsame as (l & fresh & K1 & K2 & K3 & K4 & K5 & _).
      exists l, fresh. auto 6. }
  all: destruct (Line g (ast.Expr_End e1) =? Line g (ast.Expr_Pos e2)) eqn:E.
  all: try (destruct Hsame as (l & fresh & K1 & K2 & K3 & K4 & K5 & ->);
            exists (token.lines (tokFile g)), fresh;
            split; [exact K1|]; split; [exact K2|]; split; [exact K3|]; split; [exact K4|];
            right; rewrite withLines_same; apply Z.eqb_neq in E;
            pose proof (Line_F_mono g _ _ Hwf He Hp Hle); lia).
  all: destruct (addNewline_step g (ast.Expr_End e1) Hwf) as (l & fresh & K1 & K2 & K3 & K4 & _ & _ & K7);
    [destruct He; lia|];
    exists l, fresh; split; [exact K1|]; split; [exact K2|]; split; [exact K4|];
    split; [exact K7 | now left].
Qed.

(** The second loop adds line starts at ends of elements only: positions
    before the end of the first element keep their lines, positions from
    the start of the last element on keep their distances, no two
    positions get closer; and each adjacent pair with a composite literal
    in it has a line start at the end of its first element or is on two
    lines anyway, while the other pairs keep their distance. *)
Lemma pairsLoop_spec (rest : list ast.Expr) :
  forall (g : fumpter) (lo hi : token.Pos) (e0 : ast.Expr),
    wfF g -> eltsOrdered g lo hi (e0 :: rest) ->
    hi < token.base (tokFile g) + token.size (tokFile g) ->
    exists l,
      pairsLoop g (e0 :: rest) = Ok (withLines g l)
      /\ wfF (withLines g l)
      /\ (forall y, In y (token.lines (tokFile g)) -> In y l)
      /\ (forall p, inF g p -> p < ast.Expr_End e0 -> Line (withLines g l) p = Line g p)
      /\ (forall p q, inF g p -> inF g q ->
            ast.Expr_Pos (last rest e0) <= p -> ast.Expr_Pos (last rest e0) <= q ->
            gap (withLines g l) p q = gap g p q)
      /\ (forall p q, inF g p -> inF g q -> p <= q -> gap g p q <= gap (withLines g l) p q)
      /\ (forall l1 e1 e2 l2, e0 :: rest = l1 ++ e1 :: e2 :: l2 ->
            if isCompositeLit e1 || isCompositeLit e2
            then In (ast.Expr_End e1 - token.base (tokFile g)) l
                 \/ Line (withLines g l) (ast.Expr_End e1)
                    < Line (withLines g l) (ast.Expr_Pos e2)
            else gap (withLines g l) (ast.Expr_End e1 - 1) (ast.Expr_Pos e2)
                 = gap g (ast.Expr_End e1 - 1) (ast.Expr_Pos e2)).
Proof.
  induction rest as [|e1 rest IH]; intros g lo hi e0 Hwf Hord Hhi.
  - exists (token.lines (tokFile g)). rewrite withLines_same.
    split; [reflexivity|]. split; [exact Hwf|]. split; [auto|]. split; [reflexivity|].
    split; [reflexivity|]. split; [intros; lia|].
    intros [|x [|y l1]] a b l2 E; discriminate.
  - pose proof Hord as Hord0. cbn [eltsOrdered] in Hord.
    destruct Hord as (A1 & A2 & A3 & A4 & (B1 & B2 & B3 & B4 & B5)).
    assert (eltsOrdered g (ast.Expr_End e0) hi (e1 :: rest)) as Hord1
        by (cbn [eltsOrdered]; auto).
    pose proof (eltsOrdered_bounds _ _ _ _ B5) as Hb.
    rewrite pairsLoop_cons.
    destruct (pairStep_spec g e0 e1 Hwf A4 B3 B1 ltac:(lia))
      as (l1 & fresh & S1 & S2 & S3 & S4 & S5).
    rewrite S1. cbn [bind].
    destruct (IH (withLines g l1) (ast.Expr_End e0) hi e1 S2)
      as (l2 & K1 & K2 & K3 & K4 & K5 & K6 & K7);
      [now apply eltsOrdered_withLines | exact Hhi |].
    rewrite withLines_withLines in *. rewrite lines_withLines in K3.
    rewrite base_withLines in K7.
    exists l2. split; [exact K1|]. split; [exact K2|]. split; [auto|].
    split; [|split; [|split]].
    + intros p Hp Hlt. rewrite K4 by (try assumption; lia). rewrite S4 by assumption.
      replace (ast.Expr_End e0 <=? p) with false by (symmetry; apply Z.leb_gt; lia).
      rewrite andb_false_r. lia.
    + rewrite last_cons. intros p q Hp Hq Hlp Hlq.
      rewrite K5 by assumption. unfold gap. rewrite !S4 by assumption.
      destruct (eltsOrdered_In _ _ _ _ _ Hord1 (last_In rest e1)) as (C1 & _).
      replace (ast.Expr_End e0 <=? p) with true by (symmetry; apply Z.leb_le; lia).
      replace (ast.Expr_End e0 <=? q) with true by (symmetry; apply Z.leb_le; lia).
      lia.
    + intros p q Hp Hq Hpq. specialize (K6 p q Hp Hq Hpq).
      unfold gap in *. rewrite !S4 in K6 by assumption.
      destruct fresh; cbn [andb] in K6; [|lia].
      destruct (ast.Expr_End e0 <=? p) eqn:E1, (ast.Expr_End e0 <=? q) eqn:E2; lia.
    + intros l0 a b l3 E. destruct l0 as [|x l0]; cbn [app] in E.
      * injection E as <- <- <-.
        destruct (isCompositeLit e0 || isCompositeLit e1).
        -- destruct S5 as [S5|S5]; [left; auto|]. right.
           specialize (K6 _ _ A4 B3 B1). unfold gap in K6. lia.
        -- subst fresh. unfold gap.
           assert (inF g (ast.Expr_End e0 - 1)) as Hin
               by (apply (inF_between g (ast.Expr_Pos e0) _ (ast.Expr_End e0)); auto; lia).
           rewrite !K4 by (try assumption; lia). rewrite !S4 by assumption.
           cbn [andb]. lia.
      * injection E as <- E.
        specialize (K7 _ _ _ _ E).
        destruct (isCompositeLit a || isCompositeLit b); [exact K7|].
        rewrite K7.
        assert (In a (e1 :: rest) /\ In b (e1 :: rest)) as [Ha Hb'].
        { rewrite E. split; apply in_or_app; right; cbn; auto. }
        destruct (eltsOrdered_In _ _ _ _ _ Hord1 Ha) as (C1 & C2 & C3 & C4 & C5).
        destruct (eltsOrdered_In _ _ _ _ _ Hord1 Hb') as (D1 & D2 & D3 & D4 & D5).
        assert (inF g (ast.Expr_End a - 1)) as Hin
            by (apply (inF_between g (ast.Expr_Pos a) _ (ast.Expr_End a)); auto; lia).
        unfold gap. rewrite !S4 by assumption.
        replace (ast.Expr_End e0 <=? ast.Expr_End a - 1) with true
          by (symmetry; apply Z.leb_le; lia).
        replace (ast.Expr_End e0 <=? ast.Expr_Pos b) with true
          by (symmetry; apply Z.leb_le; lia).
        lia.
Qed.

(** The second loop changes nothing where every adjacent pair with a
    composite literal that shares a line has its line start already. *)
Lemma pairsLoop_fixed (rest : list ast.Expr) :
  forall (g : fumpter) (lo hi : token.Pos) (e0 : ast.Expr),
    wfF g -> eltsOrdered g lo hi (e0 :: rest) ->
    hi < token.base (tokFile g) + token.size (tokFile g) ->
    (forall l1 e1 e2 l2, e0 :: rest = l1 ++ e1 :: e2 :: l2 ->
       isCompositeLit e1 || isCompositeLit e2 = true ->
       Line g (ast.Expr_End e1) = Line g (ast.Expr_Pos e2) ->
       In (ast.Expr_End e1 - token.base (tokFile g)) (token.lines (tokFile g))) ->
    pairsLoop g (e0 :: rest) = Ok g.
Proof.
  induction rest as [|e1 rest IH]; intros g lo hi e0 Hwf Hord Hhi Hfix; [reflexivity|].
  cbn [eltsOrdered] in Hord.
  destruct Hord as (A1 & A2 & A3 & A4 & (B1 & B2 & B3 & B4 & B5)).
  pose proof (eltsOrdered_bounds _ _ _ _ B5) as Hb.
  rewrite pairsLoop_cons.
  assert (pairStep g e0 e1 = Ok g) as ->.
  { unfold pairStep. specialize (Hfix [] e0 e1 rest eq_refl).
    destruct (isCompositeLit e0 || isCompositeLit e1) eqn:C.
    - replace (negb (isCompositeLit e0) && negb (isCompositeLit e1)) with false
        by (destruct (isCompositeLit e0), (isCompositeLit e1); try reflexivity; discriminate).
      destruct (Line g (ast.Expr_End e0) =? Line g (ast.Expr_Pos e1)) eqn:E; [|reflexivity].
      apply Z.eqb_eq in E. apply addNewline_present; [exact Hwf | destruct A4; lia | auto].
    - apply orb_false_iff in C. destruct C as [-> ->]. reflexivity. }
  cbn [bind]. apply (IH g (ast.Expr_End e0) hi e1 Hwf); [cbn [eltsOrdered]; auto | exact Hhi |].
  intros l1 a b l2 E. apply (Hfix (e0 :: l1) a b l2). cbn [app]. now rewrite E.
Qed.

Lemma newlineBetween_exists (f : fumpter) (elts : list ast.Expr) :
  newlineBetween f elts = true ->
  exists l1 e1 e2 l2,
    elts = l1 ++ e1 :: e2 :: l2 /\ Line f (ast.Expr_End e1) < Line f (ast.Expr_Pos e2).
Proof.
  induction elts as [|e1 [|e2 rest] IH]; intros H; try discriminate.
  rewrite newlineBetween_cons in H. apply orb_true_iff in H. destruct H as [H|H].
  - exists [], e1, e2, rest. split; [reflexivity | now apply Z.ltb_lt].
  - destruct (IH H) as (l1 & a & b & l2 & E & Hlt).
    exists (e1 :: l1), a, b, l2. split; [cbn [app]; now rewrite E | exact Hlt].
Qed.

Lemma newlineBetween_gaps (f g : fumpter) (elts : list ast.Expr) :
  forall lo hi,
    eltsOrdered f lo hi elts ->
    (forall p q, inF f p -> inF f q -> lo <= p -> lo <= q -> gap g p q = gap f p q) ->
    newlineBetween g elts = newlineBetween f elts.
Proof.
  induction elts as [|e1 [|e2 rest] IH]; intros lo hi Hord Hgap; try reflexivity.
  rewrite !newlineBetween_cons.
  cbn [eltsOrdered] in Hord.
  destruct Hord as (A1 & A2 & A3 & A4 & (B1 & B2 & B3 & B4 & B5)).
  f_equal.
  - specialize (Hgap _ _ A4 B3 ltac:(lia) ltac:(lia)). unfold gap in Hgap.
    destruct (Line g (ast.Expr_End e1) <? Line g (ast.Expr_Pos e2)) eqn:E1,
             (Line f (ast.Expr_End e1) <? Line f (ast.Expr_Pos e2)) eqn:E2; lia.
  - apply (IH (ast.Expr_End e1) hi); [cbn [eltsOrdered]; auto|].
    intros p q Hp Hq Hlp Hlq. apply Hgap; try assumption; lia.
Qed.

(** The breaks next to the braces.  The first element ends up on the line
    after the opening brace; positions between the first element and the
    closing brace keep their distances; and if [closeLine] is the line of
    the closing brace, a brace that shares its line with the end of the
    last element has a line start of its own. *)
Lemma newlinesAtBraces_spec (g : fumpter) (Lbrace Rbrace : token.Pos) (e0 : ast.Expr)
      (rest : list ast.Expr) (closeLine : Z) :
  wfF g -> inF g Lbrace -> eltsOrdered g (Lbrace + 1) Rbrace (e0 :: rest) ->
  Rbrace < token.base (tokFile g) + token.size (tokFile g) ->
  Line g (ast.Expr_Pos e0) <= Line g Lbrace + 1 ->
  exists l,
    newlinesAtBraces g Lbrace e0 (last rest e0) Rbrace (Line g Lbrace) closeLine
    = Ok (withLines g l)
    /\ wfF (withLines g l)
    /\ (forall y, In y (token.lines (tokFile g)) -> In y l)
    /\ Line (withLines g l) Lbrace = Line g Lbrace
    /\ Line (withLines g l) (ast.Expr_Pos e0) = Line g Lbrace + 1
    /\ (forall p q, inF g p -> inF g q ->
          ast.Expr_Pos e0 <= p < Rbrace -> ast.Expr_Pos e0 <= q < Rbrace ->
          gap (withLines g l) p q = gap g p q)
    /\ (closeLine = Line g Rbrace ->
        Line (withLines g l) Rbrace = Line (withLines g l) (ast.Expr_End (last rest e0)) ->
        In (Rbrace - token.base (tokFile g)) l).
Proof.
  intros Hwf HL Hord Hsz Hk.
  destruct (eltsOrdered_In _ _ _ _ _ Hord (last_In rest e0)) as (L1 & L2 & L3 & L4 & L5).
  cbn [eltsOrdered] in Hord. destruct Hord as (A1 & A2 & A3 & A4 & A5).
  pose proof (eltsOrdered_bounds _ _ _ _ A5) as Hb.
  assert (inF g Rbrace) as HR by (destruct HL; split; lia).
  assert (inF g (Lbrace + 1)) as HL1 by (apply (inF_between g Lbrace _ (ast.Expr_Pos e0)); auto; lia).
  pose proof (Line_F_mono g _ _ Hwf HL HL1 ltac:(lia)) as M1.
  pose proof (Line_F_mono g _ _ Hwf HL1 A3 ltac:(lia)) as M2.
  (* the break after the opening brace *)
  assert (exists l1 d,
             (if Line g Lbrace =? Line g (ast.Expr_Pos e0)
              then f' <- addNewline g (Lbrace + 1) ;; Ok (f', Line f' Rbrace)
              else Ok (g, closeLine))
             = Ok (withLines g l1,
                   if Line g Lbrace =? Line g (ast.Expr_Pos e0)
                   then Line (withLines g l1) Rbrace else closeLine)
             /\ wfF (withLines g l1)
             /\ (forall y, In y (token.lines (tokFile g)) -> In y l1)
             /\ Line (withLines g l1) Lbrace = Line g Lbrace
             /\ Line (withLines g l1) (ast.Expr_Pos e0) = Line g Lbrace + 1
             /\ (forall p, inF g p -> ast.Expr_Pos e0 <= p ->
                           Line (withLines g l1) p = Line g p + d)
             /\ ((Line g Lbrace =? Line g (ast.Expr_Pos e0)) = false ->
                 l1 = token.lines (tokFile g)))
    as (l1 & d & E1 & Hwf1 & Hkeep1 & HL' & He0 & Hshift & Hsame).
  { destruct (Line g Lbrace =? Line g (ast.Expr_Pos e0)) eqn:E.
    - apply Z.eqb_eq in E.
      destruct (addNewline_step g (Lbrace + 1) Hwf) as (l1 & fresh & K1 & K2 & K3 & K4 & K5 & K6 & K7);
        [destruct HL; lia|].
      assert (fresh = true) as ->.
      { destruct fresh; [reflexivity|]. exfalso.
        rewrite (K6 eq_refl) in K3. apply countLE_In_lt in K3.
        rewrite (Line_F g Lbrace Hwf HL) in M1. rewrite (Line_F g (Lbrace + 1) Hwf HL1) in M1, M2.
        rewrite (Line_F g Lbrace Hwf HL) in E.
        replace (Lbrace + 1 - token.base (tokFile g) - 1)
          with (Lbrace - token.base (tokFile g)) in K3 by lia.
        lia. }
      exists l1, 1. rewrite K1. cbn [bind andb].
      split; [reflexivity|]. split; [exact K2|]. split; [exact K4|].
      split; [|split; [|split; [|discriminate]]].
      + rewrite K7 by exact HL. cbn [andb].
        replace (Lbrace + 1 <=? Lbrace) with false by (symmetry; apply Z.leb_gt; lia). lia.
      + rewrite K7 by exact A3. cbn [andb].
        replace (Lbrace + 1 <=? ast.Expr_Pos e0) with true by (symmetry; apply Z.leb_le; lia).
        lia.
      + intros p Hp Hle. rewrite K7 by exact Hp. cbn [andb].
        replace (Lbrace + 1 <=? p) with true by (symmetry; apply Z.leb_le; lia).
        reflexivity.
    - apply Z.eqb_neq in E. exists (token.lines (tokFile g)), 0. rewrite withLines_same.
      split; [reflexivity|]. split; [exact Hwf|]. split; [auto|]. split; [reflexivity|].
      split; [lia|]. split; [intros; lia | reflexivity]. }
  unfold newlinesAtBraces. rewrite E1. cbn [bind].
  set (closeLine1 := if Line g Lbrace =? Line g (ast.Expr_Pos e0)
                     then Line (withLines g l1) Rbrace else closeLine) in *.
  assert (closeLine = Line g Rbrace -> closeLine1 = Line (withLines g l1) Rbrace) as Hclose.
  { intros Hc. unfold closeLine1.
    destruct (Line g Lbrace =? Line g (ast.Expr_Pos e0)); [reflexivity|].
    rewrite (Hsame eq_refl), withLines_same. exact Hc. }
  clearbody closeLine1.
  destruct (closeLine1 =? Line (withLines g l1) (ast.Expr_End (last rest e0))) eqn:T.
  - destruct (addNewline_step (withLines g l1) Rbrace Hwf1)
      as (l2 & fresh & K1 & K2 & K3 & K4 & _ & _ & K7);
      [rewrite base_withLines, size_withLines; destruct HR; lia|].
    rewrite withLines_withLines in *. rewrite base_withLines in K3.
    rewrite lines_withLines in K4.
    assert (forall p, inF g p -> p < Rbrace -> Line (withLines g l2) p = Line (withLines g l1) p)
      as Hlow.
    { intros p Hp Hlt. rewrite K7 by exact Hp.
      replace (Rbrace <=? p) with false by (symmetry; apply Z.leb_gt; lia).
      rewrite andb_false_r. lia. }
    exists l2. split; [exact K1|]. split; [exact K2|]. split; [auto|].
    split; [rewrite Hlow by (try assumption; lia); exact HL'|].
    split; [rewrite Hlow by (try assumption; lia); exact He0|].
    split; [|auto].
    intros p q Hp Hq Hpr Hqr. unfold gap.
    rewrite !Hlow by (try assumption; lia). rewrite !Hshift by (try assumption; lia). lia.
  - exists l1. split; [reflexivity|]. split; [exact Hwf1|]. split; [exact Hkeep1|].
    split; [exact HL'|]. split; [exact He0|]. split.
    + intros p q Hp Hq Hpr Hqr. unfold gap. rewrite !Hshift by (try assumption; lia). lia.
    + intros Hc Heq. apply Z.eqb_neq in T. rewrite (Hclose Hc) in T. contradiction.
Qed.

(** A table on which the literal's rule has nothing left to do: the first
    element is on the line after the opening brace, a closing brace
    sharing its line with the end of the last element starts a line, and
    so does the end of every element that shares its line with a
    neighbour if one of the two is a composite literal. *)
Lemma applyPost_CompositeLit_fixed (g : fumpter) (Lbrace Rbrace : token.Pos) (e0 : ast.Expr)
      (rest : list ast.Expr) :
  wfF g -> inF g Lbrace -> eltsOrdered g (Lbrace + 1) Rbrace (e0 :: rest) ->
  Rbrace < token.base (tokFile g) + token.size (tokFile g) ->
  Line g (ast.Expr_Pos e0) = Line g Lbrace + 1 ->
  (Line g Rbrace = Line g (ast.Expr_End (last rest e0)) ->
   In (Rbrace - token.base (tokFile g)) (token.lines (tokFile g))) ->
  (forall l1 e1 e2 l2, e0 :: rest = l1 ++ e1 :: e2 :: l2 ->
     isCompositeLit e1 || isCompositeLit e2 = true ->
     Line g (ast.Expr_End e1) = Line g (ast.Expr_Pos e2) ->
     In (ast.Expr_End e1 - token.base (tokFile g)) (token.lines (tokFile g))) ->
  applyPost_CompositeLit g Lbrace (e0 :: rest) Rbrace = Ok g.
Proof.
  intros Hwf HL Hord Hsz H2 H3 H4. unfold applyPost_CompositeLit.
  pose proof (eltsOrdered_bounds _ _ _ _ Hord) as Hb.
  destruct (Line g Lbrace =? Line g Rbrace); [reflexivity|].
  destruct (eltsLoop_first g Lbrace Rbrace e0 rest Hwf HL Hord) as (l & E & _ & _ & _ & _ & Hk).
  rewrite (Hk ltac:(lia)), withLines_same in E. rewrite E.
  cbn [bind esF esLastLine newlineAroundElems newlineBetweenElems].
  replace (Line g Lbrace <? Line g (ast.Expr_Pos e0)) with true
    by (symmetry; apply Z.ltb_lt; lia).
  cbn [orb]. rewrite orb_true_r.
  assert (newlinesAtBraces g Lbrace e0 (last rest e0) Rbrace (Line g Lbrace) (Line g Rbrace)
          = Ok g) as ->.
  { unfold newlinesAtBraces.
    replace (Line g Lbrace =? Line g (ast.Expr_Pos e0)) with false
      by (symmetry; apply Z.eqb_neq; lia).
    cbn [bind].
    destruct (Line g Rbrace =? Line g (ast.Expr_End (last rest e0))) eqn:T; [|reflexivity].
    apply Z.eqb_eq in T. apply addNewline_present; [exact Hwf | destruct HL; lia | auto]. }
  cbn [bind]. destruct (newlineBetween g (e0 :: rest)); cbn [negb]; [|reflexivity].
  now apply (pairsLoop_fixed rest g (Lbrace + 1) Rbrace e0).
Qed.

(** C3 (as amended).  In a file without line directives, for a composite
    literal in which some two adjacent elements are on different lines,
    the rule puts a line break between
    every two adjacent elements of which at least one is itself a
    composite literal: the last byte of the first is on an earlier line
    than the start of the second.  Every other pair of adjacent elements
    keeps its distance, so two plain elements that share a line still
    share it.  If the literal has no blank line between the opening brace
    and the first element, the rule applied to its own result changes
    nothing. *)
Theorem applyPost_CompositeLit_breaks_composite_pairs
  (f : fumpter) (Lbrace Rbrace : token.Pos) (e0 : ast.Expr) (rest : list ast.Expr) :
  wfF f -> inF f Lbrace -> eltsOrdered f (Lbrace + 1) Rbrace (e0 :: rest) ->
  Rbrace < token.base (tokFile f) + token.size (tokFile f) ->
  newlineBetween f (e0 :: rest) = true ->
  exists l,
    applyPost_CompositeLit f Lbrace (e0 :: rest) Rbrace = Ok (withLines f l)
    /\ wfF (withLines f l)
    /\ (forall l1 e1 e2 l2, e0 :: rest = l1 ++ e1 :: e2 :: l2 ->
          if isCompositeLit e1 || isCompositeLit e2
          then Line (withLines f l) (ast.Expr_End e1 - 1)
               < Line (withLines f l) (ast.Expr_Pos e2)
          else gap (withLines f l) (ast.Expr_End e1 - 1) (ast.Expr_Pos e2)
               = gap f (ast.Expr_End e1 - 1) (ast.Expr_Pos e2))
    /\ (Line f (ast.Expr_Pos e0) <= Line f Lbrace + 1 ->
        applyPost_CompositeLit (withLines f l) Lbrace (e0 :: rest) Rbrace
        = Ok (withLines f l)).
Proof.
  intros Hwf HL Hord Hsz Hbetween.
  pose proof (eltsOrdered_bounds _ _ _ _ Hord) as Hb.
  assert (inF f Rbrace) as HR by (destruct HL; split; lia).
  destruct (eltsOrdered_In _ _ _ _ _ Hord (last_In rest e0)) as (L1 & L2 & L3 & L4 & L5).
  pose proof Hord as Hord'. cbn [eltsOrdered] in Hord'.
  destruct Hord' as (A1 & A2 & A3 & A4 & A5).
  (* the literal spans several lines *)
  assert (Line f Lbrace < Line f Rbrace) as Hmulti.
  { destruct (newlineBetween_exists _ _ Hbetween) as (l1 & a & b & l2 & E & Hlt).
    assert (In a (e0 :: rest) /\ In b (e0 :: rest)) as [Ha Hb'].
    { rewrite E. split; apply in_or_app; right; cbn; auto. }
    destruct (eltsOrdered_In _ _ _ _ _ Hord Ha) as (C1 & C2 & C3 & C4 & C5).
    destruct (eltsOrdered_In _ _ _ _ _ Hord Hb') as (D1 & D2 & D3 & D4 & D5).
    pose proof (Line_F_mono f Lbrace _ Hwf HL C5 ltac:(lia)).
    pose proof (Line_F_mono f _ Rbrace Hwf D4 HR ltac:(lia)). lia. }
  unfold applyPost_CompositeLit.
  replace (Line f Lbrace =? Line f Rbrace) with false by (symmetry; apply Z.eqb_neq; lia).
  (* the first loop *)
  destruct (eltsLoop_first f Lbrace Rbrace e0 rest Hwf HL Hord)
    as (la & E1 & Hwfa & Hlowa & Higha & Hgapa & Hka).
  rewrite E1. cbn [bind esF esLastLine newlineAroundElems newlineBetweenElems].
  assert (eltsOrdered f (ast.Expr_Pos e0) Rbrace (e0 :: rest)) as Hord0
      by (cbn [eltsOrdered]; split; [lia | auto]).
  rewrite (newlineBetween_gaps f (withLines f la) _ _ _ Hord0 Higha), Hbetween.
  cbn [orb negb].
  (* the breaks next to the braces *)
  assert (Line (withLines f la) (ast.Expr_Pos e0) <= Line (withLines f la) Lbrace + 1) as Hk'
      by (unfold gap in Hgapa; lia).
  destruct (newlinesAtBraces_spec (withLines f la) Lbrace Rbrace e0 rest (Line f Rbrace)
              Hwfa HL (proj2 (eltsOrdered_withLines f la _ _ _) Hord) Hsz Hk')
    as (lb & E2 & Hwfb & Hkeepb & HLb & He0b & Hgapb & HRb).
  rewrite (Hlowa Lbrace HL (Z.le_refl _)) in E2, HLb, He0b.
  rewrite withLines_withLines in *. rewrite lines_withLines in Hkeepb.
  rewrite base_withLines in HRb.
  rewrite E2. cbn [bind].
  (* the second loop *)
  destruct (pairsLoop_spec rest (withLines f lb) (Lbrace + 1) Rbrace e0 Hwfb
              (proj2 (eltsOrdered_withLines f lb _ _ _) Hord) Hsz)
    as (lc & E3 & Hwfc & Hkeepc & Hlowc & Highc & Hmonoc & Hpairs).
  rewrite withLines_withLines in *. rewrite lines_withLines in Hkeepc.
  rewrite base_withLines in Hpairs.
  exists lc. split; [exact E3|]. split; [exact Hwfc|]. split.
  - intros l1 e1 e2 l2 E. specialize (Hpairs l1 e1 e2 l2 E).
    assert (In e1 (e0 :: rest) /\ In e2 (e0 :: rest)) as [Ha Hb'].
    { rewrite E. split; apply in_or_app; right; cbn; auto. }
    destruct (eltsOrdered_In _ _ _ _ _ Hord0 Ha) as (C1 & C2 & C3 & C4 & C5).
    destruct (eltsOrdered_In _ _ _ _ _ Hord0 Hb') as (D1 & D2 & D3 & D4 & D5).
    assert (inF f (ast.Expr_End e1 - 1)) as Hin
        by (apply (inF_between f (ast.Expr_Pos e1) _ (ast.Expr_End e1)); auto; lia).
    assert (ast.Expr_End e1 <= ast.Expr_Pos e2) as Hadj.
    { clear - E Hord. revert E Hord. generalize (Lbrace + 1). generalize (e0 :: rest).
      induction l1 as [|x l1 IH]; intros elts lo -> Ho.
      - cbn [app eltsOrdered] in Ho. tauto.
      - cbn [app eltsOrdered] in Ho. destruct Ho as (_ & _ & _ & _ & Ho).
        exact (IH _ _ eq_refl Ho). }
    destruct (isCompositeLit e1 || isCompositeLit e2).
    + pose proof (Line_F_mono _ (ast.Expr_End e1 - 1) (ast.Expr_End e1) Hwfc Hin C5 ltac:(lia)).
      pose proof (Line_F_mono _ (ast.Expr_End e1) (ast.Expr_Pos e2) Hwfc C5 D4 Hadj).
      destruct Hpairs as [Hpin|Hlt]; [|lia].
      apply countLE_In_lt in Hpin.
      rewrite (Line_withLines f lc _ Hwfc Hin) in *.
      rewrite (Line_withLines f lc _ Hwfc C5) in *.
      replace (ast.Expr_End e1 - 1 - token.base (tokFile f))
        with (ast.Expr_End e1 - token.base (tokFile f) - 1) in * by lia.
      lia.
    + rewrite Hpairs. rewrite Hgapb by (try assumption; lia).
      apply Higha; try assumption; lia.
  - intros Hk0. rewrite (Hka Hk0), withLines_same in *.
    apply applyPost_CompositeLit_fixed.
    + exact Hwfc.
    + exact HL.
    + now apply eltsOrdered_withLines.
    + exact Hsz.
    + rewrite !Hlowc by (try assumption; lia). lia.
    + intros Heq. apply Hkeepc. apply HRb; [reflexivity|].
      specialize (Highc _ _ L5 HR ltac:(lia) ltac:(lia)). unfold gap in Highc. lia.
    + intros l1 e1 e2 l2 E Hc Heq. specialize (Hpairs l1 e1 e2 l2 E).
      rewrite Hc in Hpairs. destruct Hpairs as [Hpin|Hlt]; [exact Hpin | lia].
Qed.

Lemma nestedFumpter_wf : wfF nestedFumpter.
Proof.
  split; [|reflexivity].
  constructor; cbn; [lia | reflexivity | | ]; repeat constructor; lia.
Qed.

Lemma applyPost_CompositeLit_breaks_composite_pairs_witness :
  exists l,
    applyPost_CompositeLit nestedFumpter 2 [nestedElt 4; nestedElt 9; nestedElt 14] 19
    = Ok (withLines nestedFumpter l)
    /\ Line nestedFumpter (ast.Expr_End (nestedElt 9) - 1)
       = Line nestedFumpter (ast.Expr_Pos (nestedElt 14))
    /\ Line (withLines nestedFumpter l) (ast.Expr_End (nestedElt 9) - 1)
       < Line (withLines nestedFumpter l) (ast.Expr_Pos (nestedElt 14))
    /\ applyPost_CompositeLit (withLines nestedFumpter l) 2
         [nestedElt 4; nestedElt 9; nestedElt 14] 19
       = Ok (withLines nestedFumpter l).
Proof.
  destruct (applyPost_CompositeLit_breaks_composite_pairs nestedFumpter 2 19
              (nestedElt 4) [nestedElt 9; nestedElt 14])
    as (l & E & _ & Hp & Hs).
  - exact nestedFumpter_wf.
  - unfold inF, inFile. cbn. lia.
  - cbn. unfold inF, inFile. cbn. lia.
  - cbn. lia.
  - reflexivity.
  - exists l. split; [exact E|]. split; [reflexivity|].
    split; [exact (Hp [nestedElt 4] (nestedElt 9) (nestedElt 14) [] eq_refl)|].
    apply Hs. vm_compute. discriminate.
Defined.

(** C3 as stated fails.  In the literal of [plainFumpter] the elements
    [a] and [b] are on different lines and none of the three is a composite
    literal: the rule returns the table as it is, and [b] and [c] still
    share line 3. *)
Lemma applyPost_CompositeLit_keeps_plain_pair :
  Line plainFumpter 2 = 1 /\ Line plainFumpter 13 = 4
  /\ newlineBetween plainFumpter plainElts = true
  /\ applyPost plainFumpter (ast.ExprNode (ast.CompositeLit None 2 plainElts 13))
     = Ok plainFumpter
  /\ Line plainFumpter (ast.Expr_Pos (ast.OtherExpr 7 8)) = 3
  /\ Line plainFumpter (ast.Expr_Pos (ast.OtherExpr 10 11)) = 3.
Proof. repeat split. Qed.

(** Why the second application is stated for literals without a blank
    line after the opening brace.  On [blankFumpter] the first loop
    removes the blank line, and the test for the break before the closing
    brace then compares the line of the last element with the line the
    brace had before the removal: no break is added.  Applied again, the
    rule adds it. *)
Example applyPost_CompositeLit_stale_closeLine :
  applyPost_CompositeLit blankFumpter 2 [ast.OtherExpr 5 6; ast.OtherExpr 8 9] 9
  = Ok (withLines blankFumpter [0; 3])
  /\ applyPost_CompositeLit (withLines blankFumpter [0; 3]) 2
       [ast.OtherExpr 5 6; ast.OtherExpr 8 9] 9
     = Ok (withLines blankFumpter [0; 3; 8]).
Proof. split; reflexivity. Qed.

(** * More on the line table: [removeLines] and [removeLinesBetween] *)

Lemma linesAfterRemove_length (a b : Z) (l : list Z) :
  1 <= a -> a <= b -> b <= Z.of_nat (List.length l) ->
  Z.of_nat (List.length (linesAfterRemove a b l)) = Z.of_nat (List.length l) - (b - a).
Proof.
  intros Ha Hab Hb. unfold linesAfterRemove.
  rewrite Z.max_r by lia. rewrite length_app, length_firstn, length_skipn. lia.
Qed.

(** X1.  [removeLines fromLine toLine] on lines of the file joins the lines
    [fromLine] to [toLine] into line [fromLine]: positions on earlier
    lines keep their line, positions on the joined lines are on
    [fromLine], later positions move up by [toLine - fromLine], and the
    table stays well formed with that many lines less.  Lines are those
    of the table, which is what [MergeLine] counts. *)
Theorem removeLines_joins_lines (f : fumpter) (fromLine toLine : Z) :
  wfTable f -> 1 <= fromLine -> fromLine <= toLine -> toLine <= token.LineCount (tokFile f) ->
  exists f',
    removeLines f fromLine toLine = Ok f'
    /\ wfTable f'
    /\ token.LineCount (tokFile f') = token.LineCount (tokFile f) - (toLine - fromLine)
    /\ forall p, inF f p ->
         tableLine f' p = (if tableLine f p <=? fromLine then tableLine f p
                      else if tableLine f p <=? toLine then fromLine
                      else tableLine f p - (toLine - fromLine)).
Proof.
  intros Hwf Ha Hab Hb.
  destruct (removeLines_spec_table f fromLine toLine Hwf Ha Hb) as (l & E & Hwf' & Hl & HLine).
  exists (withLines f l). split; [exact E|]. split; [exact Hwf'|]. split.
  - unfold token.LineCount in *. rewrite lines_withLines, Hl.
    now apply linesAfterRemove_length.
  - intros p Hp. rewrite (HLine p Hp). unfold mergedLine.
    replace (toLine <? fromLine) with false by (symmetry; apply Z.ltb_ge; lia).
    now rewrite orb_false_r.
Qed.

Lemma removeLines_joins_lines_witness :
  exists f', removeLines sampleFumpter 1 3 = Ok f'
             /\ tableLine sampleFumpter 14 = 3 /\ tableLine f' 14 = 1
             /\ token.LineCount (tokFile f') = 1.
Proof.
  destruct (removeLines_joins_lines sampleFumpter 1 3 sampleFile_wf)
    as (f' & E & _ & Hc & Hl); [lia | lia | cbn; lia |].
  exists f'. split; [exact E|]. split; [reflexivity|]. split.
  - rewrite Hl by (unfold inF, inFile; cbn; lia). reflexivity.
  - rewrite Hc. reflexivity.
Defined.

Lemma MergeLine_length (tf tf' : token.File) (line : Z) :
  token.MergeLine tf line = Ok tf' ->
  1 <= line < token.LineCount tf /\ token.LineCount tf' = token.LineCount tf - 1.
Proof.
  unfold token.MergeLine, token.LineCount.
  destruct (line <? 1) eqn:E1; [discriminate|].
  destruct (Z.of_nat (List.length (token.lines tf)) <=? line) eqn:E2; [discriminate|].
  apply Z.ltb_ge in E1. apply Z.leb_gt in E2. intros H.
  assert (token.lines tf'
          = firstn (Z.to_nat line) (token.lines tf)
            ++ skipn (S (Z.to_nat line)) (token.lines tf)) as ->
      by (injection H as <-; reflexivity).
  rewrite length_app, length_firstn, length_skipn. lia.
Qed.

Lemma removeLines_loop_panics (n : nat) :
  forall (tf : token.File) (fromLine : Z),
    (exists msg, removeLines_loop n tf fromLine = Panic msg)
    <-> (0 < n)%nat /\ (fromLine < 1 \/ token.LineCount tf < fromLine + Z.of_nat n).
Proof.
  induction n as [|n IH]; intros tf fromLine.
  - cbn [removeLines_loop]. split; [intros [msg H]; discriminate | intros [H _]; lia].
  - cbn [removeLines_loop]. destruct (token.MergeLine tf fromLine) as [tf'|msg] eqn:E.
    + cbn [bind]. rewrite IH. destruct (MergeLine_length _ _ _ E) as [H1 H2]. lia.
    + cbn [bind]. split; [intros _ | intros _; now exists msg].
      split; [lia|]. unfold token.MergeLine in E.
      destruct (fromLine <? 1) eqn:E1; [apply Z.ltb_lt in E1; lia|].
      destruct (token.LineCount tf <=? fromLine) eqn:E2; [|discriminate].
      apply Z.leb_le in E2. lia.
Qed.

(** X2.  [removeLines] panics exactly when it has a line to merge and
    the range leaves the table: [fromLine < toLine] with [fromLine] below
    1 or [toLine] above the number of lines.  With [toLine <= fromLine]
    it does nothing, whatever the two numbers are. *)
Theorem removeLines_panics_iff (f : fumpter) (fromLine toLine : Z) :
  ((exists msg, removeLines f fromLine toLine = Panic msg)
   <-> fromLine < toLine /\ (fromLine < 1 \/ token.LineCount (tokFile f) < toLine))
  /\ (toLine <= fromLine -> removeLines f fromLine toLine = Ok f).
Proof.
  split.
  - unfold removeLines.
    pose proof (removeLines_loop_panics (Z.to_nat (toLine - fromLine)) (tokFile f) fromLine) as H.
    destruct (removeLines_loop (Z.to_nat (toLine - fromLine)) (tokFile f) fromLine) as [tf|msg];
      cbn [bind].
    + split; [intros [m Hm]; discriminate|]. intros Hr.
      destruct (proj2 H) as [m Hm]; [lia | discriminate].
    + split; [|intros _; now exists msg].
      intros _. destruct (proj1 H) as [H1 H2]; [now exists msg | lia].
  - intros Hle. unfold removeLines. replace (Z.to_nat (toLine - fromLine)) with O by lia.
    cbn [removeLines_loop bind]. now destruct f.
Qed.

(** X3.  In a file without line directives, [removeLinesBetween from to]
    leaves one line break between the two positions where there was at least one, and none where there was
    none; [from] keeps its line; and a second application changes
    nothing. *)
Theorem removeLinesBetween_leaves_one_break (f : fumpter) (from to : token.Pos) :
  wfF f -> inF f from -> inF f to -> from <= to ->
  exists f',
    removeLinesBetween f from to = Ok f'
    /\ wfF f'
    /\ Line f' from = Line f from
    /\ Line f' to - Line f' from = Z.min 1 (Line f to - Line f from)
    /\ removeLinesBetween f' from to = Ok f'.
Proof.
  intros Hwf Hfrom Hto Hle.
  destruct (removeLinesBetween_gaps f from to Hwf Hfrom Hto Hle)
    as (l & E & Hwf' & Hlow & _ & Hgap).
  exists (withLines f l). split; [exact E|]. split; [exact Hwf'|].
  split; [apply Hlow; [exact Hfrom | lia]|]. split; [exact Hgap|].
  apply removeLinesBetween_noop; try assumption. unfold gap in Hgap. lia.
Qed.

Lemma removeLinesBetween_leaves_one_break_witness :
  exists f', removeLinesBetween sampleFumpter 2 14 = Ok f'
             /\ Line sampleFumpter 14 - Line sampleFumpter 2 = 2
             /\ Line f' 14 - Line f' 2 = 1.
Proof.
  destruct (removeLinesBetween_leaves_one_break sampleFumpter 2 14 (conj sampleFile_wf eq_refl))
    as (f' & E & _ & _ & Hg & _); [unfold inF, inFile; cbn; lia .. | lia |].
  exists f'. split; [exact E|]. split; [reflexivity | exact Hg].
Defined.

(** * More on the line table: [addNewline] *)

Lemma addedLines_In (l : list Z) (x z : Z) :
  In z (addedLines l x) <-> z = x \/ In z l.
Proof.
  unfold addedLines. destruct (memZ x l) eqn:M.
  - apply memZ_In in M. split; [auto | intros [->|H]; assumption].
  - apply insertLine_In.
Qed.

Lemma addedLines_length (l : list Z) (x : Z) :
  (List.length l <= List.length (addedLines l x) <= S (List.length l))%nat.
Proof.
  unfold addedLines. destruct (memZ x l); [lia|]. rewrite insertLine_length. lia.
Qed.

Lemma countLE_all_above (l : list Z) (x : Z) :
  Forall (Z.lt x) l -> countLE l x = 0.
Proof.
  induction 1 as [|c l Hc _ IH]; [reflexivity|].
  cbn [countLE]. rewrite IH.
  replace (c <=? x) with false by (symmetry; apply Z.leb_gt; lia). reflexivity.
Qed.

(** On a sorted table the search finds a line start at its own index. *)
Lemma searchInts_nth (l : list Z) (x : Z) :
  StronglySorted Z.lt l -> In x l ->
  0 <= token.searchInts l x /\ nth (Z.to_nat (token.searchInts l x)) l 0 = x.
Proof.
  induction 1 as [|c l Hs IH Hall]; intros Hin; [contradiction|].
  cbn [token.searchInts].
  destruct Hin as [->|Hin].
  - rewrite Z.leb_refl. rewrite (proj1 (Z.add_move_r _ _ _) (searchInts_countLE l x Hs)).
    rewrite (countLE_all_above l x Hall). split; [lia | reflexivity].
  - pose proof (proj1 (Forall_forall _ _) Hall _ Hin) as Hlt.
    replace (c <=? x) with true by (symmetry; apply Z.leb_le; lia).
    destruct (IH Hin) as [H0 Hn]. split; [lia|].
    replace (Z.to_nat (1 + token.searchInts l x)) with (S (Z.to_nat (token.searchInts l x)))
      by lia.
    exact Hn.
Qed.

(** X4.  [addNewline] at a position before the end of the file makes that
    position the first column of a line of the table: its column there is
    1, the byte before it is on an earlier line, and the table has at most
    one line more. *)
Theorem addNewline_starts_line (f : fumpter) (at_ : token.Pos) :
  wfTable f ->
  token.base (tokFile f) <= at_ < token.base (tokFile f) + token.size (tokFile f) ->
  exists f',
    addNewline f at_ = Ok f'
    /\ token.tableColumn (tokFile f') at_ = 1
    /\ (token.base (tokFile f) < at_ -> tableLine f' (at_ - 1) < tableLine f' at_)
    /\ token.LineCount (tokFile f) <= token.LineCount (tokFile f')
       <= token.LineCount (tokFile f) + 1.
Proof.
  intros Hwf Hat.
  pose proof (addedLines_wf (tokFile f) (at_ - token.base (tokFile f)) Hwf ltac:(lia)) as Hwf'.
  set (l' := addedLines (token.lines (tokFile f)) (at_ - token.base (tokFile f))) in *.
  assert (In (at_ - token.base (tokFile f)) l') as Hin by (apply addedLines_In; now left).
  exists (withLines f l'). split; [now apply addNewline_ok|]. split; [|split].
  - unfold token.tableColumn, token.NoPos. pose proof (wf_base _ Hwf).
    replace (at_ =? 0) with false by (symmetry; apply Z.eqb_neq; lia).
    rewrite base_withLines, lines_withLines.
    destruct (searchInts_nth l' _ (wf_sorted _ Hwf') Hin) as [H0 Hn].
    replace (0 <=? token.searchInts l' (at_ - token.base (tokFile f))) with true
      by (symmetry; apply Z.leb_le; lia).
    rewrite Hn. lia.
  - intros Hlt.
    assert (inF f at_ /\ inF f (at_ - 1)) as [H1 H2] by (unfold inF, inFile; lia).
    rewrite !Line_withLines_table by assumption.
    apply countLE_In_lt in Hin.
    replace (at_ - 1 - token.base (tokFile f)) with (at_ - token.base (tokFile f) - 1) by lia.
    exact Hin.
  - unfold token.LineCount. rewrite lines_withLines.
    pose proof (addedLines_length (token.lines (tokFile f)) (at_ - token.base (tokFile f))).
    fold l' in H. lia.
Qed.

Lemma addNewline_starts_line_witness :
  exists f', addNewline sampleFumpter 9 = Ok f'
             /\ token.tableColumn (tokFile sampleFumpter) 9 = 4
             /\ token.tableColumn (tokFile f') 9 = 1.
Proof.
  destruct (addNewline_starts_line sampleFumpter 9 sampleFile_wf) as (f' & E & Hc & _);
    [cbn; lia|].
  exists f'. split; [exact E|]. split; [reflexivity | exact Hc].
Defined.

Lemma validLines_beyond_size (size x : Z) (l : list Z) :
  forall prev, In x l -> size <= x -> token.validLines size prev l = false.
Proof.
  induction l as [|c l IH]; intros prev Hin Hx; [contradiction|].
  cbn [token.validLines].
  destruct (match prev with Some p => c <=? p | None => false end || (size <=? c)) eqn:E;
    [reflexivity|].
  destruct Hin as [->|Hin]; [|now apply IH].
  apply orb_false_iff in E. destruct E as [_ E]. apply Z.leb_gt in E. lia.
Qed.

(** X6.  [addNewline] cannot put a line start at the end-of-file position
    [base + size]: [SetLines] refuses an offset that is not below the
    file size, and the formatter panics. *)
Theorem addNewline_at_file_end_panics (f : fumpter) :
  wfTable f ->
  addNewline f (token.base (tokFile f) + token.size (tokFile f))
  = Panic "could not set lines".
Proof.
  intros Hwf. destruct Hwf as [Hb Hh Hs Hbd]. unfold addNewline.
  assert (0 < token.size (tokFile f)) as Hsz.
  { destruct (token.lines (tokFile f)) as [|c l]; [discriminate|].
    injection Hh as ->. inversion Hbd; subst. lia. }
  rewrite Offset_inFile by (unfold inFile; lia). cbn [bind].
  replace (token.base (tokFile f) + token.size (tokFile f) - token.base (tokFile f))
    with (token.size (tokFile f)) by lia.
  assert (~ In (token.size (tokFile f)) (token.lines (tokFile f))) as Hn.
  { intros Hin. pose proof (proj1 (Forall_forall _ _) Hbd _ Hin) as Hlt.
    cbv beta in Hlt. lia. }
  destruct (addNewline_loop_insert (token.lines (tokFile f)) [] (token.size (tokFile f))
              Hs ltac:(lia) Hn) as (o & l & -> & Hl).
  rewrite Hl. cbn [app]. unfold token.SetLines.
  rewrite (validLines_beyond_size (token.size (tokFile f)) (token.size (tokFile f)));
    [reflexivity | apply insertLine_In; now left | lia].
Qed.

Lemma addNewline_at_file_end_panics_witness :
  addNewline sampleFumpter 21 = Panic "could not set lines".
Proof. exact (addNewline_at_file_end_panics sampleFumpter sampleFile_wf). Defined.

(** Two strictly increasing tables with the same entries are equal. *)
Lemma StronglySorted_lt_ext (l1 : list Z) :
  forall l2, StronglySorted Z.lt l1 -> StronglySorted Z.lt l2 ->
             (forall z, In z l1 <-> In z l2) -> l1 = l2.
Proof.
  induction l1 as [|c l1 IH]; intros l2 H1 H2 Hext.
  - destruct l2 as [|d l2]; [reflexivity|]. destruct (proj2 (Hext d) ltac:(now left)).
  - destruct l2 as [|d l2]; [destruct (proj1 (Hext c) ltac:(now left))|].
    inversion H1 as [|? ? Hs1 Ha1]; inversion H2 as [|? ? Hs2 Ha2]; subst.
    pose proof (proj1 (Forall_forall _ _) Ha1) as F1.
    pose proof (proj1 (Forall_forall _ _) Ha2) as F2.
    assert (c = d) as ->.
    { destruct (proj1 (Hext c) ltac:(now left)) as [E|Hc]; [auto|].
      destruct (proj2 (Hext d) ltac:(now left)) as [E|Hd]; [auto|].
      specialize (F1 _ Hd). specialize (F2 _ Hc). lia. }
    f_equal. apply IH; try assumption. intros z. split; intros Hz.
    + destruct (proj1 (Hext z) ltac:(now right)) as [E|Hz']; [|exact Hz'].
      specialize (F1 _ Hz). lia.
    + destruct (proj2 (Hext z) ltac:(now right)) as [E|Hz']; [|exact Hz'].
      specialize (F2 _ Hz). lia.
Qed.

(** X5.  Two line breaks can be forced in either order: the resulting
    table is the same. *)
Theorem addNewline_commutes (f : fumpter) (p q : token.Pos) :
  wfTable f ->
  token.base (tokFile f) <= p < token.base (tokFile f) + token.size (tokFile f) ->
  token.base (tokFile f) <= q < token.base (tokFile f) + token.size (tokFile f) ->
  (f1 <- addNewline f p ;; addNewline f1 q) = (f2 <- addNewline f q ;; addNewline f2 p).
Proof.
  intros Hwf Hp Hq.
  set (lp := addedLines (token.lines (tokFile f)) (p - token.base (tokFile f))).
  set (lq := addedLines (token.lines (tokFile f)) (q - token.base (tokFile f))).
  assert (wfTable (withLines f lp)) as Wp by (apply (addedLines_wf (tokFile f)); [exact Hwf | lia]).
  assert (wfTable (withLines f lq)) as Wq by (apply (addedLines_wf (tokFile f)); [exact Hwf | lia]).
  assert (addNewline f p = Ok (withLines f lp)) as -> by (now apply addNewline_ok).
  assert (addNewline f q = Ok (withLines f lq)) as -> by (now apply addNewline_ok).
  cbn [bind].
  assert (addNewline (withLines f lp) q
          = Ok (withLines f (addedLines lp (q - token.base (tokFile f))))) as ->
      by exact (addNewline_ok (withLines f lp) q Wp Hq).
  assert (addNewline (withLines f lq) p
          = Ok (withLines f (addedLines lq (p - token.base (tokFile f))))) as ->
      by exact (addNewline_ok (withLines f lq) p Wq Hp).
  f_equal. f_equal.
  pose proof (addedLines_wf _ (q - token.base (tokFile f)) Wp ltac:(cbn; lia)) as Wpq.
  pose proof (addedLines_wf _ (p - token.base (tokFile f)) Wq ltac:(cbn; lia)) as Wqp.
  apply StronglySorted_lt_ext;
    [exact (wf_sorted _ Wpq) | exact (wf_sorted _ Wqp) |].
  intros z. unfold lp, lq. rewrite !addedLines_In. tauto.
Qed.

Lemma addNewline_commutes_witness :
  (f1 <- addNewline sampleFumpter 9 ;; addNewline f1 3)
  = (f2 <- addNewline sampleFumpter 3 ;; addNewline f2 9)
  /\ exists f', (f1 <- addNewline sampleFumpter 9 ;; addNewline f1 3) = Ok f'
                /\ token.lines (tokFile f') = [0; 2; 5; 8; 12].
Proof.
  split.
  - apply (addNewline_commutes sampleFumpter 9 3 sampleFile_wf); cbn; lia.
  - eexists. split; reflexivity.
Defined.

Lemma insertLine_remove (l : list Z) (x : Z) :
  StronglySorted Z.lt l -> ~ In x l ->
  firstn (Z.to_nat (countLE l x)) (insertLine x l)
  ++ skipn (S (Z.to_nat (countLE l x))) (insertLine x l) = l.
Proof.
  induction 1 as [|c l Hs IH Hall]; intros Hn; [reflexivity|].
  cbn [insertLine countLE]. destruct (x <? c) eqn:E.
  - apply Z.ltb_lt in E.
    replace (c <=? x) with false by (symmetry; apply Z.leb_gt; lia).
    rewrite (countLE_above l c x Hall E). reflexivity.
  - apply Z.ltb_ge in E. assert (c <> x) by (intros ->; apply Hn; now left).
    replace (c <=? x) with true by (symmetry; apply Z.leb_le; lia).
    pose proof (countLE_bounds l x).
    replace (Z.to_nat (1 + countLE l x)) with (S (Z.to_nat (countLE l x))) by lia.
    cbn [firstn skipn app]. f_equal. apply IH. intros Hin. apply Hn. now right.
Qed.

(** X7.  A forced line break is undone by merging the line before it:
    after [addNewline] at an offset that did not start a line, the
    position is one line further down in the table, and [removeLines]
    from its old line to its new one gives the table back. *)
Theorem addNewline_removeLines_round_trip (f : fumpter) (at_ : token.Pos) :
  wfTable f ->
  token.base (tokFile f) <= at_ < token.base (tokFile f) + token.size (tokFile f) ->
  ~ In (at_ - token.base (tokFile f)) (token.lines (tokFile f)) ->
  exists f',
    addNewline f at_ = Ok f'
    /\ tableLine f' at_ = tableLine f at_ + 1
    /\ removeLines f' (tableLine f at_) (tableLine f' at_) = Ok f.
Proof.
  intros Hwf Hat Hn.
  assert (inF f at_) as Hin by (unfold inF, inFile; lia).
  pose proof (addedLines_wf (tokFile f) (at_ - token.base (tokFile f)) Hwf ltac:(lia)) as Hwf'.
  assert (addedLines (token.lines (tokFile f)) (at_ - token.base (tokFile f))
          = insertLine (at_ - token.base (tokFile f)) (token.lines (tokFile f))) as Hl.
  { unfold addedLines.
    destruct (memZ (at_ - token.base (tokFile f)) (token.lines (tokFile f))) eqn:M;
      [apply memZ_In in M; contradiction | reflexivity]. }
  rewrite Hl in Hwf'.
  exists (withLines f (insertLine (at_ - token.base (tokFile f)) (token.lines (tokFile f)))).
  split; [rewrite <- Hl; now apply addNewline_ok|].
  assert (tableLine (withLines f (insertLine (at_ - token.base (tokFile f))
                               (token.lines (tokFile f)))) at_ = tableLine f at_ + 1) as HLine.
  { rewrite Line_withLines_table by assumption. rewrite insertLine_countLE, <- Line_F_table by assumption.
    now rewrite Z.leb_refl. }
  split; [exact HLine|].
  pose proof (Line_F_valid_table f at_ Hwf Hin) as Hv.
  pose proof (Line_F_valid_table (withLines f (insertLine (at_ - token.base (tokFile f))
                                          (token.lines (tokFile f)))) at_ Hwf' Hin) as Hv'.
  rewrite removeLines_ok by lia. rewrite HLine.
  unfold linesAfterRemove. rewrite Z.max_r by lia.
  rewrite lines_withLines.
  replace (Z.to_nat (tableLine f at_ + 1)) with (S (Z.to_nat (tableLine f at_))) by lia.
  rewrite (Line_F_table f at_ Hwf Hin).
  rewrite (insertLine_remove _ _ (wf_sorted _ Hwf) Hn).
  f_equal. exact (withLines_same f).
Qed.

Lemma addNewline_removeLines_round_trip_witness :
  exists f', addNewline sampleFumpter 9 = Ok f'
             /\ token.lines (tokFile f') = [0; 5; 8; 12]
             /\ removeLines f' 2 3 = Ok sampleFumpter.
Proof.
  destruct (addNewline_removeLines_round_trip sampleFumpter 9 sampleFile_wf)
    as (f' & E & _ & Hr); [cbn; lia | cbn; intuition lia |].
  exists f'. split; [exact E|]. split.
  - assert (Ok f' = Ok (withLines sampleFumpter [0; 5; 8; 12])) as H
        by (rewrite <- E; reflexivity).
    injection H as ->. reflexivity.
  - assert (Ok f' = Ok (withLines sampleFumpter [0; 5; 8; 12])) as H
        by (rewrite <- E; reflexivity).
    injection H as ->. exact Hr.
Defined.

(** * [lineEnd] *)

Lemma countLE_nth (l : list Z) :
  StronglySorted Z.lt l ->
  forall i : nat, (i < List.length l)%nat ->
    countLE l (nth i l 0) = Z.of_nat i + 1 /\ countLE l (nth i l 0 - 1) = Z.of_nat i.
Proof.
  induction 1 as [|c l Hs IH Hall]; intros i Hi; cbn [List.length] in Hi; [lia|].
  destruct i as [|i]; cbn [nth countLE].
  - rewrite Z.leb_refl, (countLE_all_above l c Hall).
    replace (c <=? c - 1) with false by (symmetry; apply Z.leb_gt; lia).
    rewrite (countLE_above l c (c - 1) Hall) by lia. lia.
  - assert (c < nth i l 0) as Hlt
        by (apply (proj1 (Forall_forall _ _) Hall); apply nth_In; lia).
    destruct (IH i ltac:(lia)) as [H1 H2]. rewrite H1, H2.
    replace (c <=? nth i l 0) with true by (symmetry; apply Z.leb_le; lia).
    replace (c <=? nth i l 0 - 1) with true by (symmetry; apply Z.leb_le; lia).
    lia.
Qed.

(** X8.  [lineEnd line] panics for a line number outside [1 .. LineCount];
    for a line before the last it returns the last position of that line
    of the table: a position of the file on [line] whose successor is on
    [line + 1]. *)
Theorem lineEnd_last_position_of_line (f : fumpter) (line : Z) :
  wfTable f ->
  (line < 1 \/ token.LineCount (tokFile f) < line ->
   lineEnd f line = Panic "illegal line number")
  /\ (1 <= line < token.LineCount (tokFile f) ->
      exists p, lineEnd f line = Ok p /\ inF f p
                /\ tableLine f p = line /\ tableLine f (p + 1) = line + 1).
Proof.
  intros Hwf. split.
  - intros H. unfold lineEnd. destruct (line <? 1) eqn:E1; [reflexivity|].
    apply Z.ltb_ge in E1.
    replace (token.LineCount (tokFile f) <? line) with true
      by (symmetry; apply Z.ltb_lt; lia).
    reflexivity.
  - intros [H1 H2]. unfold lineEnd, token.LineStart.
    replace (line <? 1) with false by (symmetry; apply Z.ltb_ge; lia).
    replace (token.LineCount (tokFile f) <? line) with false
      by (symmetry; apply Z.ltb_ge; lia).
    replace (line =? token.LineCount (tokFile f)) with false
      by (symmetry; apply Z.eqb_neq; lia).
    replace (line + 1 <? 1) with false by (symmetry; apply Z.ltb_ge; lia).
    replace (token.LineCount (tokFile f) <? line + 1) with false
      by (symmetry; apply Z.ltb_ge; lia).
    cbn [bind]. replace (line + 1 - 1) with line by lia.
    unfold token.LineCount in H2.
    set (y := nth (Z.to_nat line) (token.lines (tokFile f)) 0).
    destruct (countLE_nth _ (wf_sorted _ Hwf) (Z.to_nat line) ltac:(lia)) as [C1 C2].
    fold y in C1, C2.
    assert (0 < y < token.size (tokFile f)) as Hy.
    { assert (In y (token.lines (tokFile f))) as Hin by (apply nth_In; lia).
      split; [|exact (proj1 (Forall_forall _ _) (wf_bound _ Hwf) _ Hin)].
      pose proof (wf_head _ Hwf) as Hh. pose proof (wf_sorted _ Hwf) as Hs. unfold y.
      destruct (token.lines (tokFile f)) as [|c l]; [discriminate|].
      injection Hh as ->. inversion Hs as [|? ? _ Hall]; subst.
      destruct (Z.to_nat line) as [|i] eqn:Ei; [lia|]. cbn [nth].
      apply (proj1 (Forall_forall _ _) Hall). apply nth_In. cbn [List.length] in H2. lia. }
    pose proof (wf_base _ Hwf) as Hb.
    exists (token.base (tokFile f) + y - 1). split; [reflexivity|].
    assert (inF f (token.base (tokFile f) + y - 1)) as Hp by (unfold inF, inFile; lia).
    assert (inF f (token.base (tokFile f) + y - 1 + 1)) as Hp' by (unfold inF, inFile; lia).
    split; [exact Hp|].
    rewrite (Line_F_table f _ Hwf Hp), (Line_F_table f _ Hwf Hp').
    replace (token.base (tokFile f) + y - 1 - token.base (tokFile f)) with (y - 1) by lia.
    replace (token.base (tokFile f) + y - 1 + 1 - token.base (tokFile f)) with y by lia.
    lia.
Qed.

Lemma lineEnd_last_position_of_line_witness :
  lineEnd sampleFumpter 0 = Panic "illegal line number"
  /\ lineEnd sampleFumpter 4 = Panic "illegal line number"
  /\ exists p, lineEnd sampleFumpter 2 = Ok p /\ tableLine sampleFumpter p = 2
               /\ tableLine sampleFumpter (p + 1) = 3.
Proof.
  split; [|split].
  - apply (lineEnd_last_position_of_line sampleFumpter 0 sampleFile_wf). lia.
  - apply (lineEnd_last_position_of_line sampleFumpter 4 sampleFile_wf). cbn. lia.
  - destruct (proj2 (lineEnd_last_position_of_line sampleFumpter 2 sampleFile_wf))
      as (p & E & _ & L1 & L2); [cbn; lia|].
    exists p. auto.
Defined.

(** * [commentsBetween] *)

(** A list on which [q] is false up to index [r] and true from there on:
    [filter] cuts it at [r]. *)
Lemma filter_threshold {A : Type} (q : A -> bool) (d : A) (l : list A) :
  forall r : nat,
    (r <= List.length l)%nat ->
    (forall k, (k < r)%nat -> q (nth k l d) = false) ->
    (forall k, (r <= k < List.length l)%nat -> q (nth k l d) = true) ->
    filter q l = skipn r l /\ filter (fun x => negb (q x)) l = firstn r l.
Proof.
  induction l as [|x l IH]; intros r Hr Hlow Hhigh.
  - cbn in Hr. assert (r = O) as -> by lia. split; reflexivity.
  - cbn [List.length] in *. destruct r as [|r].
    + assert (forall y, In y (x :: l) -> q y = true) as Hall.
      { intros y Hy. destruct (In_nth _ _ d Hy) as (k & Hk & <-). apply Hhigh.
        cbn [List.length] in Hk. lia. }
      cbn [skipn firstn]. split.
      * apply forallb_filter_id. apply forallb_forall. exact Hall.
      * clear - Hall. induction (x :: l) as [|y l' IH']; [reflexivity|].
        cbn [filter]. rewrite (Hall y) by now left. cbn [negb]. apply IH'.
        intros z Hz. apply Hall. now right.
    + pose proof (Hlow O ltac:(lia)) as H0. cbn [nth] in H0.
      cbn [filter skipn firstn]. rewrite H0. cbn [negb].
      destruct (IH r) as [H1 H2]; [lia | | |].
      * intros k Hk. apply (Hlow (S k)). lia.
      * intros k Hk. apply (Hhigh (S k)). lia.
      * split; [exact H1 | now rewrite H2].
Qed.

Lemma filter_andb {A : Type} (q1 q2 : A -> bool) (l : list A) :
  filter q2 (filter q1 l) = filter (fun x => q1 x && q2 x) l.
Proof.
  induction l as [|x l IH]; [reflexivity|].
  cbn [filter]. destruct (q1 x); cbn [andb filter]; [|exact IH].
  destruct (q2 x); now rewrite IH.
Qed.

Lemma StronglySorted_filter {A : Type} (R : A -> A -> Prop) (q : A -> bool) (l : list A) :
  StronglySorted R l -> StronglySorted R (filter q l).
Proof.
  induction 1 as [|x l Hs IH Hall]; [constructor|].
  cbn [filter]. destruct (q x); [|exact IH].
  constructor; [exact IH|]. apply Forall_forall. intros y Hy.
  apply filter_In in Hy. exact (proj1 (Forall_forall _ _) Hall y (proj1 Hy)).
Qed.

(** The binary search over a position-sorted comment list cuts it at the
    first group at or after [p]. *)
Lemma Search_comments (cs : list ast.CommentGroup) (p : token.Pos) :
  StronglySorted (fun g g' => ast.CommentGroup_Pos g <= ast.CommentGroup_Pos g') cs ->
  let i := sort.Search (len cs) (fun i => p <=? ast.CommentGroup_Pos (index cs i dummyGroup)) in
  skipn (Z.to_nat i) cs = filter (fun g => p <=? ast.CommentGroup_Pos g) cs
  /\ firstn (Z.to_nat i) cs = filter (fun g => negb (p <=? ast.CommentGroup_Pos g)) cs.
Proof.
  intros Hs i.
  destruct (Search_spec (fun i => p <=? ast.CommentGroup_Pos (index cs i dummyGroup)) (len cs))
    as (Hr & Hlow & Hhigh).
  - unfold len. lia.
  - intros k k' Hk Hkk' Hk' Hp. apply Z.leb_le in Hp. apply Z.leb_le.
    destruct (Z.eq_dec k k') as [->|Hne]; [exact Hp|].
    pose proof (StronglySorted_nth _ dummyGroup cs Hs (Z.to_nat k) (Z.to_nat k')
                  ltac:(lia) ltac:(unfold len in Hk'; lia)) as Hle.
    unfold index in *. cbv beta in Hle. lia.
  - fold i in Hr, Hlow, Hhigh. unfold len in Hr.
    destruct (filter_threshold (fun g => p <=? ast.CommentGroup_Pos g) dummyGroup cs
                (Z.to_nat i)) as [H1 H2].
    + lia.
    + intros k Hk. specialize (Hlow (Z.of_nat k) ltac:(lia)).
      unfold index in Hlow. now rewrite Nat2Z.id in Hlow.
    + intros k Hk. specialize (Hhigh (Z.of_nat k) ltac:(unfold len; lia)).
      unfold index in Hhigh. now rewrite Nat2Z.id in Hhigh.
    + split; [now rewrite H1 | now rewrite H2].
Qed.

(** X9.  On a comment list sorted by position, [commentsBetween p1 p2]
    returns exactly the comment groups starting in [[p1, p2)], in their
    order in the file (so none at all when [p2 <= p1]). *)
Theorem commentsBetween_selects (f : fumpter) (p1 p2 : token.Pos) :
  StronglySorted (fun g g' => ast.CommentGroup_Pos g <= ast.CommentGroup_Pos g')
    (ast.Comments (astFile f)) ->
  commentsBetween f p1 p2
  = filter (fun g => (p1 <=? ast.CommentGroup_Pos g) && (ast.CommentGroup_Pos g <? p2))
      (ast.Comments (astFile f)).
Proof.
  intros Hs. unfold commentsBetween.
  destruct (Search_comments _ p1 Hs) as [H1 _]. cbv zeta in H1. rewrite H1.
  destruct (Search_comments _ p2 (StronglySorted_filter _ (fun g => p1 <=? ast.CommentGroup_Pos g)
                                     _ Hs)) as [_ H2].
  cbv zeta in H2. rewrite H2, filter_andb.
  apply filter_ext. intros g. now rewrite Z.ltb_antisym.
Qed.

Lemma commentsBetween_selects_witness :
  commentsBetween commentFumpter 9 18
  = [ast.mkCommentGroup [ast.mkComment 13 "// b"; ast.mkComment 18 "// c"]]
  /\ commentsBetween commentFumpter 18 9 = [].
Proof.
  pose proof (sc_sorted _ commentFumpter_sorted) as Hs.
  split.
  - rewrite (commentsBetween_selects commentFumpter 9 18 Hs). reflexivity.
  - rewrite (commentsBetween_selects commentFumpter 18 9 Hs). reflexivity.
Defined.

(** * Case clauses *)

Lemma caseFumpter_wf : wfF caseFumpter.
Proof.
  split; [|reflexivity].
  constructor; cbn; [lia | reflexivity | | ]; repeat constructor; lia.
Qed.

(** X10.  In a file without line directives, the case-clause rule joins
    the lines from [case] to the colon exactly when the estimated printed length of the clause is at most
    [shortLineLimit] (60): with no comment between [case] and the colon,
    a clause of estimated length up to 60 has both on the line of [case]
    afterwards, and a longer one only gets the treatment of its body
    statements. *)
Theorem applyPre_CaseClause_joins_short_clause
  (formatNodeLength : token.File -> ast.Node -> option Z)
  (f f1 : fumpter) (node : ast.Node) (Case Colon : token.Pos) (Body : list ast.Stmt) (n : Z) :
  wfF f -> inF f Case -> inF f Colon -> Case <= Colon ->
  ordered f Colon Body -> Forall assignHasLhs Body ->
  commentsBetween f Case Colon = [] ->
  stmts f Body = Ok f1 -> printLength formatNodeLength f1 node = Ok n ->
  exists f',
    applyPre_CaseClause formatNodeLength f node Case Colon Body = Ok f'
    /\ if n <=? shortLineLimit
       then Line f' Colon = Line f' Case /\ Line f' Case = Line f Case
       else f' = f1.
Proof.
  intros Hwf HC HK Hle Hord Hlhs Hcom Hst Hlen.
  destruct (stmts_frame f Colon Body Hwf Hord Hlhs) as (l1 & E1 & Hwf1 & Hlow1 & _).
  rewrite Hst in E1. injection E1 as ->.
  assert (forall p, inF f p -> p <= Colon -> Line (withLines f l1) p = Line f p) as Hlow.
  { intros p Hp Hpc. apply Hlow1; [exact Hp|]. intros s Hs.
    destruct (ordered_In _ _ _ _ Hord Hs) as (K & _). lia. }
  unfold applyPre_CaseClause. rewrite Hst. cbn [bind].
  rewrite commentsBetween_withLines, Hcom. cbn [len List.length Z.of_nat].
  replace (0 <? 0) with false by reflexivity.
  rewrite Hlen. cbn [bind].
  pose proof (Line_F_valid _ Case Hwf1 HC) as V1.
  pose proof (Line_F_valid _ Colon Hwf1 HK) as V2.
  pose proof (Line_F_mono _ Case Colon Hwf1 HC HK Hle) as Hm.
  destruct (Line (withLines f l1) Case =? Line (withLines f l1) Colon) eqn:Eq.
  - apply Z.eqb_eq in Eq. exists (withLines f l1). split; [reflexivity|].
    destruct (n <=? shortLineLimit); [|reflexivity].
    split; [now symmetry | apply Hlow; [exact HC | exact Hle]].
  - rewrite Z.ltb_antisym. destruct (n <=? shortLineLimit); cbn [negb].
    + destruct (removeLines_spec (withLines f l1) _ _ Hwf1 (proj1 V1) (proj2 V2))
        as (l2 & E2 & Hwf2 & _ & HLine).
      rewrite withLines_withLines in *.
      exists (withLines f l2). split; [exact E2|].
      rewrite (HLine Case HC), (HLine Colon HK). unfold mergedLine.
      rewrite Z.leb_refl. cbn [orb].
      replace (Line (withLines f l1) Colon <=? Line (withLines f l1) Case) with false
        by (symmetry; apply Z.leb_gt; apply Z.eqb_neq in Eq; lia).
      replace (Line (withLines f l1) Colon <? Line (withLines f l1) Case) with false
        by (symmetry; apply Z.ltb_ge; lia).
      cbn [orb]. rewrite Z.leb_refl.
      split; [reflexivity | apply Hlow; [exact HC | exact Hle]].
    + exists (withLines f l1). split; reflexivity.
Qed.

Lemma applyPre_CaseClause_joins_short_clause_witness :
  (exists f', applyPre_CaseClause (fun _ _ => Some 60) caseFumpter (ast.OtherNode 1 12) 1 11 []
              = Ok f'
              /\ Line caseFumpter 11 = 2 /\ Line f' 11 = 1)
  /\ applyPre_CaseClause (fun _ _ => Some 61) caseFumpter (ast.OtherNode 1 12) 1 11 []
     = Ok caseFumpter.
Proof.
  split.
  - destruct (applyPre_CaseClause_joins_short_clause (fun _ _ => Some 60) caseFumpter
                caseFumpter (ast.OtherNode 1 12) 1 11 [] 60 caseFumpter_wf)
      as (f' & E & Hj & Hc);
      [unfold inF, inFile; cbn; lia | unfold inF, inFile; cbn; lia | lia | exact I
       | constructor | reflexivity | reflexivity | reflexivity |].
    exists f'. split; [exact E|]. split; [reflexivity|]. rewrite Hj, Hc. reflexivity.
  - destruct (applyPre_CaseClause_joins_short_clause (fun _ _ => Some 61) caseFumpter
                caseFumpter (ast.OtherNode 1 12) 1 11 [] 61 caseFumpter_wf)
      as (f' & E & Hj);
      [unfold inF, inFile; cbn; lia | unfold inF, inFile; cbn; lia | lia | exact I
       | constructor | reflexivity | reflexivity | reflexivity |].
    cbn in Hj. rewrite Hj in E. exact E.
Defined.

(** * [splitLongLine]: the length check *)

Lemma deepFumpter_wf : wfF deepFumpter.
Proof.
  split; [|reflexivity].
  constructor; cbn; [lia | reflexivity | | ]; repeat constructor; lia.
Qed.

(** X15.  In a file without line directives and with splitting enabled,
    [splitLongLine] panics with "negative length" on a one-line list
    member whose column is smaller than the
    block depth while its estimated start column exceeds
    [shortLineLimit]: source nested deeper than it is indented. *)
Theorem splitLongLine_negative_length_panics (f : fumpter) (c : Cursor) (node : ast.Node) :
  wfF f -> cNode c = Some node -> inF f (ast.Node_Pos node) ->
  Line f (ast.Node_Pos node) = Line f (ast.Node_End node) ->
  cParentIsBinaryExpr c = true \/ 0 <= cIndex c ->
  shortLineLimit < startCol f node ->
  startColumn f node < blockLevel f ->
  splitLongLine "on" f c = Panic "negative length".
Proof.
  intros Hwf Hnode Hpos Hline Hlist Hstart Hneg.
  unfold splitLongLine. cbn [String.eqb Ascii.eqb Bool.eqb negb andb].
  rewrite Hnode. rewrite <- Hline, Z.eqb_refl. cbn [negb].
  replace (cParentIsBinaryExpr c || (0 <=? cIndex c)) with true.
  2:{ symmetry. apply orb_true_iff. destruct Hlist as [H|H]; [now left|].
      right. now apply Z.leb_le. }
  cbn [negb]. unfold startCol, startColumn in *.
  assert (forall (A : Type) (x : Z) (a b : A),
             shortLineLimit < x -> (if x <=? shortLineLimit then a else b) = b) as Hif.
  { intros A x a b Hx. replace (x <=? shortLineLimit) with false; [reflexivity|].
    symmetry. apply Z.leb_gt. exact Hx. }
  rewrite (lineEnd_ok f _ Hwf Hpos).
  rewrite Hif by exact Hstart. cbn [bind].
  replace (token.Column (tokFile f) (ast.Node_Pos node) - blockLevel f <? 0) with true
    by (symmetry; apply Z.ltb_lt; lia).
  reflexivity.
Qed.

Lemma splitLongLine_negative_length_panics_witness :
  startCol deepFumpter (ast.OtherNode 5 20) = 68
  /\ splitLongLine "on" deepFumpter (mkCursor (Some (ast.OtherNode 5 20)) false 0)
     = Panic "negative length".
Proof.
  split; [reflexivity|].
  apply (splitLongLine_negative_length_panics deepFumpter
           (mkCursor (Some (ast.OtherNode 5 20)) false 0) (ast.OtherNode 5 20)
           deepFumpter_wf eq_refl).
  - unfold inF, inFile. cbn. lia.
  - reflexivity.
  - right. cbn. lia.
  - vm_compute. reflexivity.
  - vm_compute. reflexivity.
Defined.

(** * The directive pattern *)

Lemma matchWordThenBoundary_first (keyword : string) (k c : ascii) (rest : string) :
  matchWordThenBoundary (String k keyword) (String c rest) = true -> c = k.
Proof.
  unfold matchWordThenBoundary. cbn [HasPrefix]. intros H.
  apply andb_true_iff in H. destruct H as [H _].
  apply andb_true_iff in H. destruct H as [H _]. now apply Ascii.eqb_eq in H.
Qed.

Lemma matchWordsColon_words (w : string) (c : ascii) (rest : string) :
  allLowerOrDash w = true -> isLower c = true ->
  forall seen, (seen = true \/ w <> EmptyString) ->
    matchWordsColon seen (w ++ String ":" (String c rest)) = true.
Proof.
  intros Hw Hc. induction w as [|a w IH]; intros seen Hseen.
  - destruct Hseen as [->|H]; [|contradiction].
    cbn [append matchWordsColon]. replace (isLower ":" || isByte 45 ":") with false by reflexivity.
    replace (isByte 58 ":") with true by reflexivity. cbn [andb]. exact Hc.
  - cbn [allLowerOrDash] in Hw. apply andb_true_iff in Hw. destruct Hw as [Ha Hw].
    cbn [append matchWordsColon]. rewrite Ha. apply IH; [exact Hw | now left].
Qed.

(** X16.  What [rxCommentDirective] accepts.  A comment body that matches
    starts with a lower-case ASCII letter or a hyphen, so a body that
    starts with a space, a tab, a capital or a digit is never a
    directive; and every body made of a non-empty word over [[a-z-]], a
    colon and a lower-case letter, whatever follows, is one. *)
Theorem rxCommentDirective_shape :
  (forall body, rxCommentDirective body = true ->
     exists c rest, body = String c rest /\ isLower c || isByte 45 c = true)
  /\ (forall w c rest,
        w <> EmptyString -> allLowerOrDash w = true -> isLower c = true ->
        rxCommentDirective (w ++ String ":" (String c rest)) = true).
Proof.
  split.
  - intros [|c rest] H; [discriminate|].
    exists c, rest. split; [reflexivity|].
    destruct (isLower c || isByte 45 c) eqn:E; [reflexivity|].
    unfold rxCommentDirective in H. cbn [matchWordsColon] in H. rewrite E in H.
    cbn [andb orb] in H.
    repeat (apply orb_true_iff in H; destruct H as [H|H]);
      apply matchWordThenBoundary_first in H; subst c; discriminate.
  - intros w c rest Hne Hw Hc. unfold rxCommentDirective.
    rewrite (matchWordsColon_words w c rest Hw Hc false) by now right. reflexivity.
Qed.

(** * Field lists *)

Lemma parensFumpter_wf : wfF parensFumpter.
Proof.
  split; [|reflexivity].
  constructor; cbn; [lia | reflexivity | | ]; repeat constructor; lia.
Qed.

(** X11.  In a file without line directives, an empty field list gets its
    parentheses onto one line: with no fields and no comment on the line of the opening parenthesis right
    after it, the rule leaves the closing parenthesis on the line of the
    opening one, which keeps its line; if there is such a comment,
    nothing changes.  The list itself is returned as it is. *)
Theorem applyPre_FieldList_joins_empty_parens
  (typeEqual : option ast.Expr -> option ast.Expr -> bool)
  (f : fumpter) (node : ast.FieldList) (parent : FieldListParent) :
  wfF f -> ast.Fields node = [] ->
  inF f (ast.Opening node) -> inF f (ast.Closing node + 1) ->
  ast.Opening node <= ast.Closing node ->
  (inlineComment f (ast.Opening node) = None ->
   exists f',
     applyPre_FieldList typeEqual f node parent = Ok (f', node)
     /\ wfF f'
     /\ Line f' (ast.Closing node) = Line f' (ast.Opening node)
     /\ Line f' (ast.Opening node) = Line f (ast.Opening node))
  /\ (inlineComment f (ast.Opening node) <> None ->
      applyPre_FieldList typeEqual f node parent = Ok (f, node)).
Proof.
  intros Hwf Hnil HO HC Hle.
  pose proof (wf_base _ (proj1 Hwf)) as Hb.
  assert (token.IsValid (ast.Opening node) = true) as VO.
  { unfold token.IsValid, token.NoPos. apply negb_true_iff, Z.eqb_neq. destruct HO. lia. }
  assert (token.IsValid (ast.Closing node) = true) as VC.
  { unfold token.IsValid, token.NoPos. apply negb_true_iff, Z.eqb_neq. destruct HO. lia. }
  assert (forall g, (if negb (ExtraRules (fOptions g)) then Ok (g, node)
                     else match parent with
                          | FieldsOfFuncDecl | FieldsOfFuncType | FieldsOfInterfaceType =>
                              Ok (g, setFields node
                                       (mergeAdjacentFields typeEqual g (ast.Fields node)))
                          | _ => Ok (g, node)
                          end) = Ok (g, node)) as Htail.
  { intros g. assert (setFields node (mergeAdjacentFields typeEqual g (ast.Fields node)) = node)
      as -> by (rewrite Hnil; destruct node as [o fs c]; cbn in Hnil; subst fs; reflexivity).
    destruct (negb (ExtraRules (fOptions g))), parent; reflexivity. }
  assert (ast.FieldList_Pos node = ast.Opening node) as HP
      by (unfold ast.FieldList_Pos; now rewrite VO).
  assert (ast.FieldList_End node = ast.Closing node + 1) as HE
      by (unfold ast.FieldList_End; now rewrite VC).
  assert (NumFields node = 0) as HN by (unfold NumFields; now rewrite Hnil).
  unfold applyPre_FieldList. rewrite HP, HE, HN, Z.eqb_refl. cbn [andb].
  split.
  - intros Hnone. rewrite Hnone.
    pose proof (Line_F_valid f _ Hwf HO) as V1. pose proof (Line_F_valid f _ Hwf HC) as V2.
    destruct (removeLines_spec f _ _ Hwf (proj1 V1) (proj2 V2)) as (l & E & Hwf' & _ & HLine).
    rewrite E. cbn [bind]. rewrite Htail.
    exists (withLines f l). split; [reflexivity|]. split; [exact Hwf'|].
    assert (inF f (ast.Closing node)) as HCl
        by (apply (inF_between f (ast.Opening node) _ (ast.Closing node + 1)); auto; lia).
    pose proof (Line_F_mono f _ _ Hwf HO HCl Hle) as M1.
    pose proof (Line_F_mono f _ _ Hwf HCl HC ltac:(lia)) as M2.
    rewrite (HLine _ HO), (HLine _ HCl). unfold mergedLine.
    split; split_ifs; try lia.
    all: rewrite ?orb_true_iff, ?orb_false_iff, ?Z.leb_le, ?Z.leb_gt, ?Z.ltb_lt, ?Z.ltb_ge in *;
      lia.
  - intros Hsome. destruct (inlineComment f (ast.Opening node)); [|contradiction].
    cbn [bind]. apply Htail.
Qed.

Lemma applyPre_FieldList_joins_empty_parens_witness :
  exists f',
    applyPre_FieldList (fun _ _ => false) parensFumpter (ast.mkFieldList 7 [] 9) FieldsOfFuncType
    = Ok (f', ast.mkFieldList 7 [] 9)
    /\ Line parensFumpter 9 = 2 /\ Line f' 9 = 1.
Proof.
  destruct (proj1 (applyPre_FieldList_joins_empty_parens (fun _ _ => false) parensFumpter
                     (ast.mkFieldList 7 [] 9) FieldsOfFuncType parensFumpter_wf eq_refl
                     ltac:(unfold inF, inFile; cbn; lia) ltac:(unfold inF, inFile; cbn; lia)
                     ltac:(cbn; lia)) eq_refl)
    as (f' & E & _ & Hj & Ho).
  exists f'. split; [exact E|]. split; [reflexivity|]. exact (eq_trans Hj Ho).
Defined.

Lemma mergeLoop_done (typeEqual : option ast.Expr -> option ast.Expr -> bool) (f : fumpter)
      (rest : list ast.Field) :
  forall (done : list ast.Field) (cur : ast.Field),
    mergeLoop typeEqual f done cur rest = done ++ mergeLoop typeEqual f [] cur rest.
Proof.
  induction rest as [|fj rest IH]; intros done cur; cbn [mergeLoop]; [reflexivity|].
  destruct (shouldMergeAdjacentFields typeEqual f cur fj).
  - apply IH.
  - rewrite (IH (done ++ [cur])), (IH ([] ++ [cur])). now rewrite <- app_assoc.
Qed.

Lemma mergeLoop_names (typeEqual : option ast.Expr -> option ast.Expr -> bool) (f : fumpter)
      (rest : list ast.Field) :
  forall cur : ast.Field,
    flat_map ast.Names (mergeLoop typeEqual f [] cur rest)
    = ast.Names cur ++ flat_map ast.Names rest.
Proof.
  induction rest as [|fj rest IH]; intros cur; cbn [mergeLoop flat_map app].
  - reflexivity.
  - destruct (shouldMergeAdjacentFields typeEqual f cur fj).
    + rewrite IH. cbn [setNames ast.Names]. now rewrite <- app_assoc.
    + rewrite mergeLoop_done. cbn [app flat_map]. now rewrite IH.
Qed.

Lemma mergeLoop_length (typeEqual : option ast.Expr -> option ast.Expr -> bool) (f : fumpter)
      (rest : list ast.Field) :
  forall cur : ast.Field,
    (1 <= List.length (mergeLoop typeEqual f [] cur rest) <= S (List.length rest))%nat.
Proof.
  induction rest as [|fj rest IH]; intros cur; cbn [mergeLoop List.length app].
  - lia.
  - destruct (shouldMergeAdjacentFields typeEqual f cur fj).
    + specialize (IH (setNames cur (ast.Names cur ++ ast.Names fj))). lia.
    + rewrite mergeLoop_done. cbn [app List.length]. specialize (IH fj). lia.
Qed.

Lemma mergesLike_merged (typeEqual : option ast.Expr -> option ast.Expr -> bool) (f : fumpter)
      (cur fj : ast.Field) :
  shouldMergeAdjacentFields typeEqual f cur fj = true ->
  mergesLike typeEqual f (setNames cur (ast.Names cur ++ ast.Names fj)) cur.
Proof.
  unfold shouldMergeAdjacentFields at 1. intros H.
  destruct (ast.Names cur) as [|n ns] eqn:En; [discriminate|].
  intros x. unfold shouldMergeAdjacentFields, ast.Field_Pos, setNames, len.
  cbn [ast.Names ast.FieldType]. rewrite En. cbn [app List.length].
  split; reflexivity.
Qed.

(** The result of the loop starts with a field that merges like [cur],
    and running the loop over the result changes nothing. *)
Lemma mergeLoop_stable (typeEqual : option ast.Expr -> option ast.Expr -> bool) (f : fumpter)
      (rest : list ast.Field) :
  forall cur : ast.Field,
    exists c' r',
      mergeLoop typeEqual f [] cur rest = c' :: r'
      /\ mergesLike typeEqual f c' cur
      /\ mergeLoop typeEqual f [] c' r' = c' :: r'.
Proof.
  induction rest as [|fj rest IH]; intros cur; cbn [mergeLoop app].
  - exists cur, []. split; [reflexivity|]. split; [intros x; split; reflexivity | reflexivity].
  - destruct (shouldMergeAdjacentFields typeEqual f cur fj) eqn:E.
    + destruct (IH (setNames cur (ast.Names cur ++ ast.Names fj))) as (c' & r' & H1 & H2 & H3).
      exists c', r'. split; [exact H1|]. split; [|exact H3].
      intros x. destruct (H2 x) as [A B]. destruct (mergesLike_merged typeEqual f cur fj E x) as [C D].
      split; congruence.
    + destruct (IH fj) as (c2 & r2 & H1 & H2 & H3).
      rewrite mergeLoop_done, H1. cbn [app].
      exists cur, (c2 :: r2). split; [reflexivity|].
      split; [intros x; split; reflexivity|].
      cbn [mergeLoop]. rewrite (proj2 (H2 cur)), E.
      rewrite mergeLoop_done, H3. reflexivity.
Qed.

(** X12.  [mergeAdjacentFields] keeps every name, in order, drops no
    field list to nothing, never lengthens the list, and is idempotent:
    merging the merged list changes nothing.  This holds whatever the
    comparison of types answers. *)
Theorem mergeAdjacentFields_keeps_names
  (typeEqual : option ast.Expr -> option ast.Expr -> bool)
  (f : fumpter) (fields : list ast.Field) :
  flat_map ast.Names (mergeAdjacentFields typeEqual f fields) = flat_map ast.Names fields
  /\ (List.length (mergeAdjacentFields typeEqual f fields) <= List.length fields)%nat
  /\ (mergeAdjacentFields typeEqual f fields = [] <-> fields = [])
  /\ mergeAdjacentFields typeEqual f (mergeAdjacentFields typeEqual f fields)
     = mergeAdjacentFields typeEqual f fields.
Proof.
  destruct (len fields <? 2) eqn:E.
  - assert (mergeAdjacentFields typeEqual f fields = fields) as Hm
        by (unfold mergeAdjacentFields; now rewrite E).
    rewrite !Hm. split; [reflexivity|]. split; [lia|]. split; [tauto | reflexivity].
  - destruct fields as [|f0 rest]; [discriminate|].
    assert (mergeAdjacentFields typeEqual f (f0 :: rest) = mergeLoop typeEqual f [] f0 rest)
      as Hm by (unfold mergeAdjacentFields; now rewrite E).
    rewrite !Hm.
    pose proof (mergeLoop_length typeEqual f rest f0) as Hlen.
    destruct (mergeLoop_stable typeEqual f rest f0) as (c' & r' & H1 & _ & H3).
    split; [apply mergeLoop_names|]. split; [cbn [List.length]; lia|].
    split; [rewrite H1; split; discriminate|].
    rewrite H1. unfold mergeAdjacentFields.
    destruct (len (c' :: r') <? 2); [reflexivity | exact H3].
Qed.

(** * Declarations *)

Lemma defineToken_fold (names : list ast.IdentNode) :
  forall tok,
    fold_left (fun tok name =>
                 if negb (String.eqb (ast.Name name) "_") then ast.DEFINE else tok) names tok
    = if forallb isBlank names then tok else ast.DEFINE.
Proof.
  induction names as [|n names IH]; intros tok; cbn [fold_left forallb]; [reflexivity|].
  rewrite IH. unfold isBlank at 2. destruct (String.eqb (ast.Name n) "_"); cbn [negb andb].
  - reflexivity.
  - now destruct (forallb isBlank names).
Qed.

(** X13.  A [var] declaration statement with one spec, no type and any
    number of names and values is replaced by an assignment with the same
    names and values; the assignment is a short variable declaration
    ([:=]) unless every name is the blank identifier, in which case it is
    a plain assignment ([=]).  A typed spec is left alone. *)
Theorem applyPre_DeclStmt_short_form
  (d : ast.GenDecl) (doc com : option ast.CommentGroup) (names : list ast.IdentNode)
  (ty : option ast.Expr) (values : list ast.Expr) :
  ast.Tok d = ast.VAR -> ast.Specs d = [ast.ValueSpec doc names ty values com] ->
  applyPre_DeclStmt (ast.GenDeclD d)
  = Ok (match ty with
        | Some _ => None
        | None =>
            Some (ast.AssignStmt (map ast.IdentExpr names) token.NoPos
                    (if forallb isBlank names then ast.ASSIGN else ast.DEFINE) values)
        end).
Proof.
  intros Htok Hspecs. unfold applyPre_DeclStmt. rewrite Htok, Hspecs.
  cbn [ast.Token_eqb negb orb len List.length Z.of_nat Z.eqb Pos.eqb].
  replace (ast.Token_eqb ast.VAR ast.VAR) with true by reflexivity. cbn [negb orb].
  destruct ty; [reflexivity|]. now rewrite defineToken_fold.
Qed.

Lemma applyPre_DeclStmt_short_form_witness :
  applyPre_DeclStmt
    (ast.GenDeclD (ast.mkGenDecl None 1 ast.VAR 0
                     [ast.ValueSpec None [ast.mkIdent 5 "x"; ast.mkIdent 8 "_"] None
                        [ast.OtherExpr 12 15] None] 0))
  = Ok (Some (ast.AssignStmt [ast.Ident 5 "x"; ast.Ident 8 "_"] 0 ast.DEFINE
                [ast.OtherExpr 12 15]))
  /\ applyPre_DeclStmt
       (ast.GenDeclD (ast.mkGenDecl None 1 ast.VAR 0
                        [ast.ValueSpec None [ast.mkIdent 5 "_"] None [ast.OtherExpr 9 12] None] 0))
     = Ok (Some (ast.AssignStmt [ast.Ident 5 "_"] 0 ast.ASSIGN [ast.OtherExpr 9 12])).
Proof.
  split.
  - exact (applyPre_DeclStmt_short_form
             (ast.mkGenDecl None 1 ast.VAR 0
                [ast.ValueSpec None [ast.mkIdent 5 "x"; ast.mkIdent 8 "_"] None
                   [ast.OtherExpr 12 15] None] 0)
             None None [ast.mkIdent 5 "x"; ast.mkIdent 8 "_"] None
             [ast.OtherExpr 12 15] eq_refl eq_refl).
  - exact (applyPre_DeclStmt_short_form
             (ast.mkGenDecl None 1 ast.VAR 0
                [ast.ValueSpec None [ast.mkIdent 5 "_"] None [ast.OtherExpr 9 12] None] 0)
             None None [ast.mkIdent 5 "_"] None
             [ast.OtherExpr 9 12] eq_refl eq_refl).
Defined.

(** [removeLines] between the lines of two positions puts them on one
    line, the line of the first; positions that shared a line still do. *)
Lemma removeLines_joins_positions (g : fumpter) (p q : token.Pos) :
  wfF g -> inF g p -> inF g q -> p <= q ->
  exists l,
    removeLines g (Line g p) (Line g q) = Ok (withLines g l)
    /\ wfF (withLines g l)
    /\ Line (withLines g l) q = Line (withLines g l) p
    /\ Line (withLines g l) p = Line g p
    /\ (forall x y, inF g x -> inF g y -> Line g x = Line g y ->
                    Line (withLines g l) x = Line (withLines g l) y).
Proof.
  intros Hwf Hp Hq Hle.
  pose proof (Line_F_valid g p Hwf Hp) as V1. pose proof (Line_F_valid g q Hwf Hq) as V2.
  pose proof (Line_F_mono g p q Hwf Hp Hq Hle) as Hm.
  destruct (removeLines_spec g _ _ Hwf (proj1 V1) (proj2 V2)) as (l & E & Hwf' & _ & HLine).
  exists l. split; [exact E|]. split; [exact Hwf'|].
  split; [|split].
  - rewrite (HLine p Hp), (HLine q Hq). unfold mergedLine. split_ifs; try lia.
    all: rewrite ?orb_true_iff, ?orb_false_iff, ?Z.leb_le, ?Z.leb_gt, ?Z.ltb_lt, ?Z.ltb_ge in *;
      lia.
  - rewrite (HLine p Hp). unfold mergedLine. now rewrite Z.leb_refl.
  - intros x y Hx Hy Hxy. now rewrite (HLine x Hx), (HLine y Hy), Hxy.
Qed.

(** On a spec or declaration whose position is a valid one, the
    unchecked reads of [Pos] and [End] find their element. *)
Lemma Spec_Pos_run_ok (s : ast.Spec) :
  1 <= ast.Spec_Pos s -> ast.Spec_Pos_run s = Ok (ast.Spec_Pos s).
Proof.
  destruct s as [doc n p v c e|doc names ty values c|p e]; try reflexivity.
  destruct names; [|reflexivity]. cbn. unfold token.NoPos. lia.
Qed.

Lemma Spec_End_run_ok (s : ast.Spec) :
  1 <= ast.Spec_End s -> ast.Spec_End_run s = Ok (ast.Spec_End s).
Proof.
  destruct s as [doc n p v c e|doc names ty values c|p e]; try reflexivity.
  destruct names, ty, values; try reflexivity. cbn. unfold token.NoPos. lia.
Qed.

Lemma Decl_End_run_ok (d : ast.Decl) :
  1 <= ast.Decl_End d -> ast.Decl_End_run d = Ok (ast.Decl_End d).
Proof.
  destruct d as [g|p e]; [|reflexivity].
  cbn [ast.Decl_End ast.Decl_End_run]. unfold ast.GenDecl_End, ast.GenDecl_End_run.
  destruct (token.IsValid (ast.Rparen g)); [reflexivity|].
  destruct (ast.Specs g) as [|s l]; cbn [hd].
  - cbn. unfold token.NoPos. lia.
  - apply Spec_End_run_ok.
Qed.

Lemma inF_valid (f : fumpter) (p : token.Pos) : wfF f -> inF f p -> 1 <= p.
Proof.
  intros [[Hb _ _ _] _] [Hp _]. lia.
Qed.

Lemma varFumpter_wf : wfF varFumpter.
Proof.
  split; [|reflexivity].
  constructor; cbn; [lia | reflexivity | | ]; repeat constructor; lia.
Qed.

(** X14.  In a file without line directives, a parenthesised [var]
    declaration with a single spec and no doc comment loses its
    parentheses, and its lines are joined: afterwards
    the keyword position and the start of the spec are on one line, and
    so are the end of the spec and the position the closing parenthesis
    had.  The spec itself is kept. *)
Theorem applyPre_GenDecl_drops_parens
  (joinStdImports : fumpter -> ast.GenDecl -> result (fumpter * ast.GenDecl))
  (f : fumpter) (node : ast.GenDecl) (spec : ast.Spec) :
  wfF f -> ast.Tok node = ast.VAR -> ast.Specs node = [spec] -> ast.Doc node = None ->
  token.IsValid (ast.Lparen node) = true ->
  inF f (ast.TokPos node) -> inF f (ast.Spec_Pos spec) ->
  inF f (ast.Spec_End spec) -> inF f (ast.Rparen node) ->
  ast.TokPos node <= ast.Spec_Pos spec -> ast.Spec_End spec <= ast.Rparen node ->
  exists f' node',
    applyPre_GenDecl joinStdImports f node = Ok (f', node')
    /\ wfF f'
    /\ ast.Lparen node' = token.NoPos /\ ast.Rparen node' = token.NoPos
    /\ ast.Specs node' = [spec]
    /\ Line f' (ast.TokPos node') = Line f' (ast.Spec_Pos spec)
    /\ Line f' (ast.Rparen node) = Line f' (ast.Spec_End spec).
Proof.
  intros Hwf Htok Hspecs Hdoc Hlp HT HP HE HR Hle1 Hle2.
  unfold applyPre_GenDecl. rewrite Htok.
  replace (ast.Token_eqb ast.VAR ast.IMPORT) with false by reflexivity.
  replace (ast.Token_eqb ast.VAR ast.VAR) with true by reflexivity.
  cbn [andb bind]. rewrite Htok, Hspecs, Hlp, Hdoc.
  replace (ast.Token_eqb ast.VAR ast.VAR) with true by reflexivity.
  cbn [len List.length Z.of_nat Z.eqb Pos.eqb andb].
  rewrite (Spec_Pos_run_ok spec (inF_valid f _ Hwf HP)),
          (Spec_End_run_ok spec (inF_valid f _ Hwf HE)).
  cbn [bind].
  destruct (0 <? len (commentsBetween f (ast.TokPos node) (ast.Spec_Pos spec))).
  - cbn [bind setTokPos ast.Rparen].
    destruct (removeLines_joins_positions f _ _ Hwf HE HR Hle2) as (l & E & Hwf' & J & _ & _).
    rewrite E. cbn [bind].
    exists (withLines f l), (setParens (setTokPos node (ast.Spec_Pos spec)) token.NoPos token.NoPos).
    split; [reflexivity|]. split; [exact Hwf'|]. cbn [setParens setTokPos ast.Lparen ast.Rparen
      ast.Specs ast.TokPos]. auto.
  - destruct (removeLines_joins_positions f _ _ Hwf HT HP Hle1) as (l1 & E1 & Hwf1 & J1 & _ & _).
    rewrite E1. cbn [bind].
    destruct (removeLines_joins_positions (withLines f l1) _ _ Hwf1 HE HR Hle2)
      as (l2 & E2 & Hwf2 & J2 & _ & K2).
    rewrite withLines_withLines in *. rewrite E2. cbn [bind].
    exists (withLines f l2), (setParens node token.NoPos token.NoPos).
    split; [reflexivity|]. split; [exact Hwf2|].
    cbn [setParens ast.Lparen ast.Rparen ast.Specs ast.TokPos].
    split; [reflexivity|]. split; [reflexivity|]. split; [exact Hspecs|].
    split; [apply K2; auto | exact J2].
Qed.

Lemma applyPre_GenDecl_drops_parens_witness :
  exists f' node',
    applyPre_GenDecl (fun f d => Ok (f, d)) varFumpter varDecl = Ok (f', node')
    /\ ast.Lparen node' = 0 /\ ast.Rparen node' = 0
    /\ Line varFumpter 14 = 3 /\ Line f' 14 = 1.
Proof.
  destruct (applyPre_GenDecl_drops_parens (fun f d => Ok (f, d)) varFumpter varDecl varSpec
              varFumpter_wf eq_refl eq_refl eq_refl eq_refl)
    as (f' & node' & E & _ & L1 & L2 & _ & _ & _);
    [unfold inF, inFile; cbn; lia .. | cbn; lia | cbn; lia |].
  exists f', node'. split; [exact E|]. split; [exact L1|]. split; [exact L2|].
  split; [reflexivity|].
  assert (Ok (f', node') = Ok (withLines varFumpter [0], setParens varDecl 0 0)) as H
      by (rewrite <- E; reflexivity).
  injection H as -> _. reflexivity.
Defined.

(** * The file node: joining lone declarations *)

Lemma isCgoImport_ok (g : ast.GenDecl) :
  importSpecsOnly (ast.GenDeclD g) -> exists b, isCgoImport g = Ok b.
Proof.
  unfold importSpecsOnly, isCgoImport. intros H.
  destruct (ast.Token_eqb (ast.Tok g) ast.IMPORT) eqn:E; cbn [negb orb]; [|now exists false].
  destruct (len (ast.Specs g) =? 1); cbn [negb]; [|now exists false].
  unfold ast.Token_eqb in E. destruct (ast.Token_eq_dec (ast.Tok g) ast.IMPORT) as [Ht|]; [|discriminate].
  specialize (H Ht). destruct (ast.Specs g) as [|s l]; [now exists false|].
  inversion H as [|? ? Hs _]; subst. destruct s; try contradiction. eauto.
Qed.

Lemma startsGroup_cases (d : ast.Decl) :
  importSpecsOnly d ->
  startsGroup d = Ok None \/ exists g, d = ast.GenDeclD g /\ startsGroup d = Ok (Some g).
Proof.
  intros H. destruct d as [g|p e]; [|now left]. cbn [startsGroup].
  destruct (isCgoImport_ok g H) as [b ->]. cbn [bind].
  destruct (b || match ast.Doc g with Some _ => true | None => false end); [now left|].
  right. now exists g.
Qed.

Lemma continuesGroup_cases (f : fumpter) (start : ast.GenDecl) (lastPos : token.Pos)
      (d : ast.Decl) :
  importSpecsOnly d ->
  continuesGroup f start lastPos d = Ok None
  \/ exists cont, d = ast.GenDeclD cont /\ continuesGroup f start lastPos d = Ok (Some cont).
Proof.
  intros H. destruct d as [g|p e]; [|now left]. cbn [continuesGroup].
  destruct (negb (ast.Token_eqb (ast.Tok g) (ast.Tok start))
            || negb (ast.Lparen g =? token.NoPos)
            || (Line f lastPos <? Line f (ast.GenDecl_Pos g) - 1)); [now left|].
  destruct (isCgoImport_ok g H) as [b ->]. cbn [bind].
  destruct b; [now left|]. right. now exists g.
Qed.

Lemma GenDecl_End_run_hasEnd (g : ast.GenDecl) :
  declHasEnd (ast.GenDeclD g) -> ast.GenDecl_End_run g = Ok (ast.GenDecl_End g).
Proof.
  unfold declHasEnd, ast.GenDecl_End_run, ast.GenDecl_End. intros H.
  destruct (token.IsValid (ast.Rparen g)); [reflexivity|]. specialize (H eq_refl).
  destruct (ast.Specs g) as [|s l]; [contradiction|].
  destruct s as [doc n p v c e|doc names ty values c|p e]; try reflexivity.
  destruct names; [contradiction | reflexivity].
Qed.

Lemma absorb_specs (f : fumpter) (start cont : ast.GenDecl) :
  declHasEnd (ast.GenDeclD cont) ->
  exists start',
    absorb f start cont = Ok start'
    /\ ast.Specs start' = ast.Specs start ++ ast.Specs cont.
Proof.
  intros H. unfold absorb. rewrite (GenDecl_End_run_hasEnd cont H). cbn [bind].
  eexists. split; reflexivity.
Qed.

Lemma joinDecls_items (f : fumpter) (decls : list ast.Decl) :
  Forall importSpecsOnly decls -> Forall declHasEnd decls ->
  forall cur,
    exists out,
      joinDecls f cur decls = Ok out
      /\ flat_map declItems out
         = match cur with
           | Some (start, _) => map inl (ast.Specs start)
           | None => []
           end ++ flat_map declItems decls
      /\ (List.length out
          <= match cur with Some _ => 1 | None => 0 end + List.length decls)%nat.
Proof.
  induction 1 as [|d rest Hd _ IH]; intros Hends cur.
  - destruct cur as [[start lp]|]; eexists; (split; [reflexivity|]);
      cbn [flat_map declItems app List.length]; rewrite ?app_nil_r; auto.
  - inversion Hends as [|? ? He Hends']; subst. specialize (IH Hends').
    (* what the outer loop does with [d] *)
    assert (exists tail,
               (forall flushed,
                   (s <- startsGroup d ;;
                    tail0 <- match s with
                             | Some start =>
                                 joinDecls f (Some (start, ast.GenDecl_Pos start)) rest
                             | None => r <- joinDecls f None rest ;; Ok (d :: r)
                             end ;;
                    Ok (flushed ++ tail0)) = Ok (flushed ++ tail))
               /\ flat_map declItems tail = declItems d ++ flat_map declItems rest
               /\ (List.length tail <= S (List.length rest))%nat) as (tail & Et & It & Lt).
    { destruct (startsGroup_cases d Hd) as [->|(g & -> & ->)]; cbn [bind].
      - destruct (IH None) as (r & -> & Ir & Lr). cbn [bind].
        exists (d :: r). split; [reflexivity|]. cbn [flat_map app List.length] in *.
        rewrite Ir. split; [reflexivity | lia].
      - destruct (IH (Some (g, ast.GenDecl_Pos g))) as (r & -> & Ir & Lr).
        exists r. split; [reflexivity|]. cbn [declItems]. split; [exact Ir | lia]. }
    cbn [joinDecls flat_map List.length]. destruct cur as [[start lp]|].
    + destruct (continuesGroup_cases f start lp d Hd) as [->|(cont & -> & ->)]; cbn [bind].
      * rewrite (Et [ast.GenDeclD start]). exists ([ast.GenDeclD start] ++ tail).
        split; [reflexivity|]. cbn [app flat_map declItems List.length].
        rewrite It. split; [reflexivity | lia].
      * destruct (absorb_specs f start cont He) as (start' & -> & Es). cbn [bind].
        destruct (IH (Some (start', ast.GenDecl_Pos cont))) as (r & -> & Ir & Lr).
        exists r. split; [reflexivity|]. rewrite Ir, Es. cbn [declItems].
        rewrite map_app, <- app_assoc. split; [reflexivity | lia].
    + cbn [bind]. rewrite (Et []). exists tail.
      split; [reflexivity|]. cbn [app]. split; [exact It | lia].
Qed.

(** X18.  Joining contiguous lone declarations loses nothing: on
    declarations as the parser builds them (an import declaration holds
    import specs, a declaration without parentheses has a spec with a
    name) the pass returns, the specs of the general declarations and the
    other declarations come out in the order they went in, and the list
    does not get longer. *)
Theorem joinDecls_keeps_specs (f : fumpter) (decls : list ast.Decl) :
  Forall importSpecsOnly decls -> Forall declHasEnd decls ->
  exists out,
    joinDecls f None decls = Ok out
    /\ flat_map declItems out = flat_map declItems decls
    /\ (List.length out <= List.length decls)%nat.
Proof.
  intros H He. destruct (joinDecls_items f decls H He None) as (out & E & I & L).
  exists out. auto.
Qed.

Lemma joinDecls_keeps_specs_witness :
  exists out,
    joinDecls declsFumpter None sampleDecls = Ok out
    /\ List.length out = 2%nat
    /\ flat_map declItems out = flat_map declItems sampleDecls.
Proof.
  destruct (joinDecls_keeps_specs declsFumpter sampleDecls) as (out & E & I & _).
  - apply Forall_cons; [intros H; discriminate H|].
    apply Forall_cons; [intros H; discriminate H|].
    apply Forall_cons; [exact I | apply Forall_nil].
  - apply Forall_cons; [intros _; exact I|].
    apply Forall_cons; [intros _; exact I|].
    apply Forall_cons; [exact I | apply Forall_nil].
  - exists out. split; [exact E|]. split; [|exact I].
    assert (Ok out
            = Ok [ast.GenDeclD (setSpecsRparen (loneVar 1 "a")
                                  (ast.Specs (loneVar 1 "a") ++ ast.Specs (loneVar 11 "b")) 20);
                  ast.OtherDecl 21 32]) as H by (rewrite <- E; reflexivity).
    injection H as ->. reflexivity.
Defined.

(** * The file node: empty lines between multi-line declarations *)

Lemma separateDecls_cons (f : fumpter) (lm : bool) (le : token.Pos) (d : ast.Decl)
      (rest : list ast.Decl) :
  1 <= ast.Decl_End d ->
  separateDecls f lm le (d :: rest)
  = (f' <- (if needsBlank f lm le d then addNewline f le else Ok f) ;;
     separateDecls f' (declMulti f le d) (ast.Decl_End d) rest).
Proof.
  intros H. cbn [separateDecls]. rewrite (Decl_End_run_ok d H). reflexivity.
Qed.

Lemma declsOrdered_withLines (f : fumpter) (l : list Z) (decls : list ast.Decl) :
  forall lo, declsOrdered (withLines f l) lo decls <-> declsOrdered f lo decls.
Proof.
  induction decls as [|d rest IH]; intros lo; cbn [declsOrdered]; [tauto|].
  rewrite IH. change (declStart (withLines f l) lo d) with (declStart f lo d).
  rewrite !inF_withLines, base_withLines, size_withLines. tauto.
Qed.

(** The two tests only read distances between lines. *)
Lemma needsBlank_gaps (g g' : fumpter) (lm : bool) (le : token.Pos) (d : ast.Decl) :
  declStart g' le d = declStart g le d ->
  gap g' (declStart g le d) (ast.Decl_End d) = gap g (declStart g le d) (ast.Decl_End d) ->
  (lm = true -> gap g' le (declStart g le d) = gap g le (declStart g le d)) ->
  declMulti g' le d = declMulti g le d /\ needsBlank g' lm le d = needsBlank g lm le d.
Proof.
  intros Hs H1 H2. unfold needsBlank, declMulti, gap in *. rewrite Hs.
  assert ((Line g' (declStart g le d) <? Line g' (ast.Decl_End d))
          = (Line g (declStart g le d) <? Line g (ast.Decl_End d))) as ->.
  { destruct (Line g' (declStart g le d) <? Line g' (ast.Decl_End d)) eqn:E1,
             (Line g (declStart g le d) <? Line g (ast.Decl_End d)) eqn:E2; lia. }
  split; [reflexivity|]. destruct lm; [|now rewrite !andb_false_r].
  specialize (H2 eq_refl). f_equal.
  destruct (Line g' le + 1 =? Line g' (declStart g le d)) eqn:E1,
           (Line g le + 1 =? Line g (declStart g le d)) eqn:E2; lia.
Qed.

(** One round of the loop. *)
Lemma separateStep_spec (g : fumpter) (lm : bool) (le : token.Pos) (d : ast.Decl) :
  wfF g ->
  (lm = true -> inF g le /\ le < token.base (tokFile g) + token.size (tokFile g)) ->
  exists (l : list Z) (fresh : bool),
    (if needsBlank g lm le d then addNewline g le else Ok g) = Ok (withLines g l)
    /\ wfF (withLines g l)
    /\ (forall y, In y (token.lines (tokFile g)) -> In y l)
    /\ (forall p, inF g p ->
          Line (withLines g l) p = Line g p + (if fresh && (le <=? p) then 1 else 0))
    /\ (needsBlank g lm le d = true -> In (le - token.base (tokFile g)) l)
    /\ (needsBlank g lm le d = false -> fresh = false).
Proof.
  intros Hwf Hlm. destruct (needsBlank g lm le d) eqn:E.
  - assert (lm = true) as Hl.
    { unfold needsBlank in E. destruct lm; [reflexivity|].
      now rewrite andb_false_r in E. }
    destruct (Hlm Hl) as [[H1 _] H2].
    destruct (addNewline_step g le Hwf ltac:(lia)) as (l & fresh & K1 & K2 & K3 & K4 & _ & _ & K7).
    exists l, fresh. split; [exact K1|]. split; [exact K2|]. split; [exact K4|].
    split; [exact K7|]. split; [auto | discriminate].
  - exists (token.lines (tokFile g)), false. rewrite withLines_same.
    split; [reflexivity|]. split; [exact Hwf|]. split; [auto|].
    split; [intros; cbn [andb]; lia|]. split; [discriminate | reflexivity].
Qed.

(** Inside an ordered list, a pair of neighbours and the end before it. *)
Lemma declsOrdered_pair (f : fumpter) (l1 : list ast.Decl) :
  forall (lo : token.Pos) (d1 d2 : ast.Decl) (l2 : list ast.Decl),
    declsOrdered f lo (l1 ++ d1 :: d2 :: l2) ->
    lo <= last (map ast.Decl_End l1) lo
    /\ declsOrdered f (last (map ast.Decl_End l1) lo) (d1 :: d2 :: l2).
Proof.
  induction l1 as [|x l1 IH]; intros lo d1 d2 l2 H.
  - cbn [map last app] in *. split; [lia | exact H].
  - cbn [app declsOrdered] in H. destruct H as (A1 & A2 & A3 & _ & _ & _ & A7).
    destruct (IH _ _ _ _ A7) as [B1 B2].
    cbn [map]. rewrite last_cons. split; [lia | exact B2].
Qed.

(** The second loop adds line starts at ends of declarations only.  Lines
    before [lastEnd] stay, no two positions get closer; the first
    declaration gets its line start at [lastEnd] if the test asks for
    it, and otherwise nothing changes before its end; and so for every
    pair of neighbours. *)
Lemma separateDecls_spec (decls : list ast.Decl) :
  forall (g : fumpter) (lm : bool) (le : token.Pos),
    wfF g -> declsOrdered g le decls ->
    (lm = true -> inF g le /\ le < token.base (tokFile g) + token.size (tokFile g)) ->
    exists l,
      separateDecls g lm le decls = Ok (withLines g l)
      /\ wfF (withLines g l)
      /\ (forall y, In y (token.lines (tokFile g)) -> In y l)
      /\ (forall p, inF g p -> p < le -> Line (withLines g l) p = Line g p)
      /\ (forall p q, inF g p -> inF g q -> p <= q -> gap g p q <= gap (withLines g l) p q)
      /\ match decls with
         | [] => True
         | d :: _ =>
             (needsBlank g lm le d = true -> In (le - token.base (tokFile g)) l)
             /\ (needsBlank g lm le d = false ->
                 forall p, inF g p -> p < ast.Decl_End d -> Line (withLines g l) p = Line g p)
         end
      /\ (forall l1 d1 d2 l2, decls = l1 ++ d1 :: d2 :: l2 ->
            if needsBlank g (declMulti g (last (map ast.Decl_End l1) le) d1)
                 (ast.Decl_End d1) d2
            then In (ast.Decl_End d1 - token.base (tokFile g)) l
            else gap (withLines g l) (ast.Decl_End d1 - 1) (declStart g (ast.Decl_End d1) d2)
                 = gap g (ast.Decl_End d1 - 1) (declStart g (ast.Decl_End d1) d2)).
Proof.
  induction decls as [|d rest IH]; intros g lm le Hwf Hord Hlm.
  - exists (token.lines (tokFile g)). rewrite withLines_same.
    split; [reflexivity|]. split; [exact Hwf|]. split; [auto|]. split; [reflexivity|].
    split; [intros; lia|]. split; [exact I|].
    intros [|x [|y l1]] a b l2 E; discriminate.
  - pose proof Hord as Hord0. cbn [declsOrdered] in Hord.
    destruct Hord as (A1 & A2 & A3 & A4 & A5 & A6 & A7).
    destruct (separateStep_spec g lm le d Hwf Hlm) as (l1 & fresh & S1 & S2 & S3 & S4 & S5 & S6).
    rewrite (separateDecls_cons g lm le d rest (inF_valid g _ Hwf A5)), S1. cbn [bind].
    destruct (IH (withLines g l1) (declMulti g le d) (ast.Decl_End d) S2
                (proj2 (declsOrdered_withLines g l1 rest _) A7)
                (fun _ => conj A5 A6))
      as (l2 & K1 & K2 & K3 & K4 & K5 & K6 & K7).
    rewrite withLines_withLines in *. rewrite lines_withLines in K3.
    (* positions at or after [le] move together in the first round *)
    assert (forall p q, inF g p -> inF g q -> le <= p -> le <= q ->
                        gap (withLines g l1) p q = gap g p q) as Hsh.
    { intros p q Hp Hq Hlp Hlq. unfold gap. rewrite !S4 by assumption.
      replace (le <=? p) with true by (symmetry; apply Z.leb_le; lia).
      replace (le <=? q) with true by (symmetry; apply Z.leb_le; lia). lia. }
    exists l2. split; [exact K1|]. split; [exact K2|]. split; [auto|].
    split; [|split; [|split]].
    + intros p Hp Hlt. rewrite K4 by (try assumption; lia). rewrite S4 by assumption.
      replace (le <=? p) with false by (symmetry; apply Z.leb_gt; lia).
      rewrite andb_false_r. lia.
    + intros p q Hp Hq Hpq. specialize (K5 p q Hp Hq Hpq).
      unfold gap in *. rewrite !S4 in K5 by assumption.
      destruct fresh; cbn [andb] in K5; [|lia].
      destruct (le <=? p) eqn:E1, (le <=? q) eqn:E2; lia.
    + split.
      * intros Hn. apply K3. now apply S5.
      * intros Hn p Hp Hlt. rewrite K4 by assumption. rewrite S4 by assumption.
        rewrite (S6 Hn). cbn [andb]. lia.
    + intros l0 d1 d2 l3 E. destruct l0 as [|x l0]; cbn [app] in E.
      * injection E as <- ->. cbn [map last].
        cbn [declsOrdered] in A7. destruct A7 as (B1 & B2 & B3 & B4 & B5 & B6 & B7).
        assert (inF g (ast.Decl_End d - 1)) as Hin
            by (apply (inF_between g (declStart g le d) _ (ast.Decl_End d)); auto; lia).
        destruct (needsBlank_gaps g (withLines g l1) (declMulti g le d) (ast.Decl_End d) d2
                    eq_refl) as [_ Hnb].
        { apply Hsh; try assumption; lia. }
        { intros _. apply Hsh; try assumption; lia. }
        destruct K6 as [K6a K6b]. rewrite base_withLines in K6a. rewrite Hnb in K6a, K6b.
        destruct (needsBlank g (declMulti g le d) (ast.Decl_End d) d2).
        -- now apply K6a.
        -- unfold gap. rewrite !(K6b eq_refl) by (try assumption; lia).
           apply Hsh; try assumption; lia.
      * injection E as <- E. cbn [map]. rewrite last_cons.
        specialize (K7 _ _ _ _ E). rewrite base_withLines in K7.
        rewrite E in A7. destruct (declsOrdered_pair g l0 _ _ _ _ A7) as [C0 C1].
        set (lo1 := last (map ast.Decl_End l0) (ast.Decl_End d)) in *.
        cbn [declsOrdered] in C1.
        destruct C1 as (C1 & C2 & C3 & C4 & C5 & C6 & D1 & D2 & D3 & D4 & D5 & D6 & _).
        assert (inF g (ast.Decl_End d1 - 1)) as Hin
            by (apply (inF_between g (declStart g lo1 d1) _ (ast.Decl_End d1)); auto; lia).
        destruct (needsBlank_gaps g (withLines g l1) false lo1 d1 eq_refl) as [Hm1 _].
        { apply Hsh; try assumption; lia. }
        { discriminate. }
        destruct (needsBlank_gaps g (withLines g l1) (declMulti g lo1 d1) (ast.Decl_End d1) d2
                    eq_refl) as [_ Hnb].
        { apply Hsh; try assumption; lia. }
        { intros _. apply Hsh; try assumption; lia. }
        rewrite Hm1, Hnb in K7.
        destruct (needsBlank g (declMulti g lo1 d1) (ast.Decl_End d1) d2); [exact K7|].
        change (declStart (withLines g l1) (ast.Decl_End d1) d2)
          with (declStart g (ast.Decl_End d1) d2) in K7.
        rewrite K7. apply Hsh; try assumption; lia.
Qed.

Lemma funcsFumpter_wf : wfF funcsFumpter.
Proof.
  split; [|reflexivity].
  constructor; cbn; [lia | reflexivity | | ]; repeat constructor; lia.
Qed.



(** * Comment spacing, a second time *)

Lemma rxCommentDirective_space (s : string) : rxCommentDirective (String " " s) = false.
Proof. reflexivity. Qed.

(** A comment of a rewritten group does not make the group skipped, and
    is not rewritten again. *)
Lemma addSpace_again (dm : string -> Z) (lt nt : Z -> bool) (c : ast.Comment) :
  skipsGroup dm lt nt c = false ->
  skipsGroup dm lt nt (addSpace dm c) = false /\ addSpace dm (addSpace dm c) = addSpace dm c.
Proof.
  intros H. pose proof H as H0. unfold skipsGroup in H0.
  rewrite TrimPrefix_unchanged in H0.
  destruct (HasPrefix (ast.Text c) "//"); [|discriminate]. cbn [negb] in H0.
  destruct (rxCommentDirective (TrimPrefix (ast.Text c) "//")); [discriminate|].
  set (body := TrimPrefix (ast.Text c) "//").
  destruct (IsSpace (DecodeRuneInString dm body)) eqn:Hs.
  - assert (addSpace dm c = c) as -> by (unfold addSpace; fold body; now rewrite Hs).
    split; [exact H|]. unfold addSpace. fold body. now rewrite Hs.
  - assert (addSpace dm c
            = ast.mkComment (ast.Slash c) (String "/" (String "/" (String " " body)))) as ->
        by (unfold addSpace; fold body; rewrite Hs; reflexivity).
    unfold skipsGroup, addSpace. cbn [ast.Text ast.Slash].
    change (TrimPrefix (String "/" (String "/" (String " " body))) "//")
      with (String " " body).
    rewrite String_eqb_shorter, rxCommentDirective_space. split; reflexivity.
Qed.

Lemma addSpace_group_again (dm : string -> Z) (lt nt : Z -> bool) (l : list ast.Comment) :
  existsb (skipsGroup dm lt nt) l = false ->
  existsb (skipsGroup dm lt nt) (map (addSpace dm) l) = false
  /\ map (addSpace dm) (map (addSpace dm) l) = map (addSpace dm) l.
Proof.
  induction l as [|c l IH]; cbn [existsb map]; [split; reflexivity|].
  intros H. apply orb_false_iff in H. destruct H as [Hc Hl].
  destruct (addSpace_again dm lt nt c Hc) as [-> ->]. destruct (IH Hl) as [-> ->].
  split; reflexivity.
Qed.

(** X19.  Comment spacing is idempotent: after one pass over the comments
    of a file a second pass changes nothing, whatever the comments are. *)
Theorem groupLoop_idempotent (dm : string -> Z) (lt nt : Z -> bool) (f : fumpter) :
  groupLoop dm lt nt (groupLoop dm lt nt f) = groupLoop dm lt nt f.
Proof.
  unfold groupLoop, setComments.
  cbn [astFile ast.Comments ast.NameEnd ast.DeclEnds fOptions tokFile blockLevel minSplitFactor].
  rewrite map_map. do 2 f_equal. apply map_ext. intros g.
  unfold groupLoop_body at 2 3.
  destruct (existsb (skipsGroup dm lt nt) (ast.List g)) eqn:E.
  - unfold groupLoop_body. now rewrite E.
  - unfold groupLoop_body. cbn [ast.List].
    destruct (addSpace_group_again dm lt nt (ast.List g) E) as [-> ->]. reflexivity.
Qed.

(** * The file node: joining declarations, a second time *)

Lemma bind_Ok_inv {A B : Type} (r : result A) (k : A -> result B) (y : B) :
  bind r k = Ok y -> exists x, r = Ok x /\ k x = Ok y.
Proof.
  destruct r as [x|msg]; cbn [bind]; [eauto | discriminate].
Qed.

Lemma joinDecls_None (f : fumpter) (d : ast.Decl) (rest : list ast.Decl) :
  joinDecls f None (d :: rest)
  = (s <- startsGroup d ;;
     tail <- match s with
             | Some start => joinDecls f (Some (start, ast.GenDecl_Pos start)) rest
             | None => r <- joinDecls f None rest ;; Ok (d :: r)
             end ;;
     Ok tail).
Proof. reflexivity. Qed.

Lemma joinDecls_Some (f : fumpter) (start : ast.GenDecl) (lastPos : token.Pos)
      (d : ast.Decl) (rest : list ast.Decl) :
  joinDecls f (Some (start, lastPos)) (d :: rest)
  = (a <- continuesGroup f start lastPos d ;;
     match a with
     | Some cont =>
         start1 <- absorb f start cont ;;
         joinDecls f (Some (start1, ast.GenDecl_Pos cont)) rest
     | None =>
         s <- startsGroup d ;;
         tail <- match s with
                 | Some g => joinDecls f (Some (g, ast.GenDecl_Pos g)) rest
                 | None => r <- joinDecls f None rest ;; Ok (d :: r)
                 end ;;
         Ok (ast.GenDeclD start :: tail)
     end).
Proof. reflexivity. Qed.

(** Where the inner loop breaks, the group is emitted and the outer loop
    goes on as if it started there. *)
Lemma joinDecls_flush (f : fumpter) (start : ast.GenDecl) (lastPos : token.Pos)
      (d : ast.Decl) (rest tail : list ast.Decl) :
  continuesGroup f start lastPos d = Ok None ->
  joinDecls f None (d :: rest) = Ok tail ->
  joinDecls f (Some (start, lastPos)) (d :: rest) = Ok (ast.GenDeclD start :: tail).
Proof.
  intros Hc H. rewrite joinDecls_Some, Hc. cbn [bind]. rewrite joinDecls_None in H.
  destruct (bind_Ok_inv _ _ _ H) as (s & -> & H1). cbn [bind].
  destruct (bind_Ok_inv _ _ _ H1) as (t & -> & H2). cbn [bind].
  injection H2 as ->. reflexivity.
Qed.

Lemma startsGroup_Some (d : ast.Decl) (g : ast.GenDecl) :
  startsGroup d = Ok (Some g) ->
  d = ast.GenDeclD g /\ isCgoImport g = Ok false /\ ast.Doc g = None.
Proof.
  destruct d as [g0|p e]; cbn [startsGroup]; [|discriminate].
  destruct (isCgoImport g0) as [b|msg] eqn:Eb; cbn [bind]; [|discriminate].
  destruct b; cbn [orb]; [discriminate|].
  destruct (ast.Doc g0) eqn:Ed; [discriminate|]. intros H. injection H as <-. auto.
Qed.

Lemma startsGroup_ok (g : ast.GenDecl) :
  isCgoImport g = Ok false -> ast.Doc g = None ->
  startsGroup (ast.GenDeclD g) = Ok (Some g).
Proof.
  intros H1 H2. cbn [startsGroup]. rewrite H1, H2. reflexivity.
Qed.

Lemma continuesGroup_Some (f : fumpter) (start : ast.GenDecl) (lastPos : token.Pos)
      (d : ast.Decl) (cont : ast.GenDecl) :
  continuesGroup f start lastPos d = Ok (Some cont) ->
  d = ast.GenDeclD cont /\ ast.Tok cont = ast.Tok start /\ isCgoImport cont = Ok false.
Proof.
  destruct d as [g|p e]; cbn [continuesGroup]; [|discriminate].
  destruct (ast.Token_eqb (ast.Tok g) (ast.Tok start)) eqn:Et; cbn [negb orb]; [|discriminate].
  destruct (negb (ast.Lparen g =? token.NoPos)
            || (Line f lastPos <? Line f (ast.GenDecl_Pos g) - 1)); [discriminate|].
  destruct (isCgoImport g) as [b|msg] eqn:Eb; cbn [bind]; [|discriminate].
  destruct b; [discriminate|]. intros H. injection H as <-.
  split; [reflexivity|]. split; [|exact Eb].
  unfold ast.Token_eqb in Et.
  destruct (ast.Token_eq_dec (ast.Tok g) (ast.Tok start)); [assumption | discriminate].
Qed.

Lemma len_one_inv {A : Type} (l : list A) : (len l =? 1) = true -> exists x, l = [x].
Proof.
  destruct l as [|x [|y l]]; intros H; [|eauto|];
    exfalso; apply Z.eqb_eq in H; unfold len in H; cbn [List.length] in H; lia.
Qed.

(** A group that takes in a declaration still opens a group: it is not
    [import "C"] and has no doc comment. *)
Lemma absorb_start (f : fumpter) (start : ast.GenDecl) (lastPos : token.Pos) (d : ast.Decl)
      (cont start1 : ast.GenDecl) :
  startsGroup (ast.GenDeclD start) = Ok (Some start) ->
  continuesGroup f start lastPos d = Ok (Some cont) ->
  absorb f start cont = Ok start1 ->
  startsGroup (ast.GenDeclD start1) = Ok (Some start1)
  /\ ast.Tok start1 = ast.Tok start /\ ast.Lparen start1 = ast.Lparen start
  /\ ast.TokPos start1 = ast.TokPos start.
Proof.
  intros Hs Hc Ha.
  destruct (startsGroup_Some _ _ Hs) as (_ & Hcgo & Hdoc).
  destruct (continuesGroup_Some _ _ _ _ _ Hc) as (_ & Htok & Hcgo').
  unfold absorb in Ha.
  destruct (ast.GenDecl_End_run cont) as [e|msg]; cbn [bind] in Ha; [|discriminate].
  injection Ha as <-. cbn [setSpecsRparen ast.Tok ast.Lparen ast.TokPos].
  split; [|auto]. apply startsGroup_ok; [|exact Hdoc].
  unfold isCgoImport in *. cbn [setSpecsRparen ast.Tok ast.Specs]. rewrite Htok in Hcgo'.
  destruct (negb (ast.Token_eqb (ast.Tok start) ast.IMPORT)); cbn [orb] in *; [reflexivity|].
  destruct (len (ast.Specs start ++ ast.Specs cont) =? 1) eqn:E; cbn [negb]; [|reflexivity].
  destruct (len_one_inv _ E) as [x Hx].
  destruct (ast.Specs start) as [|a l1]; cbn [app] in Hx.
  - cbn [app]. rewrite Hx in *. exact Hcgo'.
  - injection Hx as -> Hx. apply app_eq_nil in Hx. destruct Hx as [-> ->]. exact Hcgo.
Qed.

Lemma continuesGroup_again (f : fumpter) (start : ast.GenDecl) (lastPos : token.Pos)
      (d d' : ast.Decl) :
  Line f (ast.GenDecl_Pos start) <= Line f lastPos ->
  continuesGroup f start lastPos d = Ok None ->
  sameHead d d' ->
  continuesGroup f start (ast.GenDecl_Pos start) d' = Ok None.
Proof.
  intros Hle Hc [->|(g & g' & -> & -> & Ht & Hl & Hp & Hg & Hg')].
  - destruct d as [g|p e]; [|reflexivity]. cbn [continuesGroup] in *.
    destruct (negb (ast.Token_eqb (ast.Tok g) (ast.Tok start))
              || negb (ast.Lparen g =? token.NoPos)); cbn [orb] in *; [reflexivity|].
    destruct (Line f lastPos <? Line f (ast.GenDecl_Pos g) - 1) eqn:E1.
    + apply Z.ltb_lt in E1.
      replace (Line f (ast.GenDecl_Pos start) <? Line f (ast.GenDecl_Pos g) - 1) with true
        by (symmetry; apply Z.ltb_lt; lia).
      reflexivity.
    + destruct (Line f (ast.GenDecl_Pos start) <? Line f (ast.GenDecl_Pos g) - 1);
        [reflexivity | exact Hc].
  - cbn [continuesGroup] in *. unfold ast.GenDecl_Pos in *. rewrite Ht, Hl, Hp, Hg'.
    rewrite Hg in Hc. cbn [bind] in *.
    destruct (negb (ast.Token_eqb (ast.Tok g) (ast.Tok start))
              || negb (ast.Lparen g =? token.NoPos)); cbn [orb] in *; [reflexivity|].
    destruct (Line f lastPos <? Line f (ast.TokPos g) - 1) eqn:E1; [|discriminate].
    apply Z.ltb_lt in E1.
    replace (Line f (ast.TokPos start) <? Line f (ast.TokPos g) - 1) with true
      by (symmetry; apply Z.ltb_lt; lia).
    reflexivity.
Qed.

(** What the join pass returns is a list it leaves alone.  For the inner
    loop: the group it was filling comes out first, still opening a group,
    and run again from there the loop breaks where it broke before. *)
Lemma joinDecls_fixed (f : fumpter) (decls : list ast.Decl) :
  inLineOrder f decls ->
  (forall out, joinDecls f None decls = Ok out ->
     joinDecls f None out = Ok out
     /\ match decls with
        | [] => out = []
        | d :: _ => exists d' tl, out = d' :: tl /\ sameHead d d'
        end)
  /\ (forall start lastPos out,
        startsGroup (ast.GenDeclD start) = Ok (Some start) ->
        Line f (ast.GenDecl_Pos start) <= Line f lastPos ->
        Forall (fun d => Line f lastPos <= Line f (ast.Decl_Pos d)) decls ->
        joinDecls f (Some (start, lastPos)) decls = Ok out ->
        exists start' tl,
          out = ast.GenDeclD start' :: tl
          /\ startsGroup (ast.GenDeclD start') = Ok (Some start')
          /\ ast.Tok start' = ast.Tok start /\ ast.Lparen start' = ast.Lparen start
          /\ ast.TokPos start' = ast.TokPos start
          /\ joinDecls f (Some (start', ast.GenDecl_Pos start')) tl = Ok out).
Proof.
  induction decls as [|d rest IH]; intros Hord.
  - split.
    + intros out H. injection H as <-. split; reflexivity.
    + intros start lastPos out Hs Hle _ H. injection H as <-.
      exists start, []. repeat split; auto.
  - inversion Hord as [|? ? Hord' Hhd]; subst. destruct (IH Hord') as [IH1 IH2]. clear IH.
    assert (forall out, joinDecls f None (d :: rest) = Ok out ->
              joinDecls f None out = Ok out
              /\ exists d' tl, out = d' :: tl /\ sameHead d d') as P1.
    { intros out H. rewrite joinDecls_None in H.
      destruct (bind_Ok_inv _ _ _ H) as (s & Hs & H1). destruct s as [g|].
      - destruct (startsGroup_Some _ _ Hs) as (-> & Hcgo & Hdoc).
        destruct (bind_Ok_inv _ _ _ H1) as (tail & Ht & H2). injection H2 as <-.
        destruct (IH2 g (ast.GenDecl_Pos g) tail Hs (Z.le_refl _) Hhd Ht)
          as (g' & tl & -> & Hs' & A1 & A2 & A3 & Hj).
        split.
        + rewrite joinDecls_None, Hs'. cbn [bind]. rewrite Hj. reflexivity.
        + exists (ast.GenDeclD g'), tl. split; [reflexivity|]. right. exists g, g'.
          destruct (startsGroup_Some _ _ Hs') as (_ & Hcgo' & _). auto 10.
      - destruct (bind_Ok_inv _ _ _ H1) as (tail & Ht & H2). injection H2 as <-.
        destruct (bind_Ok_inv _ _ _ Ht) as (r & Hr & H3). injection H3 as <-.
        destruct (IH1 r Hr) as [Hfix _]. split.
        + rewrite joinDecls_None, Hs. cbn [bind]. rewrite Hfix. reflexivity.
        + exists d, r. split; [reflexivity | now left]. }
    split; [exact P1|].
    intros start lastPos out Hs Hle Hall H. inversion Hall as [|? ? Hd Hall']; subst.
    rewrite joinDecls_Some in H. destruct (bind_Ok_inv _ _ _ H) as (a & Ha & H1).
    destruct a as [cont|].
    + destruct (continuesGroup_Some _ _ _ _ _ Ha) as (-> & Htok & Hcgo).
      destruct (bind_Ok_inv _ _ _ H1) as (start1 & Hab & H2).
      destruct (absorb_start _ _ _ _ _ _ Hs Ha Hab) as (Hs1 & B1 & B2 & B3).
      destruct (IH2 start1 (ast.GenDecl_Pos cont) out Hs1)
        as (start' & tl & -> & Hs' & A1 & A2 & A3 & Hj).
      * cbn [ast.Decl_Pos] in Hd. unfold ast.GenDecl_Pos in *. rewrite B3. lia.
      * exact Hhd.
      * exact H2.
      * exists start', tl. rewrite A1, A2, A3, B1, B2, B3. auto 10.
    + destruct (bind_Ok_inv _ _ _ H1) as (s & Hsd & H2).
      destruct (bind_Ok_inv _ _ _ H2) as (tail & Ht & H3). injection H3 as <-.
      assert (joinDecls f None (d :: rest) = Ok tail) as Hnone.
      { rewrite joinDecls_None, Hsd. cbn [bind]. rewrite Ht. reflexivity. }
      destruct (P1 tail Hnone) as (Hfix & d' & tl & -> & Hsame).
      exists start, (d' :: tl). split; [reflexivity|]. split; [exact Hs|].
      do 3 (split; [reflexivity|]).
      apply joinDecls_flush; [|exact Hfix].
      exact (continuesGroup_again f start lastPos d d' Hle Ha Hsame).
Qed.

(** X20.  The join pass is idempotent: on declarations as the parser
    builds them, in the order of their lines, the list it returns is one
    it returns unchanged. *)
Theorem joinDecls_idempotent (f : fumpter) (decls : list ast.Decl) :
  Forall importSpecsOnly decls -> Forall declHasEnd decls -> inLineOrder f decls ->
  exists out,
    joinDecls f None decls = Ok out /\ joinDecls f None out = Ok out.
Proof.
  intros H1 H2 H3. destruct (joinDecls_items f decls H1 H2 None) as (out & E & _).
  exists out. split; [exact E|]. exact (proj1 (proj1 (joinDecls_fixed f decls H3) out E)).
Qed.

Lemma joinDecls_idempotent_witness :
  exists out,
    joinDecls declsFumpter None sampleDecls = Ok out
    /\ List.length out = 2%nat
    /\ joinDecls declsFumpter None out = Ok out.
Proof.
  destruct (joinDecls_idempotent declsFumpter sampleDecls) as (out & E & F).
  - apply Forall_cons; [intros H; discriminate H|].
    apply Forall_cons; [intros H; discriminate H|].
    apply Forall_cons; [exact I | apply Forall_nil].
  - apply Forall_cons; [intros _; exact I|].
    apply Forall_cons; [intros _; exact I|].
    apply Forall_cons; [exact I | apply Forall_nil].
  - unfold inLineOrder, sampleDecls.
    repeat (apply SSorted_cons || apply SSorted_nil || apply Forall_cons || apply Forall_nil);
      vm_compute; discriminate.
  - exists out. split; [exact E|]. split; [|exact F].
    assert (Ok out
            = Ok [ast.GenDeclD (setSpecsRparen (loneVar 1 "a")
                                  (ast.Specs (loneVar 1 "a") ++ ast.Specs (loneVar 11 "b")) 20);
                  ast.OtherDecl 21 32]) as H by (rewrite <- E; reflexivity).
    injection H as ->. reflexivity.
Defined.

(** * The file node: separating declarations, a second time *)

(** The state the second loop ends in is one it leaves alone: every test
    comes out as before, and where it asks for a line start there is
    one. *)
Lemma separateDecls_fixed (decls : list ast.Decl) :
  forall (g : fumpter) (lm : bool) (le : token.Pos) (h : fumpter),
    wfF g -> declsOrdered g le decls ->
    (lm = true -> inF g le /\ le < token.base (tokFile g) + token.size (tokFile g)) ->
    separateDecls g lm le decls = Ok h ->
    separateDecls h lm le decls = Ok h.
Proof.
  induction decls as [|d rest IH]; intros g lm le h Hwf Hord Hlm H.
  - injection H as <-. reflexivity.
  - cbn [declsOrdered] in Hord. destruct Hord as (A1 & A2 & A3 & A4 & A5 & A6 & A7).
    pose proof (inF_valid g _ Hwf A5) as Hv.
    destruct (separateStep_spec g lm le d Hwf Hlm) as (l1 & fresh & S1 & S2 & S3 & S4 & S5 & S6).
    rewrite (separateDecls_cons g lm le d rest Hv), S1 in H. cbn [bind] in H.
    pose proof (proj2 (declsOrdered_withLines g l1 rest _) A7) as Hord1.
    pose proof (IH (withLines g l1) (declMulti g le d) (ast.Decl_End d) h S2 Hord1
                  (fun _ => conj A5 A6) H) as Hfix.
    destruct (separateDecls_spec rest (withLines g l1) (declMulti g le d) (ast.Decl_End d)
                S2 Hord1 (fun _ => conj A5 A6))
      as (l2 & K1 & K2 & K3 & K4 & K5 & K6 & _).
    rewrite K1 in H. injection H as <-. rewrite withLines_withLines in *.
    rewrite lines_withLines in K3.
    set (s := declStart g le d) in *. set (e := ast.Decl_End d) in *.
    (* in the first round the declaration moves as a whole *)
    assert (Line (withLines g l1) e - Line (withLines g l1) s = Line g e - Line g s) as Hs1.
    { rewrite !S4 by assumption.
      replace (le <=? s) with true by (symmetry; apply Z.leb_le; lia).
      replace (le <=? e) with true by (symmetry; apply Z.leb_le; lia). lia. }
    assert (Line (withLines g l2) s = Line (withLines g l1) s) as Hs2
        by (apply K4; [exact A4 | lia]).
    assert (declMulti (withLines g l2) le d = declMulti g le d) as Hm.
    { unfold declMulti. change (declStart (withLines g l2) le d) with s. fold s e.
      destruct (Line g s <? Line g e) eqn:Em.
      - apply Z.ltb_lt in Em. apply Z.ltb_lt.
        specialize (K5 s e A4 A5 ltac:(lia)). unfold gap in K5. lia.
      - apply Z.ltb_ge in Em. apply Z.ltb_ge.
        assert (Line (withLines g l2) e = Line (withLines g l1) e) as He.
        { assert (declMulti g le d = false) as Hf
              by (unfold declMulti; fold s e; apply Z.ltb_ge; exact Em).
          destruct rest as [|d2 rest'].
          - cbn [separateDecls] in K1. injection K1 as K1. now rewrite <- K1.
          - destruct K6 as [_ K6b]. rewrite Hf in K6b. apply K6b.
            + unfold needsBlank. now rewrite andb_false_r.
            + exact A5.
            + cbn [declsOrdered] in A7. fold e in A7. lia. }
        lia. }
    rewrite (separateDecls_cons _ lm le d rest Hv).
    assert (needsBlank (withLines g l2) lm le d = needsBlank g lm le d) as Hn.
    { unfold needsBlank. rewrite Hm. destruct lm; [|now rewrite !andb_false_r].
      destruct (Hlm eq_refl) as [Hle _]. f_equal.
      change (declStart (withLines g l2) le d) with s. fold s.
      assert (Line (withLines g l2) le = Line (withLines g l1) le) as Hl2
          by (apply K4; [exact Hle | lia]).
      rewrite Hs2, Hl2, !S4 by assumption.
      replace (le <=? s) with true by (symmetry; apply Z.leb_le; lia).
      rewrite Z.leb_refl.
      destruct (Line g le + 1 =? Line g s) eqn:E1; [apply Z.eqb_eq in E1; apply Z.eqb_eq; lia|].
      apply Z.eqb_neq in E1. apply Z.eqb_neq. lia. }
    rewrite Hn, Hm. destruct (needsBlank g lm le d) eqn:En.
    + assert (lm = true) as Hl
          by (unfold needsBlank in En; destruct lm; [reflexivity | now rewrite andb_false_r in En]).
      destruct (Hlm Hl) as [[Hb _] Hlt].
      rewrite (addNewline_present (withLines g l2) le K2).
      * cbn [bind]. exact Hfix.
      * rewrite base_withLines, size_withLines. lia.
      * rewrite base_withLines, lines_withLines. auto.
    + cbn [bind]. exact Hfix.
Qed.

(** X21.  In a file without line directives, separating the declarations
    of a file is idempotent: on declarations in source order the pass
    returns, and run again on the
    state it returns it changes nothing. *)
Theorem separateDecls_idempotent (f : fumpter) (decls : list ast.Decl) :
  wfF f -> declsOrdered f token.NoPos decls ->
  exists f',
    separateDecls f false token.NoPos decls = Ok f'
    /\ separateDecls f' false token.NoPos decls = Ok f'.
Proof.
  intros Hwf Hord.
  destruct (separateDecls_spec decls f false token.NoPos Hwf Hord ltac:(discriminate))
    as (l & E & _).
  exists (withLines f l). split; [exact E|].
  exact (separateDecls_fixed decls f false token.NoPos _ Hwf Hord ltac:(discriminate) E).
Qed.

Lemma separateDecls_idempotent_witness :
  exists f',
    separateDecls funcsFumpter false 0 [ast.OtherDecl 1 13; ast.OtherDecl 14 26] = Ok f'
    /\ token.lines (tokFile f') = [0; 11; 12; 13; 24]
    /\ separateDecls f' false 0 [ast.OtherDecl 1 13; ast.OtherDecl 14 26] = Ok f'.
Proof.
  destruct (separateDecls_idempotent funcsFumpter
              [ast.OtherDecl 1 13; ast.OtherDecl 14 26] funcsFumpter_wf)
    as (f' & E & F).
  - cbn. unfold inF, inFile, token.NoPos. cbn. intuition lia.
  - exists f'. split; [exact E|]. split; [|exact F].
    assert (Ok f' = Ok (withLines funcsFumpter [0; 11; 12; 13; 24])) as H
        by (rewrite <- E; reflexivity).
    injection H as ->. reflexivity.
Defined.
